(** * Driver-Assignment: the assignment engine and its distance resolver

    A shallow embedding of [src/assignDriversToRides.js], of the distance
    resolver and time helpers of [src/utils.js] and of the clock times and
    driver records of the test-data generator, with the properties of the
    specification proved or refuted on it and further properties of the
    code proved after them.

    Conventions of the embedding.
    - Clock times and dates are the strings the code receives.
      [split(':').map(Number)] is embedded on decimal digit strings; a
      field that is not a digit string (a sign, a blank, an exponent) is
      [NaN], written [None]; every comparison with [NaN] is false, as in
      JavaScript.  Statements that read a clock time as a number assume it
      is [HH:MM] ([wf_clock]).
    - Strings are byte strings; [toLowerCase] folds the ASCII letters.
    - A JavaScript number that holds minutes is a [jsint] ([option Z]); a
      distance or a cost is a [jsnum] ([option Q]): exact rationals, with
      [None] for [NaN].  The quotients and the product that end in the
      [Math.ceil] of the travel time (the route length by 1000, the distance
      by 60, the hours by 60) are rounded to binary64 as the code rounds
      them ([float_div], [float_mul]); the sums and products of the costs
      are exact.
    - The routing service is an oracle [axios_get]; the great-circle
      formula is a parameter [haversineDistance].
    - A value drawn by [Math.random()] is a parameter of the function that
      draws it.
    - Mutable objects (the distance cache, the availability index, the
      assignment list, the caller's ride array) are threaded explicitly. *)

From Stdlib Require Import ZArith QArith Qabs Qround Qpower Lia Lqa List Sorting.Sorted Permutation.
From Stdlib Require Import Strings.String Strings.Ascii DecimalString DecimalPos.
From Stdlib Require Import Qcanon.
From stdpp Require Import base decidable option list gmap strings.

Local Open Scope string_scope.
Local Open Scope Z_scope.

(** ** JavaScript numbers *)

(** A number that is an integer or [NaN]. *)
Definition jsint : Type := option Z.

(** A number that is a rational or [NaN]. *)
Definition jsnum : Type := option Q.

Definition js_lift2 {A B C} (f : A -> B -> C) (a : option A) (b : option B) : option C :=
  match a, b with
  | Some x, Some y => Some (f x y)
  | _, _ => None
  end.

Definition js_cmp {A} (f : A -> A -> bool) (a b : option A) : bool :=
  match a, b with
  | Some x, Some y => f x y
  | _, _ => false
  end.

Definition int_gt : jsint -> jsint -> bool := js_cmp Z.gtb.
Definition int_lt : jsint -> jsint -> bool := js_cmp Z.ltb.
Definition int_ge : jsint -> jsint -> bool := js_cmp Z.geb.
Definition int_le : jsint -> jsint -> bool := js_cmp Z.leb.
Definition int_add : jsint -> jsint -> jsint := js_lift2 Z.add.
Definition int_sub : jsint -> jsint -> jsint := js_lift2 Z.sub.
Definition int_mul : jsint -> jsint -> jsint := js_lift2 Z.mul.

Definition Qltb (x y : Q) : bool := negb (Qle_bool y x).
Definition Qgtb (x y : Q) : bool := Qltb y x.

Definition num_add : jsnum -> jsnum -> jsnum := js_lift2 Qplus.
Definition num_mul : jsnum -> jsnum -> jsnum := js_lift2 Qmult.
Definition num_div : jsnum -> jsnum -> jsnum := js_lift2 Qdiv.
Definition num_of_int (n : jsint) : jsnum := inject_Z <$> n.

(** [Math.ceil], [Math.floor(x / 60)], [x % 60] and [Math.round]. *)
Definition Math_ceil (x : jsnum) : jsint := Qceiling <$> x.
Definition floor_div60 (n : jsint) : jsint := (fun z => z / 60) <$> n.
Definition rem60 (n : jsint) : jsint := (fun z => Z.rem z 60) <$> n.
Definition Math_round (x : Q) : Z := Qfloor (x + (1 # 2))%Q.

(** ** Double precision *)

(** The nearest integer, ties to the even one. *)
Definition round_half_even (y : Q) : Z :=
  let f := Qfloor y in
  match (y - inject_Z f ?= 1 # 2)%Q with
  | Lt => f
  | Gt => f + 1
  | Eq => if Z.even f then f else f + 1
  end.

(** The integer part of the binary logarithm of a positive rational. *)
Definition ilog2 (x : Q) : Z :=
  let l := Z.log2 (Qnum x) - Z.log2 (Zpos (Qden x)) in
  if Qle_bool (Qpower 2 l) x then l else l - 1.

(** The binary64 number nearest to a positive rational: 53 significant
    bits, ties to even, exponents down to the subnormal numbers. *)
Definition round_positive (x : Q) : Q :=
  let s := Z.max (ilog2 x - 52) (-1074) in
  (inject_Z (round_half_even (x * Qpower 2 (- s))) * Qpower 2 s)%Q.

(** The value that a JavaScript number takes for the exact result [x] of
    an operation; overflow to [Infinity] is not embedded. *)
Definition binary64 (x : Q) : Q :=
  match Qnum x with
  | Z0 => 0%Q
  | Zpos _ => round_positive x
  | Zneg _ => (- round_positive (- x))%Q
  end.

Arguments binary64 x : simpl never.

(** [a / b] and [a * b] as the code computes them, rounded to binary64. *)
Definition float_div : jsnum -> jsnum -> jsnum := js_lift2 (fun a b => binary64 (a / b)).
Definition float_mul : jsnum -> jsnum -> jsnum := js_lift2 (fun a b => binary64 (a * b)).

(** ** Strings *)

Definition is_digit (c : ascii) : bool :=
  let n := N_of_ascii c in ((48 <=? n) && (n <=? 57))%N.

Definition digit_value (c : ascii) : Z := Z.of_N (N_of_ascii c) - 48.

Fixpoint digits_value (acc : Z) (s : string) : jsint :=
  match s with
  | EmptyString => Some acc
  | String c s' =>
      if is_digit c then digits_value (acc * 10 + digit_value c) s' else None
  end.

(** [Number(s)] for the strings of a clock field: the empty string is 0, a
    digit string is its decimal value, anything else is [NaN]. *)
Definition Number (s : string) : jsint := digits_value 0 s.

(** [s.split(sep)] for a one-character separator. *)
Fixpoint split (sep : ascii) (s : string) : list string :=
  match s with
  | EmptyString => [EmptyString]
  | String c s' =>
      if Ascii.eqb c sep then EmptyString :: split sep s'
      else match split sep s' with
           | x :: xs => String c x :: xs
           | [] => [String c EmptyString]
           end
  end.

(** [String(n)]. *)
Definition String_of (n : jsint) : string :=
  match n with
  | Some z => NilZero.string_of_int (Z.to_int z)
  | None => "NaN"
  end.

(** [s.padStart(2, '0')]. *)
Definition padStart2 (s : string) : string :=
  match s with
  | EmptyString => "00"
  | String c EmptyString => String "0" (String c EmptyString)
  | _ => s
  end.

Definition is_upper (c : ascii) : bool :=
  let n := N_of_ascii c in ((65 <=? n) && (n <=? 90))%N.

Definition lower_ascii (c : ascii) : ascii :=
  if is_upper c then ascii_of_N (N_of_ascii c + 32) else c.

(** [s.toLowerCase()] on the ASCII letters. *)
Fixpoint toLowerCase (s : string) : string :=
  match s with
  | EmptyString => EmptyString
  | String c s' => String (lower_ascii c) (toLowerCase s')
  end.

(** [s.includes(sub)]. *)
Fixpoint includes (s sub : string) : bool :=
  String.prefix sub s ||
  match s with
  | EmptyString => false
  | String _ s' => includes s' sub
  end.

(** [a.localeCompare(b)], as the sign of the comparison, on the digit and
    punctuation strings of dates and clock times. *)
Definition localeCompare (a b : string) : comparison := String.compare a b.

(** ** TimeArithmetic *)

(** [const [hours, minutes] = timeStr.split(':').map(Number)]; a missing
    field is [undefined], which every use below treats as [NaN]. *)
Definition parseTime (timeStr : string) : jsint * jsint :=
  let parts := map Number (split ":" timeStr) in
  (nth 0 parts None, nth 1 parts None).

Definition timeToMinutes (timeStr : string) : jsint :=
  let '(hours, minutes) := parseTime timeStr in
  int_add (int_mul hours (Some 60)) minutes.

Definition isTimeInRange (time startTime endTime : string) : bool :=
  let timeMinutes := timeToMinutes time in
  let startMinutes := timeToMinutes startTime in
  let endMinutes := timeToMinutes endTime in
  int_ge timeMinutes startMinutes && int_le timeMinutes endMinutes.

Definition isTimeAfter (time1 time2 : string) : bool :=
  let '(hours1, minutes1) := parseTime time1 in
  let '(hours2, minutes2) := parseTime time2 in
  if int_gt hours1 hours2 then true
  else if int_lt hours1 hours2 then false
  else int_gt minutes1 minutes2.

Definition addMinutesToTime (timeStr : string) (minutes : jsint) : string :=
  let '(hours, mins) := parseTime timeStr in
  let totalMinutes := int_add (int_add (int_mul hours (Some 60)) mins) minutes in
  let newHours := floor_div60 totalMinutes in
  let newMinutes := rem60 totalMinutes in
  padStart2 (String_of newHours) +:+ ":" +:+ padStart2 (String_of newMinutes).

Definition getTimeDifferenceInMinutes (startTime endTime : string) : jsint :=
  let '(startHours, startMinutes) := parseTime startTime in
  let '(endHours, endMinutes) := parseTime endTime in
  let startTotalMinutes := int_add (int_mul startHours (Some 60)) startMinutes in
  let endTotalMinutes := int_add (int_mul endHours (Some 60)) endMinutes in
  int_sub endTotalMinutes startTotalMinutes.

(** ** Data model *)

(** A coordinate pair [[lat, lon]]. *)
Definition coords : Type := Qc * Qc.

Module Driver.
Record t := mk {
  driverId : string;
  city : string;
  city_coords : coords;
  numberOfSeats : Z;
  fuelCost : Q;
  shiftStart : option string;
  shiftEnd : option string;
  maxDailyWorkHours : option Q;
  blockedAddresses : option (list string)
}.
End Driver.

Module Ride.
Record t := mk {
  _id : string;
  date : string;
  startTime : string;
  endTime : string;
  startPoint : string;
  startPoint_coords : coords;
  endPoint : string;
  endPoint_coords : coords;
  numberOfSeats : Z
}.
End Ride.

(** An entry of [driverAvailability]. *)
Module Availability.
Record t := mk {
  lastRideEndTime : string;
  lastRideEndPoint : string;
  lastRideEndPoint_coords : coords;
  busyUntil : string;
  lastActiveDate : option string
}.
End Availability.

(** An entry of the engine's [assignments] array. *)
Module Assignment.
Record t := mk {
  driverId : string;
  rideIds : list string;
  dailyWorkMinutes : gmap string jsint
}.
End Assignment.

(** The returned object. *)
Module Result.
Record t := mk {
  assignments : list (string * list string);
  totalCost : Q
}.
End Result.

(** ** The routing service *)

(** A route object of the reply; [distance] is absent when the field is
    missing or holds a value that the division by 1000 turns into [NaN]. *)
Record route := { distance : option Q }.

(** [response.data]: the [routes] field, absent or an array whose entries
    are route objects or [null]. *)
Record body := { routes : option (list (option route)) }.

Record response := { data : option body }.

(** What [await axios.get(url)] does: the promise rejects (network error,
    timeout surfaced by the socket, error status) or resolves. *)
Inductive reply :=
| Rejected
| Resolved (r : response).

(** [distanceCache] together with the log of the queries sent so far. *)
Record world := {
  distanceCache : gmap (coords * coords) jsnum;
  requests : list (coords * coords)
}.

(** The cache key: the rendered string determines the four numbers and is
    determined by them, so the key is the pair of coordinate pairs. *)
Definition getDistanceCacheKey (startCoords endCoords : coords) : coords * coords :=
  (startCoords, endCoords).

Definition cache_set (k : coords * coords) (v : jsnum) (w : world) : world :=
  {| distanceCache := <[k := v]> (distanceCache w); requests := requests w |}.

Definition send (k : coords * coords) (w : world) : world :=
  {| distanceCache := distanceCache w; requests := requests w ++ [k] |}.

(** JavaScript truthiness of an optional number: [undefined] and [0] are
    falsy. *)
Definition truthy_number (o : option Q) : bool :=
  match o with
  | Some q => negb (Qeq_bool q 0)
  | None => false
  end.

(** [x || fallback]. *)
Definition or_string (o : option string) (fallback : string) : string :=
  match o with
  | Some s => if String.eqb s "" then fallback else s
  | None => fallback
  end.

(** [x || 0] for a number read from the ledger: [undefined], [0] and [NaN]
    are falsy. *)
Definition or_zero (o : option jsint) : Z :=
  match o with
  | Some (Some z) => z
  | _ => 0
  end.

(** ** Well-formed input *)

(** A clock time [HH:MM]: two digits, a colon, two digits, minutes below 60.
    Hours are not bounded by 24, so that the end of a ride that runs past
    midnight can be written [24:15]. *)
Definition wf_clock (s : string) : bool :=
  match s with
  | String h1 (String h0 (String c (String m1 (String m0 EmptyString)))) =>
      is_digit h1 && is_digit h0 && Ascii.eqb c ":" && is_digit m1 && is_digit m0
      && (N_of_ascii m1 <=? 53)%N
  | _ => false
  end.

Definition wf_optional_clock (o : option string) : bool :=
  match o with
  | Some s => wf_clock s
  | None => true
  end.

Definition wf_ride (r : Ride.t) : bool :=
  wf_clock (Ride.startTime r) && wf_clock (Ride.endTime r).

Definition wf_driver (d : Driver.t) : bool :=
  wf_optional_clock (Driver.shiftStart d) && wf_optional_clock (Driver.shiftEnd d).

(** A date [YYYY-MM-DD]: four digits, a hyphen, two digits, a hyphen, two
    digits. *)
Definition wf_date (s : string) : bool :=
  match s with
  | String y3 (String y2 (String y1 (String y0 (String h1
      (String m1 (String m0 (String h0 (String d1 (String d0 EmptyString))))))))) =>
      is_digit y3 && is_digit y2 && is_digit y1 && is_digit y0 && Ascii.eqb h1 "-"
      && is_digit m1 && is_digit m0 && Ascii.eqb h0 "-" && is_digit d1 && is_digit d0
  | _ => false
  end.

(** The number [YYYYMMDD] of a date, read off its digits. *)
Definition dateNumber (s : string) : Z :=
  match s with
  | String y3 (String y2 (String y1 (String y0 (String _
      (String m1 (String m0 (String _ (String d1 (String d0 EmptyString))))))))) =>
      digit_value y3 * 10000000 + digit_value y2 * 1000000 + digit_value y1 * 100000
      + digit_value y0 * 10000 + digit_value m1 * 1000 + digit_value m0 * 100
      + digit_value d1 * 10 + digit_value d0
  | _ => 0
  end.

(** The fields that the sort reads are a date and a clock time. *)
Definition wf_sort_key (r : Ride.t) : bool :=
  wf_date (Ride.date r) && wf_clock (Ride.startTime r).

(** Minutes since midnight of a well-formed clock time. *)
Definition minutesOf (s : string) : Z := default 0 (timeToMinutes s).

(** [a <= b] in the order of [localeCompare]. *)
Definition str_le (a b : string) : Prop := localeCompare a b <> Gt.


(** The failures the resolver recovers from: a rejected promise, a reply
    without data, without routes, with an empty route array, or with a
    [null] first route.  The geometric distance is returned and cached. *)
Definition unusable (r : reply) : bool :=
  match r with
  | Rejected => true
  | Resolved {| data := None |} => true
  | Resolved {| data := Some {| routes := None |} |} => true
  | Resolved {| data := Some {| routes := Some [] |} |} => true
  | Resolved {| data := Some {| routes := Some (None :: _) |} |} => true
  | Resolved {| data := Some {| routes := Some (Some _ :: _) |} |} => false
  end.


(** A ride whose end is not before its start. *)
Definition proper_ride (r : Ride.t) : bool :=
  wf_ride r && (minutesOf (Ride.startTime r) <=? minutesOf (Ride.endTime r)).

Definition nonneg_num (v : jsnum) : Prop :=
  match v with
  | Some q => (0 <= q)%Q
  | None => True
  end.

(** The service reports no negative distance. *)
Definition reply_nonneg (r : reply) : bool :=
  match r with
  | Resolved {| data := Some {| routes := Some (Some {| distance := Some d |} :: _) |} |} =>
      Qle_bool 0 d
  | _ => true
  end.

Definition cache_nonneg (w : world) : Prop :=
  map_Forall (fun _ v => nonneg_num v) (distanceCache w).

(** ** Decimal numerals *)

(** The value of a decimal numeral read after the digits that gave [acc]. *)
Fixpoint uint_value (acc : Z) (d : Decimal.uint) : Z :=
  match d with
  | Decimal.Nil => acc
  | Decimal.D0 d => uint_value (acc * 10 + 0) d
  | Decimal.D1 d => uint_value (acc * 10 + 1) d
  | Decimal.D2 d => uint_value (acc * 10 + 2) d
  | Decimal.D3 d => uint_value (acc * 10 + 3) d
  | Decimal.D4 d => uint_value (acc * 10 + 4) d
  | Decimal.D5 d => uint_value (acc * 10 + 5) d
  | Decimal.D6 d => uint_value (acc * 10 + 6) d
  | Decimal.D7 d => uint_value (acc * 10 + 7) d
  | Decimal.D8 d => uint_value (acc * 10 + 8) d
  | Decimal.D9 d => uint_value (acc * 10 + 9) d
  end.

Fixpoint all_digits (s : string) : bool :=
  match s with
  | EmptyString => true
  | String c s' => is_digit c && all_digits s'
  end.


(** ** The generator of test data *)

(** [Math.floor]. *)
Definition Math_floor (x : jsnum) : jsint := Qfloor <$> x.

(** [getRandomTime(startTime, endTime)] of the generator; [random] is the
    value that its call of [Math.random()] returns. *)
Definition getRandomTime (random : Q) (startTime endTime : string) : string :=
  let '(startHours, startMinutes) := parseTime startTime in
  let '(endHours, endMinutes) := parseTime endTime in
  let startTotalMinutes := int_add (int_mul startHours (Some 60)) startMinutes in
  let endTotalMinutes := int_add (int_mul endHours (Some 60)) endMinutes in
  let randomTotalMinutes :=
    Math_floor
      (num_add (num_mul (Some random)
                        (num_of_int (int_sub endTotalMinutes startTotalMinutes)))
               (num_of_int startTotalMinutes)) in
  let randomHours := floor_div60 randomTotalMinutes in
  let randomMinutes := rem60 randomTotalMinutes in
  padStart2 (String_of randomHours) +:+ ":" +:+ padStart2 (String_of randomMinutes).

(** The clock times of one ride of [generateRidesData]: the start drawn by
    [getRandomTime('06:00', '21:00')], a duration of
    [Math.floor(Math.random() * 105) + 15] minutes, and the end computed by
    [addMinutesToTime]; [random1] and [random2] are the two values drawn. *)
Definition rideTimes (random1 random2 : Q) : string * string :=
  let startTime := getRandomTime random1 "06:00" "21:00" in
  let rideDuration :=
    int_add (Math_floor (num_mul (Some random2) (Some (105 : Q)))) (Some 15) in
  let endTime := addMinutesToTime startTime rideDuration in
  (startTime, endTime).

(** The clock time printed for a total of minutes:
    [`${String(Math.floor(t / 60)).padStart(2, '0')}:${String(t % 60).padStart(2, '0')}`]. *)
Definition clockOf (totalMinutes : Z) : string :=
  padStart2 (String_of (Some (totalMinutes / 60))) +:+ ":"
  +:+ padStart2 (String_of (Some (Z.rem totalMinutes 60))).

(** The three shifts of [generateDriversData]. *)
Inductive shiftType := morning | evening | full.

(** [Math.random() < 0.33 ? 'morning' : (Math.random() < 0.66 ? 'evening' : 'full')];
    the second value is drawn only when the first test fails. *)
Definition drawShiftType (random1 random2 : Q) : shiftType :=
  if Qltb random1 0.33 then morning
  else if Qltb random2 0.66 then evening
  else full.

(** The [switch] on the shift type. *)
Definition shiftWindow (shift : shiftType) : string * string :=
  match shift with
  | morning => ("06:00", "12:00")
  | evening => ("16:00", "22:00")
  | full => ("08:00", "20:00")
  end.

(** The record that [generateDriversData] pushes in iteration [i], for the
    city and coordinates it has drawn and looked up, the blocked addresses
    it has drawn, and the values that [Math.random()] returns for the shift,
    the seats, the fuel cost and the daily hours. *)
Definition generatedDriver (i : Z) (city : string) (coords : coords)
    (randomShift1 randomShift2 randomSeats randomFuel randomHours : Q)
    (blockedAddresses : list string) : Driver.t :=
  let '(startShift, endShift) := shiftWindow (drawShiftType randomShift1 randomShift2) in
  let numberOfSeats := Qfloor (randomSeats * 5) + 4 in
  let fuelCost := (inject_Z (Math_round ((randomFuel * 0.3 + 0.5) * 100)) / 100)%Q in
  {| Driver.driverId := "driver" +:+ String_of (Some (i + 1));
     Driver.city := city;
     Driver.city_coords := coords;
     Driver.numberOfSeats := numberOfSeats;
     Driver.fuelCost := fuelCost;
     Driver.shiftStart := Some startShift;
     Driver.shiftEnd := Some endShift;
     Driver.maxDailyWorkHours := Some (inject_Z (Qfloor (randomHours * 5) + 6));
     Driver.blockedAddresses := Some blockedAddresses |}.

(** ** Sample inputs *)

(** A stand-in for the great-circle distance in the examples: 111 km per
    degree along each axis. *)
Definition grid_distance (a b : coords) : Q :=
  (111 * (Qabs (this (fst b) - this (fst a)) + Qabs (this (snd b) - this (snd a))))%Q.

Definition point (lat lon : Q) : coords := (Q2Qc lat, Q2Qc lon).

Definition depot : coords := point 32.0 34.8.
Definition nearby : coords := point 32.1 34.9.
Definition suburb : coords := point 32.3 34.9.

(** The routing service is unreachable. *)
Definition service_down (n : nat) (a b : coords) : reply := Rejected.

(** The routing service reports a road distance of one and a half times the
    grid distance, in metres. *)
Definition service_up (n : nat) (a b : coords) : reply :=
  Resolved {| data := Some {| routes :=
    Some [Some {| distance := Some (1500 * grid_distance a b)%Q |}] |} |}.

(** The routing service answers with a route object that has no distance. *)
Definition service_garbled (n : nat) (a b : coords) : reply :=
  Resolved {| data := Some {| routes := Some [Some {| distance := None |}] |} |}.

(** The routing service reports a five kilometre loop for every query. *)
Definition service_loop (n : nat) (a b : coords) : reply :=
  Resolved {| data := Some {| routes := Some [Some {| distance := Some 5000%Q |}] |} |}.

Definition cold : world := {| distanceCache := ∅; requests := [] |}.

Definition driver1 : Driver.t :=
  Driver.mk "driver1" "Tel Aviv, Israel" depot 4 0.6 (Some "08:00") (Some "20:00") None None.

Definition ride1 : Ride.t :=
  Ride.mk "ride1" "2023-06-01" "09:00" "09:30" "Tel Aviv, Israel" depot
          "Ramat Gan, Israel" nearby 2.

(** A driver without shift, cap or blocked list. *)
Definition driver2 : Driver.t :=
  Driver.mk "driver2" "Tel Aviv, Israel" depot 4 0.5 None None None None.


(** A second ride, later on the same day, back to the depot. *)
Definition ride2 : Ride.t :=
  Ride.mk "ride2" "2023-06-01" "10:00" "10:45" "Ramat Gan, Israel" nearby
          "Tel Aviv, Israel" depot 3.

(** A ride whose end time is before its start time. *)
Definition ride_inverted : Ride.t :=
  Ride.mk "ride3" "2023-06-01" "10:00" "08:00" "Ramat Gan, Israel" nearby
          "Tel Aviv, Israel" depot 1.

(** A ride that crosses midnight, its end written as a clock time of the
    next day. *)
Definition ride_night : Ride.t :=
  Ride.mk "ride4" "2023-06-01" "23:30" "00:15" "Tel Aviv, Israel" depot
          "Ramat Gan, Israel" nearby 1.

(** A ride that crosses midnight, its end written past 24:00 as
    [addMinutesToTime] computes it. *)
Definition ride_late : Ride.t :=
  Ride.mk "ride5" "2023-06-01" "23:30" "24:15" "Tel Aviv, Israel" depot
          "Ramat Gan, Israel" nearby 1.

(** A ride of the next day that starts before [ride1] ends on the clock. *)
Definition ride_next_day : Ride.t :=
  Ride.mk "ride6" "2023-06-02" "09:15" "09:45" "Ramat Gan, Israel" nearby
          "Tel Aviv, Israel" depot 1.


(** A driver on a night shift, from 22:00 to 06:00. *)
Definition driver_night : Driver.t :=
  Driver.mk "driver4" "Tel Aviv, Israel" depot 4 0.4 (Some "22:00") (Some "06:00") None None.

(** A driver whose blocked list holds an empty string. *)
Definition driver_blank : Driver.t :=
  Driver.mk "driver5" "Tel Aviv, Israel" depot 4 0.4 None None None (Some [""]).


(** A ride for nine passengers. *)
Definition ride_group : Ride.t :=
  Ride.mk "ride7" "2023-06-01" "09:00" "09:30" "Tel Aviv, Israel" depot
          "Ramat Gan, Israel" nearby 9.

(** A ride with the clock times that the generator computes from the draws
    0.5 and 0.5. *)
Definition ride_generated : Ride.t :=
  Ride.mk "ride8" "2023-06-01" "13:30" "14:37" "Tel Aviv, Israel" depot
          "Ramat Gan, Israel" nearby 2.

(** A ride late in the evening. *)
Definition ride_evening : Ride.t :=
  Ride.mk "ride9" "2023-06-01" "23:00" "23:30" "Tel Aviv, Israel" depot
          "Ramat Gan, Israel" nearby 1.

(** A cache that holds a distance for the leg of [ride1]. *)
Definition warm : world :=
  {| distanceCache := {[ getDistanceCacheKey depot nearby := Some 25%Q ]};
     requests := [] |}.

(** The routing service fails on the first query and works from then on. *)
Definition service_flaky (n : nat) (a b : coords) : reply :=
  match n with
  | O => Rejected
  | S _ => service_up n a b
  end.

(** The routing service reports a route of 31 km for every query. *)
Definition service_31km (n : nat) (a b : coords) : reply :=
  Resolved {| data := Some {| routes := Some [Some {| distance := Some 31000%Q |}] |} |}.

(** A ride that starts 31 minutes after the shift of [driver1] begins. *)
Definition ride_0831 : Ride.t :=
  Ride.mk "ride10" "2023-06-01" "08:31" "09:00" "Ramat Gan, Israel" nearby
          "Tel Aviv, Israel" depot 1.


(** Two rides with start times that are not padded to two digits. *)
Definition ride_9 : Ride.t :=
  Ride.mk "ride12" "2023-06-01" "9:00" "9:30" "Tel Aviv, Israel" depot
          "Ramat Gan, Israel" nearby 1.

Definition ride_10 : Ride.t :=
  Ride.mk "ride13" "2023-06-01" "10:00" "10:30" "Tel Aviv, Israel" depot
          "Ramat Gan, Israel" nearby 1.

Section Engine.

(** [haversineDistance], the great-circle distance in kilometres: its
    trigonometry is not embedded, its value is a parameter. *)
Variable haversineDistance : coords -> coords -> Q.

(** [axios_get n startCoords endCoords]: the outcome of the query for the
    two points when [n] queries were sent before it. *)
Variable axios_get : nat -> coords -> coords -> reply.

(** ** RoutedDistanceResolver *)

(** The [catch] block, also reached by the fall-through of the [try]:
    cache and return the geometric value. *)
Definition fallback (startCoords endCoords : coords) (w : world) : jsnum * world :=
  let haversineDistanceValue := haversineDistance startCoords endCoords in
  (Some haversineDistanceValue,
   cache_set (getDistanceCacheKey startCoords endCoords) (Some haversineDistanceValue) w).

(** The resolver.  [maxHaversineThreshold] is [None] when the caller gives
    no third argument. *)
Definition getDistanceFromOSRM (startCoords endCoords : coords)
    (maxHaversineThreshold : option Q) (w : world) : jsnum * world :=
  let threshold := default (30 : Q) maxHaversineThreshold in
  let cacheKey := getDistanceCacheKey startCoords endCoords in
  match distanceCache w !! cacheKey with
  | Some cached => (cached, w)
  | None =>
      let haversineDistanceValue := haversineDistance startCoords endCoords in
      if Qgtb haversineDistanceValue threshold then
        (Some haversineDistanceValue, cache_set cacheKey (Some haversineDistanceValue) w)
      else
        let w1 := send cacheKey w in
        match axios_get (length (requests w)) startCoords endCoords with
        | Rejected => fallback startCoords endCoords w1
        | Resolved response =>
            match data response with
            | Some d =>
                match routes d with
                | Some (Some r0 :: _) =>
                    let distance := float_div (distance r0) (Some (1000 : Q)) in
                    (distance, cache_set cacheKey distance w1)
                | Some (None :: _) =>
                    (* [routes[0].distance] on [null] throws: the catch block *)
                    fallback startCoords endCoords w1
                | Some [] | None => fallback startCoords endCoords w1
                end
            | None => fallback startCoords endCoords w1
            end
        end
  end.

(** ** ConstraintFilter *)

(** A shift bound that is missing or the empty string is falsy. *)
Definition isDriverOnShift (driver : Driver.t) (startTime endTime : string) : bool :=
  match Driver.shiftStart driver, Driver.shiftEnd driver with
  | Some shiftStart, Some shiftEnd =>
      if String.eqb shiftStart "" || String.eqb shiftEnd "" then true
      else
        let startInShift := isTimeInRange startTime shiftStart shiftEnd in
        let endInShift := isTimeInRange endTime shiftStart shiftEnd in
        startInShift && endInShift
  | _, _ => true
  end.

Definition isAddressBlocked (driver : Driver.t) (address : string) : bool :=
  match Driver.blockedAddresses driver with
  | None | Some [] => false
  | Some blocked =>
      existsb (fun blockedAddress =>
                 includes (toLowerCase address) (toLowerCase blockedAddress))
              blocked
  end.

Definition wouldExceedDailyHours (driverAssignment : Assignment.t)
    (driver : Driver.t) (ride : Ride.t) : bool :=
  match Driver.maxDailyWorkHours driver with
  | None => false
  | Some hours =>
      if Qeq_bool hours 0 then false
      else
        let maxDailyMinutes := (hours * 60)%Q in
        let currentDailyMinutes :=
          or_zero (Assignment.dailyWorkMinutes driverAssignment !! Ride.date ride) in
        let rideDurationMinutes :=
          getTimeDifferenceInMinutes (Ride.startTime ride) (Ride.endTime ride) in
        js_cmp Qgtb (num_of_int (int_add (Some currentDailyMinutes) rideDurationMinutes))
               (Some maxDailyMinutes)
  end.

(** ** AssignmentEngine *)

(** The variables of [assignDriversToRides] that outlive one ride, with
    the resolver's cache and query log. *)
Record state := {
  assignments : list Assignment.t;
  driverAvailability : gmap string Availability.t;
  totalCost : Q;
  apiCallsSaved : Z;
  net : world
}.

Definition with_net (w : world) (st : state) : state :=
  {| assignments := assignments st; driverAvailability := driverAvailability st;
     totalCost := totalCost st; apiCallsSaved := apiCallsSaved st; net := w |}.

Definition saved (st : state) : state :=
  {| assignments := assignments st; driverAvailability := driverAvailability st;
     totalCost := totalCost st; apiCallsSaved := apiCallsSaved st + 1; net := net st |}.

(** The block of lines 66-86, repeated at lines 103-123: the geometric
    distance, replaced by the resolver's answer when it is at most 50. *)
Definition resolveLeg (fromCoords toCoords : coords) (st : state) : jsnum * state :=
  let haversineValue := haversineDistance fromCoords toCoords in
  if Qle_bool haversineValue 50 then
    let '(d, w) := getDistanceFromOSRM fromCoords toCoords None (net st) in
    (d, with_net w st)
  else (Some haversineValue, saved st).

Definition findAssignment (driverId : string) (l : list Assignment.t) : option Assignment.t :=
  find (fun a => String.eqb (Assignment.driverId a) driverId) l.

(** The body of the inner loop up to line 129: [None] when the driver is
    skipped by a [continue], the driver's [totalAssignmentCost] otherwise.
    The two lookups cannot fail in a run ([lookups_always_succeed]); the
    resolver does not throw, so the [catch] blocks around its calls are not
    reached. *)
Definition evaluate (st : state) (ride : Ride.t) (driver : Driver.t)
    : option jsnum * state :=
  if Driver.numberOfSeats driver <? Ride.numberOfSeats ride then (None, st)
  else
    match driverAvailability st !! Driver.driverId driver with
    | None => (None, st)
    | Some availability =>
        if isTimeAfter (Availability.busyUntil availability) (Ride.startTime ride)
        then (None, st)
        else if negb (isDriverOnShift driver (Ride.startTime ride) (Ride.endTime ride))
        then (None, st)
        else if isAddressBlocked driver (Ride.startPoint ride)
                || isAddressBlocked driver (Ride.endPoint ride)
        then (None, st)
        else
          match findAssignment (Driver.driverId driver) (assignments st) with
          | None => (None, st)
          | Some driverAssignment =>
              if wouldExceedDailyHours driverAssignment driver ride then (None, st)
              else
                let '(emptyRideDistance, st1) :=
                  resolveLeg (Availability.lastRideEndPoint_coords availability)
                             (Ride.startPoint_coords ride) st in
                let emptyRideDurationHours := float_div emptyRideDistance (Some (60 : Q)) in
                let emptyRideDurationMinutes :=
                  Math_ceil (float_mul emptyRideDurationHours (Some (60 : Q))) in
                let expectedArrivalTime :=
                  addMinutesToTime (Availability.busyUntil availability)
                                   emptyRideDurationMinutes in
                if isTimeAfter expectedArrivalTime (Ride.startTime ride) then (None, st1)
                else
                  let rideDurationMinutes :=
                    getTimeDifferenceInMinutes (Ride.startTime ride) (Ride.endTime ride) in
                  let driverTimeCost :=
                    num_mul (num_div (num_of_int rideDurationMinutes) (Some (60 : Q)))
                            (Some (30 : Q)) in
                  let '(rideDistance, st2) :=
                    resolveLeg (Ride.startPoint_coords ride) (Ride.endPoint_coords ride) st1 in
                  let rideFuelCost := num_mul rideDistance (Some (Driver.fuelCost driver)) in
                  let emptyRideFuelCost :=
                    num_mul emptyRideDistance (Some (Driver.fuelCost driver)) in
                  let totalAssignmentCost :=
                    num_add (num_add driverTimeCost rideFuelCost) emptyRideFuelCost in
                  (Some totalAssignmentCost, st2)
          end
    end.

(** [bestDriverId] and [minCost]: [None] is the initial [null] and
    [Infinity]; the two are only ever written together. *)
Definition search : Type := option (string * Q).

(** [totalAssignmentCost < minCost] for a cost that is a number. *)
Definition improves (totalAssignmentCost : Q) (s : search) : bool :=
  match s with
  | None => true
  | Some (_, minCost) => Qltb totalAssignmentCost minCost
  end.

Definition considerDriver (ride : Ride.t) (acc : search * state) (driver : Driver.t)
    : search * state :=
  let '(s, st) := acc in
  match evaluate st ride driver with
  | (Some (Some totalAssignmentCost), st') =>
      if improves totalAssignmentCost s
      then (Some (Driver.driverId driver, totalAssignmentCost), st')
      else (s, st')
  | (Some None, st') => (s, st')   (* [NaN < minCost] is false *)
  | (None, st') => (s, st')
  end.

(** The inner loop over the drivers. *)
Definition chooseDriver (drivers : list Driver.t) (st : state) (ride : Ride.t)
    : search * state :=
  fold_left (considerDriver ride) drivers (None, st).

(** [assignments[driverIndex]] for the first entry of the driver. *)
Fixpoint updateAssignment (driverId : string) (f : Assignment.t -> Assignment.t)
    (l : list Assignment.t) : list Assignment.t :=
  match l with
  | [] => []
  | a :: l' =>
      if String.eqb (Assignment.driverId a) driverId then f a :: l'
      else a :: updateAssignment driverId f l'
  end.

(** Lines 139-146 on the found entry; a falsy ledger entry is first set
    to 0. *)
Definition recordRide (ride : Ride.t) (a : Assignment.t) : Assignment.t :=
  let rideDuration :=
    getTimeDifferenceInMinutes (Ride.startTime ride) (Ride.endTime ride) in
  let current := or_zero (Assignment.dailyWorkMinutes a !! Ride.date ride) in
  {| Assignment.driverId := Assignment.driverId a;
     Assignment.rideIds := Assignment.rideIds a ++ [Ride._id ride];
     Assignment.dailyWorkMinutes :=
       <[Ride.date ride := int_add (Some current) rideDuration]>
         (Assignment.dailyWorkMinutes a) |}.

Definition endState (ride : Ride.t) : Availability.t :=
  {| Availability.lastRideEndTime := Ride.endTime ride;
     Availability.lastRideEndPoint := Ride.endPoint ride;
     Availability.lastRideEndPoint_coords := Ride.endPoint_coords ride;
     Availability.busyUntil := Ride.endTime ride;
     Availability.lastActiveDate := Some (Ride.date ride) |}.

(** The [if (bestDriverId)] block. *)
Definition commit (bestDriverId : string) (minCost : Q) (ride : Ride.t) (st : state)
    : state :=
  {| assignments := updateAssignment bestDriverId (recordRide ride) (assignments st);
     driverAvailability := <[bestDriverId := endState ride]> (driverAvailability st);
     totalCost := (totalCost st + minCost)%Q;
     apiCallsSaved := apiCallsSaved st;
     net := net st |}.

(** The committed driver, if any: [bestDriverId] when it is truthy. *)
Definition committed (s : search) : option (string * Q) :=
  match s with
  | Some (bestDriverId, minCost) =>
      if String.eqb bestDriverId "" then None else Some (bestDriverId, minCost)
  | None => None
  end.

(** One iteration of the outer loop. *)
Definition processRide (drivers : list Driver.t) (st : state) (ride : Ride.t) : state :=
  let '(s, st1) := chooseDriver drivers st ride in
  match committed s with
  | Some (bestDriverId, minCost) => commit bestDriverId minCost ride st1
  | None => st1
  end.

(** The comparator of [rides.sort]. *)
Definition compareRides (a b : Ride.t) : comparison :=
  if negb (String.eqb (Ride.date a) (Ride.date b))
  then localeCompare (Ride.date a) (Ride.date b)
  else localeCompare (Ride.startTime a) (Ride.startTime b).

(** [Array.prototype.sort] is a stable sort; it is embedded as the stable
    insertion sort. *)
Fixpoint insertRide (x : Ride.t) (l : list Ride.t) : list Ride.t :=
  match l with
  | [] => [x]
  | y :: l' =>
      match compareRides x y with
      | Gt => y :: insertRide x l'
      | _ => x :: y :: l'
      end
  end.

Fixpoint sortRides (l : list Ride.t) : list Ride.t :=
  match l with
  | [] => []
  | x :: l' => insertRide x (sortRides l')
  end.

Definition initialAssignment (driver : Driver.t) : Assignment.t :=
  {| Assignment.driverId := Driver.driverId driver;
     Assignment.rideIds := [];
     Assignment.dailyWorkMinutes := ∅ |}.

Definition initialAvailability (driver : Driver.t) : Availability.t :=
  {| Availability.lastRideEndTime := or_string (Driver.shiftStart driver) "00:00";
     Availability.lastRideEndPoint := Driver.city driver;
     Availability.lastRideEndPoint_coords := Driver.city_coords driver;
     Availability.busyUntil := or_string (Driver.shiftStart driver) "00:00";
     Availability.lastActiveDate := None |}.

Definition initialState (drivers : list Driver.t) (w : world) : state :=
  {| assignments := map initialAssignment drivers;
     driverAvailability :=
       fold_left (fun m driver => <[Driver.driverId driver := initialAvailability driver]> m)
                 drivers ∅;
     totalCost := 0;
     apiCallsSaved := 0;
     net := w |}.

(** The outer loop over the sorted rides. *)
Definition runRides (drivers : list Driver.t) (rides : list Ride.t) (st : state) : state :=
  fold_left (processRide drivers) rides st.

Definition filteredAssignments (l : list Assignment.t) : list (string * list string) :=
  map (fun a => (Assignment.driverId a, Assignment.rideIds a))
      (List.filter (fun a => (0 <? Z.of_nat (length (Assignment.rideIds a)))) l).

Definition round2 (x : Q) : Q := (inject_Z (Math_round (x * 100)) / 100)%Q.

(** What a call leaves behind: the returned object, the caller's two
    arrays as they are after the call, and the resolver's cache. *)
Record outcome := {
  returned : Result.t;
  ridesData_after : list Ride.t;
  driversData_after : list Driver.t;
  world_after : world
}.

Definition assignDriversToRides (driversData : list Driver.t) (ridesData : list Ride.t)
    (w : world) : outcome :=
  let drivers := driversData in
  (* [rides] is the caller's array; [sort] reorders it in place *)
  let rides := sortRides ridesData in
  let final := runRides drivers rides (initialState drivers w) in
  {| returned :=
       {| Result.assignments := filteredAssignments (assignments final);
          Result.totalCost := round2 (totalCost final) |};
     ridesData_after := rides;
     driversData_after := drivers;
     world_after := net final |}.


(** ** Orders used in the statements *)

(** [a] is not after [b] in the order of the comparator of [rides.sort]. *)
Definition ride_le (a b : Ride.t) : Prop := compareRides a b <> Gt.

(** ** Feasibility, in the words of the specification *)


(** The resolved empty-leg distance of a driver for a ride. *)
Definition emptyLeg (st : state) (availability : Availability.t) (ride : Ride.t) : jsnum :=
  fst (resolveLeg (Availability.lastRideEndPoint_coords availability)
                  (Ride.startPoint_coords ride) st).

Definition within_shift (driver : Driver.t) (ride : Ride.t) : Prop :=
  forall shiftStart shiftEnd,
    Driver.shiftStart driver = Some shiftStart ->
    Driver.shiftEnd driver = Some shiftEnd ->
    (minutesOf shiftStart <= minutesOf (Ride.startTime ride) <= minutesOf shiftEnd)
    /\ (minutesOf shiftStart <= minutesOf (Ride.endTime ride) <= minutesOf shiftEnd).



(** The minutes of travel over a distance at 60 distance units an hour,
    rounded up: the quotient by 60 and its product with 60 are taken in
    binary64, as the code takes them, before the ceiling. *)
Definition travelMinutes (distance : jsnum) : jsint :=
  Math_ceil (float_mul (float_div distance (Some (60 : Q))) (Some (60 : Q))).



(** The cap as the code reads it: a [maxDailyWorkHours] that is truthy,
    that is defined and not zero. *)
Definition cap_when_truthy (driver : Driver.t) : option Q :=
  if truthy_number (Driver.maxDailyWorkHours driver)
  then Driver.maxDailyWorkHours driver else None.

(** The driver's cost is evaluated. *)
Definition evaluated (st : state) (ride : Ride.t) (driver : Driver.t) : Prop :=
  is_Some (fst (evaluate st ride driver)).

(** ** The cost of an assignment, in the words of the specification *)

(** The resolved distance of the ride itself, after the empty leg was
    resolved. *)
Definition rideLeg (st : state) (availability : Availability.t) (ride : Ride.t) : jsnum :=
  fst (resolveLeg (Ride.startPoint_coords ride) (Ride.endPoint_coords ride)
         (snd (resolveLeg (Availability.lastRideEndPoint_coords availability)
                          (Ride.startPoint_coords ride) st))).

Definition rideDuration (ride : Ride.t) : Z :=
  minutesOf (Ride.endTime ride) - minutesOf (Ride.startTime ride).

(** [(rideDurationMinutes / 60) * 30 + r * fuelCost + e * fuelCost]. *)
Definition costFormula (driver : Driver.t) (ride : Ride.t) (e r : jsnum) : jsnum :=
  num_add (num_add (Some (inject_Z (rideDuration ride) / 60 * 30)%Q)
                   (num_mul r (Some (Driver.fuelCost driver))))
          (num_mul e (Some (Driver.fuelCost driver))).

(** The service does not invent a detour for a leg from a point to
    itself: the query fails, or the reported route has length zero. *)
Definition degenerate_ok (r : reply) : bool :=
  match r with
  | Resolved {| data := Some {| routes := Some (Some {| distance := Some d |} :: _) |} |} =>
      Qeq_bool d 0
  | Resolved {| data := Some {| routes := Some (Some {| distance := None |} :: _) |} |} =>
      false
  | _ => true
  end.

(** The cache holds nothing, or zero, for the pair. *)
Definition cached_zero (w : world) (p : coords) : bool :=
  match distanceCache w !! getDistanceCacheKey p p with
  | None => true
  | Some (Some q) => Qeq_bool q 0
  | Some None => false
  end.

(** ** The selection, in the words of the specification *)

(** The drivers in iteration order, each with the outcome of its
    evaluation for the ride: [None] when skipped, its cost otherwise.  The
    resolver's cache is threaded from one driver to the next. *)
Fixpoint evaluations (drivers : list Driver.t) (st : state) (ride : Ride.t)
    : list (Driver.t * option jsnum) :=
  match drivers with
  | [] => []
  | driver :: rest =>
      let '(c, st') := evaluate st ride driver in
      (driver, c) :: evaluations rest st' ride
  end.

(** The costs added to [totalCost], in the order of the rides. *)
Fixpoint acceptedCosts (drivers : list Driver.t) (rides : list Ride.t) (st : state)
    : list Q :=
  match rides with
  | [] => []
  | ride :: rest =>
      let later := acceptedCosts drivers rest (processRide drivers st ride) in
      match committed (fst (chooseDriver drivers st ride)) with
      | Some (_, minCost) => minCost :: later
      | None => later
      end
  end.

Definition Qsum (l : list Q) : Q := fold_right Qplus 0%Q l.

(** The books of the engine are the same in two states: only the
    resolver's cache and the counter of saved queries may differ. *)
Definition same_books (st st' : state) : Prop :=
  assignments st' = assignments st
  /\ driverAvailability st' = driverAvailability st
  /\ totalCost st' = totalCost st.

(** The update of [bestDriverId] and [minCost] by one evaluated driver. *)
Definition pick (s : search) (e : Driver.t * option jsnum) : search :=
  match e with
  | (driver, Some (Some c)) => if improves c s then Some (Driver.driverId driver, c) else s
  | _ => s
  end.

(** What the inner loop leaves in [bestDriverId] and [minCost], started
    from [s0], over the evaluations [l]: a minimum of the costs that are
    numbers, and the first driver that attains it. *)
Definition first_minimum (l : list (Driver.t * option jsnum)) (s0 s : search) : Prop :=
  match s with
  | None => s0 = None /\ forall j driver c, l !! j = Some (driver, Some (Some c)) -> False
  | Some (bestDriverId, minCost) =>
      (forall j driver c, l !! j = Some (driver, Some (Some c)) -> (minCost <= c)%Q)
      /\ (forall id0 c0, s0 = Some (id0, c0) -> (minCost <= c0)%Q)
      /\ (s0 = Some (bestDriverId, minCost)
          \/ exists k driver,
               l !! k = Some (driver, Some (Some minCost))
               /\ Driver.driverId driver = bestDriverId
               /\ (forall j driver' c, (j < k)%nat ->
                     l !! j = Some (driver', Some (Some c)) -> (minCost < c)%Q)
               /\ (forall id0 c0, s0 = Some (id0, c0) -> (minCost < c0)%Q))
  end.

(** ** The schedule of a driver, in the words of the specification *)



(** The entry at index [i] is the first entry of its driver. *)
Definition is_first (l : list Assignment.t) (i : nat) (a : Assignment.t) : Prop :=
  forall j a', (j < i)%nat -> l !! j = Some a' ->
               Assignment.driverId a' <> Assignment.driverId a.

Definition allRideIds (l : list Assignment.t) : list string :=
  concat (map Assignment.rideIds l).


(** ** Availability over a run *)

(** Every [busyUntil] of the index is a clock time. *)
Definition clocks_wf (st : state) : Prop :=
  map_Forall (fun _ availability => wf_clock (Availability.busyUntil availability) = true)
             (driverAvailability st).

(** No ride of [rides], processed from [st], is committed to the driver. *)
Fixpoint never_committed (drivers : list Driver.t) (driverId : string)
    (rides : list Ride.t) (st : state) : bool :=
  match rides with
  | [] => true
  | ride :: rest =>
      match committed (fst (chooseDriver drivers st ride)) with
      | Some (bestDriverId, _) => negb (String.eqb bestDriverId driverId)
      | None => true
      end
      && never_committed drivers driverId rest (processRide drivers st ride)
  end.

(** The state with every [lastActiveDate] overwritten. *)
Definition redate (x : option string) (st : state) : state :=
  {| assignments := assignments st;
     driverAvailability :=
       (fun a => {| Availability.lastRideEndTime := Availability.lastRideEndTime a;
                    Availability.lastRideEndPoint := Availability.lastRideEndPoint a;
                    Availability.lastRideEndPoint_coords :=
                      Availability.lastRideEndPoint_coords a;
                    Availability.busyUntil := Availability.busyUntil a;
                    Availability.lastActiveDate := x |})
       <$> driverAvailability st;
     totalCost := totalCost st;
     apiCallsSaved := apiCallsSaved st;
     net := net st |}.

(** No driver is on shift for the ride. *)
Definition off_shift_for_all (drivers : list Driver.t) (ride : Ride.t) : bool :=
  forallb (fun d => negb (isDriverOnShift d (Ride.startTime ride) (Ride.endTime ride)))
          drivers.

(** Both lookups of [evaluate] succeed for the driver. *)
Definition indexed (st : state) (driver : Driver.t) : Prop :=
  is_Some (driverAvailability st !! Driver.driverId driver)
  /\ is_Some (findAssignment (Driver.driverId driver) (assignments st)).

(** The driver has a shift, and it ends before the ride does. *)
Definition shift_ends_before (ride : Ride.t) (driver : Driver.t) : bool :=
  match Driver.shiftStart driver, Driver.shiftEnd driver with
  | Some shiftStart, Some shiftEnd =>
      wf_clock shiftStart && wf_clock shiftEnd
      && (minutesOf shiftEnd <? minutesOf (Ride.endTime ride))
  | _, _ => false
  end.

(** ** Resolutions over a run *)

(** A sequence of resolutions, each with its own threshold argument. *)
Fixpoint resolveAll (queries : list (coords * coords * option Q)) (w : world) : world :=
  match queries with
  | [] => w
  | (startCoords, endCoords, threshold) :: rest =>
      resolveAll rest (snd (getDistanceFromOSRM startCoords endCoords threshold w))
  end.

(** The number of queries sent for a pair of points. *)
Definition queriesFor (k : coords * coords) (w : world) : nat :=
  length (List.filter (fun q => bool_decide (q = k)) (requests w)).


(** ** Drivers and rides that the static checks exclude *)

(** The checks of the inner loop that read nothing but the two records:
    the seats, the shift and the blocked addresses. *)
Definition statically_excluded (ride : Ride.t) (driver : Driver.t) : bool :=
  (Driver.numberOfSeats driver <? Ride.numberOfSeats ride)
  || negb (isDriverOnShift driver (Ride.startTime ride) (Ride.endTime ride))
  || isAddressBlocked driver (Ride.startPoint ride)
  || isAddressBlocked driver (Ride.endPoint ride).

(** The ride asks for more seats than any driver has. *)
Definition too_large_for_all (drivers : list Driver.t) (ride : Ride.t) : bool :=
  forallb (fun d => Driver.numberOfSeats d <? Ride.numberOfSeats ride) drivers.

(** The driver's shift ends, on the clock, before it starts: a shift that
    runs past midnight. *)
Definition overnight_shift (driver : Driver.t) : bool :=
  match Driver.shiftStart driver, Driver.shiftEnd driver with
  | Some shiftStart, Some shiftEnd =>
      wf_clock shiftStart && wf_clock shiftEnd
      && (minutesOf shiftEnd <? minutesOf shiftStart)
  | _, _ => false
  end.

(** The driver's blocked list holds the empty string. *)
Definition blocks_blank (driver : Driver.t) : bool :=
  match Driver.blockedAddresses driver with
  | Some blocked => existsb (String.eqb "") blocked
  | None => false
  end.

(** ** The minutes worked by a driver *)



(** ** The queries of a run *)

(** A pair of points at most 30 km apart, the resolver's default
    threshold. *)
Definition short_leg (k : coords * coords) : Prop :=
  (haversineDistance (fst k) (snd k) <= 30)%Q.

(** The queries [new] were sent between the worlds [w] and [w']: each for
    a short leg that [w] had no cached distance for, none sent twice, and
    each pair cached in [w']. *)
Definition fresh_queries (w w' : world) (new : list (coords * coords)) : Prop :=
  requests w' = (requests w ++ new)%list
  /\ NoDup new
  /\ Forall (fun k => short_leg k
                      /\ distanceCache w !! k = None
                      /\ is_Some (distanceCache w' !! k)) new.

(** From [w] to [w'] the cache lost and changed nothing, and the queries in
    between were fresh. *)
Definition grown (w w' : world) : Prop :=
  distanceCache w ⊆ distanceCache w' /\ exists new, fresh_queries w w' new.

(** ** The shape of the output *)

(** Every entry that holds a ride is the first entry of its driver. *)
Definition busy_entries_first (l : list Assignment.t) : Prop :=
  forall i a, l !! i = Some a -> Assignment.rideIds a <> [] -> is_first l i a.

(** ** The daily ledger over a run *)



(** ** Rounding to binary64 *)

Lemma round_half_even_close (y : Q) :
  (y - (1 # 2) <= inject_Z (round_half_even y))%Q
  /\ (inject_Z (round_half_even y) <= y + (1 # 2))%Q.
Proof.
  unfold round_half_even.
  pose proof (Qfloor_le y) as Hl. pose proof (Qlt_floor y) as Hu.
  rewrite inject_Z_plus in Hu. change (inject_Z 1) with 1%Q in Hu.
  destruct (Qcompare_spec (y - inject_Z (Qfloor y)) (1 # 2)) as [E|E|E].
  - destruct (Z.even (Qfloor y)).
    + split; lra.
    + rewrite inject_Z_plus. change (inject_Z 1) with 1%Q. split; lra.
  - split; lra.
  - rewrite inject_Z_plus. change (inject_Z 1) with 1%Q. split; lra.
Qed.

Lemma round_half_even_nonneg (y : Q) : (0 <= y)%Q -> 0 <= round_half_even y.
Proof.
  intros Hy. unfold round_half_even.
  assert (0 <= Qfloor y) as Hf.
  { change 0 with (Qfloor 0). now apply Qfloor_resp_le. }
  destruct (y - inject_Z (Qfloor y) ?= 1 # 2)%Q; [destruct (Z.even _)| |]; lia.
Qed.

Lemma ilog2_spec (x : Q) :
  (0 < x)%Q -> (2 ^ ilog2 x <= x)%Q /\ (x < 2 ^ (ilog2 x + 1))%Q.
Proof.
  intros Hx. destruct x as [n d].
  assert (0 < n) as Hn by (unfold Qlt in Hx; simpl in Hx; lia).
  unfold ilog2. cbn [Qnum Qden].
  set (a := Z.log2 n). set (b := Z.log2 (Zpos d)).
  assert ((n # d) < 2 ^ (a - b + 1) /\ 2 ^ (a - b - 1) <= (n # d))%Q as [Hup Hlow].
  { assert (0 <= a) as Ha by apply Z.log2_nonneg.
    assert (0 <= b) as Hb by apply Z.log2_nonneg.
    destruct (Z.log2_spec n Hn) as [Ha1 Ha2]. fold a in Ha1, Ha2.
    destruct (Z.log2_spec (Zpos d) ltac:(lia)) as [Hb1 Hb2]. fold b in Hb1, Hb2.
    rewrite Zle_Qle, Zpower_Qpower in Ha1, Hb1 by lia.
    rewrite Zlt_Qlt in Ha2, Hb2.
    replace (Z.succ a) with (a + 1) in Ha2 by lia.
    replace (Z.succ b) with (b + 1) in Hb2 by lia.
    rewrite Zpower_Qpower in Ha2, Hb2 by lia.
    change (inject_Z 2) with 2%Q in *.
    assert (~ 2 == 0)%Q as H2 by discriminate.
    rewrite (Qpower_plus 2 a 1 H2) in Ha2. rewrite (Qpower_plus 2 b 1 H2) in Hb2.
    change (2 ^ 1)%Q with 2%Q in Ha2, Hb2.
    assert (0 < 2 ^ b)%Q as HB by (apply Qpower_0_lt; reflexivity).
    assert (2 ^ (a - b) * 2 ^ b == 2 ^ a)%Q as Hl.
    { rewrite <- Qpower_plus by exact H2. now replace (a - b + b) with a by lia. }
    assert (0 < 2 ^ (a - b))%Q as HL by (apply Qpower_0_lt; reflexivity).
    assert ((n # d) * inject_Z (Zpos d) == inject_Z n)%Q as Hxd.
    { rewrite (Qmake_Qdiv n d). field. discriminate. }
    assert (2 ^ (a - b - 1) * 2 == 2 ^ (a - b))%Q as Ehalf.
    { replace (a - b) with (a - b - 1 + 1) at 2 by lia.
      rewrite (Qpower_plus 2 (a - b - 1) 1 H2). reflexivity. }
    assert (2 ^ (a - b + 1) == 2 ^ (a - b) * 2)%Q as Etwice.
    { rewrite (Qpower_plus 2 (a - b) 1 H2). reflexivity. }
    set (R2 := (2 ^ (a - b + 1))%Q) in *. set (Rh := (2 ^ (a - b - 1))%Q) in *.
    set (A := (2 ^ a)%Q) in *. set (B := (2 ^ b)%Q) in *. set (R := (2 ^ (a - b))%Q) in *.
    set (N := inject_Z n) in *. set (D := inject_Z (Zpos d)) in *. set (x := n # d) in *.
    clearbody A B R N D x R2 Rh. clear H2.
    assert (x < R * 2)%Q.
    { apply Qnot_le_lt. intros Hge.
      assert (R * 2 * D <= x * D)%Q by (apply Qmult_le_compat_r; [exact Hge|lra]).
      assert (R * B <= R * D)%Q by (apply Qmult_le_l; [exact HL|exact Hb1]).
      lra. }
    assert (R <= x * 2)%Q.
    { apply Qnot_lt_le. intros Hlt.
      assert (x * 2 * B < R * B)%Q by (apply Qmult_lt_compat_r; [exact HB|exact Hlt]).
      assert (x * D <= x * (B * 2))%Q by (apply Qmult_le_l; [exact Hx|lra]).
      lra. }
    split; lra. }
  destruct (Qle_bool (2 ^ (a - b)) (n # d)) eqn:Hcmp.
  - apply Qle_bool_iff in Hcmp. split; [exact Hcmp|exact Hup].
  - replace (a - b - 1 + 1) with (a - b) by lia. split; [exact Hlow|].
    apply Qnot_le_lt. intros Hle. apply Qle_bool_iff in Hle. congruence.
Qed.

Lemma round_positive_close (x : Q) :
  (0 < x)%Q ->
  (0 <= round_positive x)%Q
  /\ (round_positive x - x <= (x + 1) * (1 # 9007199254740992))%Q
  /\ (x - round_positive x <= (x + 1) * (1 # 9007199254740992))%Q.
Proof.
  intros Hx. unfold round_positive.
  destruct (ilog2_spec x Hx) as [Hlow _].
  set (L := ilog2 x) in *. set (s := Z.max (L - 52) (-1074)).
  assert (~ 2 == 0)%Q as H2 by discriminate.
  assert (0 < 2 ^ s)%Q as HP by (apply Qpower_0_lt; reflexivity).
  assert (2 ^ (- s) * 2 ^ s == 1)%Q as Hinv.
  { rewrite <- Qpower_plus by exact H2. now replace (- s + s) with 0 by lia. }
  assert (0 < 2 ^ (- s))%Q as HP' by (apply Qpower_0_lt; reflexivity).
  assert (2 ^ s <= (x + 1) * (1 # 4503599627370496))%Q as Hs.
  { unfold s. destruct (Z.max_spec (L - 52) (-1074)) as [[_ ->]|[_ ->]].
    - apply Qle_trans with (1 # 4503599627370496)%Q; [vm_compute; discriminate|]. lra.
    - rewrite (Qpower_minus 2 L 52 H2).
      assert (2 ^ 52 == 4503599627370496)%Q as -> by reflexivity.
      unfold Qdiv. 
      assert (/ 4503599627370496 == 1 # 4503599627370496)%Q as -> by reflexivity.
      apply Qmult_le_compat_r; [lra|discriminate]. }
  set (P := (2 ^ s)%Q) in *. set (P' := (2 ^ (- s))%Q) in *.
  destruct (round_half_even_close (x * P')) as [Hm1 Hm2].
  assert (0 <= round_half_even (x * P')) as Hm0.
  { apply round_half_even_nonneg. apply Qmult_le_0_compat; lra. }
  rewrite Zle_Qle in Hm0. change (inject_Z 0) with 0%Q in Hm0.
  set (m := inject_Z (round_half_even (x * P'))) in *.
  assert ((x * P' - (1 # 2)) * P <= m * P)%Q as H1
    by (apply Qmult_le_compat_r; [exact Hm1|lra]).
  assert (m * P <= (x * P' + (1 # 2)) * P)%Q as H3
    by (apply Qmult_le_compat_r; [exact Hm2|lra]).
  assert (x * P' * P == x)%Q as Hxp by (rewrite <- Qmult_assoc, Hinv; ring).
  assert ((x * P' - (1 # 2)) * P == x - (1 # 2) * P)%Q as E1 by (rewrite <- Hxp at 2; ring).
  assert ((x * P' + (1 # 2)) * P == x + (1 # 2) * P)%Q as E3 by (rewrite <- Hxp at 2; ring).
  rewrite E1 in H1. rewrite E3 in H3.
  split; [apply Qmult_le_0_compat; lra|]. split; lra.
Qed.

Lemma binary64_close (x : Q) :
  (0 <= x)%Q ->
  (0 <= binary64 x)%Q
  /\ (binary64 x - x <= (x + 1) * (1 # 9007199254740992))%Q
  /\ (x - binary64 x <= (x + 1) * (1 # 9007199254740992))%Q.
Proof.
  intros Hx. unfold binary64. destruct x as [[|n|n] d]; cbn [Qnum].
  - assert (0 # d == 0)%Q as E by reflexivity. rewrite E. split; [lra|split; lra].
  - apply round_positive_close. reflexivity.
  - exfalso. unfold Qle in Hx. simpl in Hx. lia.
Qed.

Lemma binary64_0 (x : Q) : (x == 0)%Q -> binary64 x = 0%Q.
Proof.
  intros H. unfold Qeq in H. simpl in H. unfold binary64.
  replace (Qnum x) with 0 by lia. reflexivity.
Qed.


(** ** Facts about strings and clock times *)

Lemma string_compare_refl (s : string) : String.compare s s = Eq.
Proof.
  induction s as [|c s IH]; simpl; [reflexivity|].
  unfold Ascii.compare. rewrite N.compare_refl. exact IH.
Qed.

Lemma string_compare_lt_trans (a b c : string) :
  String.compare a b = Lt -> String.compare b c = Lt -> String.compare a c = Lt.
Proof.
  revert b c. induction a as [|x a IH]; intros [|y b] [|z c]; simpl; try congruence.
  unfold Ascii.compare.
  destruct (N.compare_spec (N_of_ascii x) (N_of_ascii y)) as [Hxy|Hxy|Hxy];
    destruct (N.compare_spec (N_of_ascii y) (N_of_ascii z)) as [Hyz|Hyz|Hyz];
    try congruence; intros H1 H2.
  - rewrite Hxy, Hyz, N.compare_refl. eauto.
  - rewrite Hxy. apply N.compare_lt_iff in Hyz. now rewrite Hyz.
  - rewrite <- Hyz. apply N.compare_lt_iff in Hxy. now rewrite Hxy.
  - assert (Hxz : (N_of_ascii x < N_of_ascii z)%N) by lia.
    apply N.compare_lt_iff in Hxz. now rewrite Hxz.
Qed.

Lemma str_le_refl (a : string) : str_le a a.
Proof. unfold str_le, localeCompare. now rewrite string_compare_refl. Qed.

Lemma str_le_trans (a b c : string) : str_le a b -> str_le b c -> str_le a c.
Proof.
  unfold str_le, localeCompare. intros Hab Hbc.
  destruct (String.compare a b) eqn:E1; [|clear Hab|congruence].
  - apply String.compare_eq_iff in E1. now subst.
  - destruct (String.compare b c) eqn:E2; [| |congruence].
    + apply String.compare_eq_iff in E2. subst. now rewrite E1.
    + now rewrite (string_compare_lt_trans _ _ _ E1 E2).
Qed.

Lemma str_le_antisym (a b : string) : str_le a b -> str_le b a -> a = b.
Proof.
  unfold str_le, localeCompare. rewrite (String.compare_antisym b a).
  destruct (String.compare a b) eqn:E; simpl; try congruence.
  intros _ _. now apply String.compare_eq_iff.
Qed.

Lemma str_le_total (a b : string) : str_le a b \/ str_le b a.
Proof.
  unfold str_le, localeCompare. rewrite (String.compare_antisym b a).
  destruct (String.compare a b); simpl; intuition congruence.
Qed.

Lemma digit_not_colon (c : ascii) : is_digit c = true -> Ascii.eqb c ":" = false.
Proof.
  intros H. destruct (Ascii.eqb_spec c ":") as [->|]; [discriminate H|reflexivity].
Qed.

Lemma digit_value_range (c : ascii) :
  is_digit c = true -> 0 <= digit_value c <= 9.
Proof.
  unfold is_digit, digit_value. intros H.
  apply andb_prop in H as [H1 H2].
  apply N.leb_le in H1, H2. lia.
Qed.

Lemma wf_clock_inv (s : string) :
  wf_clock s = true ->
  exists h1 h0 m1 m0,
    s = String h1 (String h0 (String ":" (String m1 (String m0 EmptyString))))
    /\ is_digit h1 = true /\ is_digit h0 = true
    /\ is_digit m1 = true /\ is_digit m0 = true
    /\ digit_value m1 <= 5.
Proof.
  destruct s as [|h1 [|h0 [|c [|m1 [|m0 [|? ?]]]]]]; cbn [wf_clock]; try discriminate.
  rewrite !andb_true_iff. intros (((((H1 & H0) & Hc) & M1) & M0) & Hm).
  apply Ascii.eqb_eq in Hc. subst c. apply N.leb_le in Hm.
  exists h1, h0, m1, m0. repeat split; try assumption.
  unfold digit_value. lia.
Qed.

Lemma parseTime_digits (h1 h0 m1 m0 : ascii) :
  is_digit h1 = true -> is_digit h0 = true ->
  is_digit m1 = true -> is_digit m0 = true ->
  parseTime (String h1 (String h0 (String ":" (String m1 (String m0 EmptyString)))))
  = (Some (digit_value h1 * 10 + digit_value h0),
     Some (digit_value m1 * 10 + digit_value m0)).
Proof.
  intros H1 H0 M1 M0. unfold parseTime. simpl split.
  rewrite (digit_not_colon _ H1), (digit_not_colon _ H0),
    (digit_not_colon _ M1), (digit_not_colon _ M0).
  simpl. unfold Number. simpl. rewrite H1, H0, M1, M0. reflexivity.
Qed.

Lemma wf_clock_parse (s : string) :
  wf_clock s = true ->
  exists h m, parseTime s = (Some h, Some m) /\ 0 <= h <= 99 /\ 0 <= m <= 59.
Proof.
  intros H. destruct (wf_clock_inv s H) as (h1 & h0 & m1 & m0 & -> & H1 & H0 & M1 & M0 & Hm).
  rewrite (parseTime_digits _ _ _ _ H1 H0 M1 M0).
  pose proof (digit_value_range _ H1). pose proof (digit_value_range _ H0).
  pose proof (digit_value_range _ M1). pose proof (digit_value_range _ M0).
  eexists _, _. split; [reflexivity|]. lia.
Qed.

Lemma timeToMinutes_wf (s : string) :
  wf_clock s = true -> timeToMinutes s = Some (minutesOf s).
Proof.
  intros H. destruct (wf_clock_parse s H) as (h & m & E & _).
  unfold minutesOf, timeToMinutes. rewrite E. reflexivity.
Qed.

Lemma minutesOf_parse (s : string) (h m : Z) :
  parseTime s = (Some h, Some m) -> minutesOf s = h * 60 + m.
Proof. intros E. unfold minutesOf, timeToMinutes. now rewrite E. Qed.


Lemma isTimeAfter_wf (a b : string) :
  wf_clock a = true -> wf_clock b = true ->
  isTimeAfter a b = (minutesOf a >? minutesOf b).
Proof.
  intros Ha Hb.
  destruct (wf_clock_parse a Ha) as (ha & ma & Ea & ? & ?).
  destruct (wf_clock_parse b Hb) as (hb & mb & Eb & ? & ?).
  rewrite (minutesOf_parse _ _ _ Ea), (minutesOf_parse _ _ _ Eb).
  unfold isTimeAfter. rewrite Ea, Eb. cbn. rewrite !Z.gtb_ltb.
  destruct (Z.ltb_spec hb ha), (Z.ltb_spec ha hb), (Z.ltb_spec mb ma),
    (Z.ltb_spec (hb * 60 + mb) (ha * 60 + ma)); try reflexivity; lia.
Qed.

Lemma isTimeInRange_wf (t a b : string) :
  wf_clock t = true -> wf_clock a = true -> wf_clock b = true ->
  isTimeInRange t a b = (minutesOf a <=? minutesOf t) && (minutesOf t <=? minutesOf b).
Proof.
  intros Ht Ha Hb. unfold isTimeInRange.
  rewrite !timeToMinutes_wf by assumption. simpl.
  now rewrite Z.geb_leb.
Qed.

Lemma getTimeDifferenceInMinutes_wf (a b : string) :
  wf_clock a = true -> wf_clock b = true ->
  getTimeDifferenceInMinutes a b = Some (minutesOf b - minutesOf a).
Proof.
  intros Ha Hb.
  destruct (wf_clock_parse a Ha) as (ha & ma & Ea & ? & ?).
  destruct (wf_clock_parse b Hb) as (hb & mb & Eb & ? & ?).
  rewrite (minutesOf_parse _ _ _ Ea), (minutesOf_parse _ _ _ Eb).
  unfold getTimeDifferenceInMinutes. now rewrite Ea, Eb.
Qed.

Lemma ascii_compare_digits (x y : ascii) :
  Ascii.compare x y = (digit_value x ?= digit_value y).
Proof.
  unfold Ascii.compare, digit_value.
  rewrite <- (N2Z.inj_compare (N_of_ascii x) (N_of_ascii y)).
  destruct (Z.compare_spec (Z.of_N (N_of_ascii x)) (Z.of_N (N_of_ascii y)));
    symmetry; [apply Z.compare_eq_iff|apply Z.compare_lt_iff|apply Z.compare_gt_iff]; lia.
Qed.

Lemma localeCompare_wf (a b : string) :
  wf_clock a = true -> wf_clock b = true ->
  localeCompare a b = (minutesOf a ?= minutesOf b).
Proof.
  intros Ha Hb.
  destruct (wf_clock_inv a Ha) as (a1 & a0 & a3 & a4 & -> & A1 & A0 & A3 & A4 & Am).
  destruct (wf_clock_inv b Hb) as (b1 & b0 & b3 & b4 & -> & B1 & B0 & B3 & B4 & Bm).
  rewrite (minutesOf_parse _ _ _ (parseTime_digits _ _ _ _ A1 A0 A3 A4)).
  rewrite (minutesOf_parse _ _ _ (parseTime_digits _ _ _ _ B1 B0 B3 B4)).
  pose proof (digit_value_range _ A1). pose proof (digit_value_range _ A0).
  pose proof (digit_value_range _ A3). pose proof (digit_value_range _ A4).
  pose proof (digit_value_range _ B1). pose proof (digit_value_range _ B0).
  pose proof (digit_value_range _ B3). pose proof (digit_value_range _ B4).
  unfold localeCompare. simpl. rewrite !ascii_compare_digits.
  change (digit_value ":" ?= digit_value ":") with Eq.
  destruct (Z.compare_spec (digit_value a1) (digit_value b1));
    [|symmetry; apply Z.compare_lt_iff; lia|symmetry; apply Z.compare_gt_iff; lia].
  destruct (Z.compare_spec (digit_value a0) (digit_value b0));
    [|symmetry; apply Z.compare_lt_iff; lia|symmetry; apply Z.compare_gt_iff; lia].
  destruct (Z.compare_spec (digit_value a3) (digit_value b3));
    [|symmetry; apply Z.compare_lt_iff; lia|symmetry; apply Z.compare_gt_iff; lia].
  destruct (Z.compare_spec (digit_value a4) (digit_value b4));
    [|symmetry; apply Z.compare_lt_iff; lia|symmetry; apply Z.compare_gt_iff; lia].
  symmetry. apply Z.compare_eq_iff. lia.
Qed.

Lemma wf_date_inv (s : string) :
  wf_date s = true ->
  exists y3 y2 y1 y0 m1 m0 d1 d0,
    s = String y3 (String y2 (String y1 (String y0 (String "-"
          (String m1 (String m0 (String "-" (String d1 (String d0 EmptyString)))))))))
    /\ is_digit y3 = true /\ is_digit y2 = true /\ is_digit y1 = true
    /\ is_digit y0 = true /\ is_digit m1 = true /\ is_digit m0 = true
    /\ is_digit d1 = true /\ is_digit d0 = true.
Proof.
  destruct s as [|y3 [|y2 [|y1 [|y0 [|h1 [|m1 [|m0 [|h0 [|d1 [|d0 [|? ?]]]]]]]]]]];
    try discriminate.
  unfold wf_date. rewrite !andb_true_iff.
  intros (((((((((Y3 & Y2) & Y1) & Y0) & H1) & M1) & M0) & H0) & D1) & D0).
  apply Ascii.eqb_eq in H1, H0. subst h1 h0.
  exists y3, y2, y1, y0, m1, m0, d1, d0. repeat split; assumption.
Qed.

(** On dates the order of [localeCompare] is the order of the numbers
    [YYYYMMDD]. *)
Lemma localeCompare_date (a b : string) :
  wf_date a = true -> wf_date b = true ->
  localeCompare a b = (dateNumber a ?= dateNumber b).
Proof.
  intros Ha Hb.
  destruct (wf_date_inv a Ha)
    as (a7 & a6 & a5 & a4 & a3 & a2 & a1 & a0 & -> & A7 & A6 & A5 & A4 & A3 & A2 & A1 & A0).
  destruct (wf_date_inv b Hb)
    as (b7 & b6 & b5 & b4 & b3 & b2 & b1 & b0 & -> & B7 & B6 & B5 & B4 & B3 & B2 & B1 & B0).
  pose proof (digit_value_range _ A7). pose proof (digit_value_range _ A6).
  pose proof (digit_value_range _ A5). pose proof (digit_value_range _ A4).
  pose proof (digit_value_range _ A3). pose proof (digit_value_range _ A2).
  pose proof (digit_value_range _ A1). pose proof (digit_value_range _ A0).
  pose proof (digit_value_range _ B7). pose proof (digit_value_range _ B6).
  pose proof (digit_value_range _ B5). pose proof (digit_value_range _ B4).
  pose proof (digit_value_range _ B3). pose proof (digit_value_range _ B2).
  pose proof (digit_value_range _ B1). pose proof (digit_value_range _ B0).
  unfold localeCompare, dateNumber. cbn [String.compare]. rewrite !ascii_compare_digits.
  change (digit_value "-" ?= digit_value "-") with Eq. cbv iota.
  destruct (Z.compare_spec (digit_value a7) (digit_value b7));
    [|symmetry; apply Z.compare_lt_iff; lia|symmetry; apply Z.compare_gt_iff; lia].
  destruct (Z.compare_spec (digit_value a6) (digit_value b6));
    [|symmetry; apply Z.compare_lt_iff; lia|symmetry; apply Z.compare_gt_iff; lia].
  destruct (Z.compare_spec (digit_value a5) (digit_value b5));
    [|symmetry; apply Z.compare_lt_iff; lia|symmetry; apply Z.compare_gt_iff; lia].
  destruct (Z.compare_spec (digit_value a4) (digit_value b4));
    [|symmetry; apply Z.compare_lt_iff; lia|symmetry; apply Z.compare_gt_iff; lia].
  destruct (Z.compare_spec (digit_value a3) (digit_value b3));
    [|symmetry; apply Z.compare_lt_iff; lia|symmetry; apply Z.compare_gt_iff; lia].
  destruct (Z.compare_spec (digit_value a2) (digit_value b2));
    [|symmetry; apply Z.compare_lt_iff; lia|symmetry; apply Z.compare_gt_iff; lia].
  destruct (Z.compare_spec (digit_value a1) (digit_value b1));
    [|symmetry; apply Z.compare_lt_iff; lia|symmetry; apply Z.compare_gt_iff; lia].
  destruct (Z.compare_spec (digit_value a0) (digit_value b0));
    [|symmetry; apply Z.compare_lt_iff; lia|symmetry; apply Z.compare_gt_iff; lia].
  symmetry. apply Z.compare_eq_iff. lia.
Qed.

Lemma str_le_dateNumber (a b : string) :
  wf_date a = true -> wf_date b = true -> str_le a b -> dateNumber a <= dateNumber b.
Proof.
  intros Ha Hb. unfold str_le. rewrite (localeCompare_date _ _ Ha Hb).
  intros H. now apply Z.compare_le_iff.
Qed.

Lemma dateNumber_inj (a b : string) :
  wf_date a = true -> wf_date b = true -> dateNumber a = dateNumber b -> a = b.
Proof.
  intros Ha Hb E. apply String.compare_eq_iff.
  change (localeCompare a b = Eq). rewrite (localeCompare_date _ _ Ha Hb).
  now apply Z.compare_eq_iff.
Qed.

(** ** The arrival time *)

Lemma digits_value_uint (d : Decimal.uint) (acc : Z) :
  digits_value acc (NilEmpty.string_of_uint d) = Some (uint_value acc d).
Proof. revert acc. induction d; intros acc; simpl; auto. Qed.

Lemma all_digits_uint (d : Decimal.uint) : all_digits (NilEmpty.string_of_uint d) = true.
Proof. induction d; simpl; auto. Qed.

Lemma uint_value_pos (d : Decimal.uint) (p : positive) :
  uint_value (Zpos p) d = Zpos (Pos.of_uint_acc d p).
Proof.
  revert p. induction d; intros p; simpl; [reflexivity|..];
    match goal with
    | |- uint_value ?a _ = Z.pos (Pos.of_uint_acc _ ?q) =>
        replace a with (Zpos q) by lia; apply IHd
    end.
Qed.

Lemma uint_value_0 (d : Decimal.uint) : uint_value 0 d = Z.of_N (Pos.of_uint d).
Proof.
  induction d; simpl; try exact IHd; try reflexivity;
    match goal with |- uint_value ?a _ = _ => change a with (Zpos (Pos.of_nat (Z.to_nat a))) end;
    simpl; apply uint_value_pos.
Qed.

Lemma String_of_nonneg (z : Z) :
  0 <= z ->
  Number (String_of (Some z)) = Some z
  /\ all_digits (String_of (Some z)) = true
  /\ String_of (Some z) <> EmptyString.
Proof.
  intros Hz. unfold Number, String_of. destruct z as [|p|p]; [repeat split; discriminate| |lia].
  pose proof (DecimalPos.Unsigned.of_to p) as Hp.
  assert (NilZero.string_of_int (Z.to_int (Z.pos p))
          = NilEmpty.string_of_uint (Pos.to_uint p)) as ->.
  { unfold Z.to_int, NilZero.string_of_int, NilZero.string_of_uint.
    destruct (Pos.to_uint p); [discriminate Hp|reflexivity..]. }
  split; [|split; [apply all_digits_uint|]].
  - now rewrite digits_value_uint, uint_value_0, Hp.
  - destruct (Pos.to_uint p); [discriminate Hp|discriminate..].
Qed.

Lemma padStart2_digits (s : string) :
  all_digits s = true -> s <> EmptyString ->
  Number (padStart2 s) = Number s /\ all_digits (padStart2 s) = true.
Proof.
  destruct s as [|c [|d s]]; [congruence| |auto].
  simpl. intros H _. apply andb_prop in H as [Hc _]. unfold Number. simpl.
  rewrite Hc. auto.
Qed.

Lemma split_digits (s : string) : all_digits s = true -> split ":" s = [s].
Proof.
  induction s as [|c s IH]; simpl; [reflexivity|].
  intros H. apply andb_prop in H as [Hc Hs].
  now rewrite (digit_not_colon _ Hc), (IH Hs).
Qed.

Lemma split_clock (a b : string) :
  all_digits a = true -> all_digits b = true ->
  split ":" (a +:+ ":" +:+ b) = [a; b].
Proof.
  intros Ha Hb. induction a as [|c a IH].
  - change (split ":" (String ":" b) = [EmptyString; b]). simpl. now rewrite split_digits.
  - simpl in Ha. apply andb_prop in Ha as [Hc Ha].
    change (split ":" (String c (a +:+ ":" +:+ b)) = [String c a; b]). simpl.
    now rewrite (digit_not_colon _ Hc), (IH Ha).
Qed.





(** ** The sort *)

Lemma compareRides_le (a b : Ride.t) :
  ride_le a b <->
  (Ride.date a <> Ride.date b /\ str_le (Ride.date a) (Ride.date b))
  \/ (Ride.date a = Ride.date b /\ str_le (Ride.startTime a) (Ride.startTime b)).
Proof.
  unfold ride_le, compareRides, str_le.
  destruct (String.eqb_spec (Ride.date a) (Ride.date b)); simpl; intuition.
Qed.

Lemma ride_le_date (a b : Ride.t) : ride_le a b -> str_le (Ride.date a) (Ride.date b).
Proof.
  rewrite compareRides_le. intros [[_ H]|[E _]]; [exact H|].
  rewrite E. apply str_le_refl.
Qed.

Lemma ride_le_refl (a : Ride.t) : ride_le a a.
Proof. apply compareRides_le. right. split; [reflexivity|apply str_le_refl]. Qed.

Lemma ride_le_trans (a b c : Ride.t) : ride_le a b -> ride_le b c -> ride_le a c.
Proof.
  intros Hab Hbc.
  pose proof (ride_le_date _ _ Hab) as Dab. pose proof (ride_le_date _ _ Hbc) as Dbc.
  apply compareRides_le in Hab, Hbc. apply compareRides_le.
  destruct (string_dec (Ride.date a) (Ride.date c)) as [E|NE].
  - right. split; [exact E|].
    assert (Ride.date a = Ride.date b) as Eab.
    { apply str_le_antisym; [exact Dab|]. now rewrite E. }
    assert (Ride.date b = Ride.date c) as Ebc by congruence.
    destruct Hab as [[? _]|[_ Hab]]; [contradiction|].
    destruct Hbc as [[? _]|[_ Hbc]]; [contradiction|].
    eapply str_le_trans; eassumption.
  - left. split; [exact NE|]. eapply str_le_trans; eassumption.
Qed.

Lemma ride_le_total (a b : Ride.t) : ride_le a b \/ ride_le b a.
Proof.
  rewrite !compareRides_le.
  destruct (string_dec (Ride.date a) (Ride.date b)) as [E|NE].
  - destruct (str_le_total (Ride.startTime a) (Ride.startTime b)); [left|right]; right; auto.
  - destruct (str_le_total (Ride.date a) (Ride.date b)); [left|right]; left; auto.
Qed.

Lemma compareRides_Gt (a b : Ride.t) : compareRides a b = Gt -> ride_le b a.
Proof.
  intros H. destruct (ride_le_total a b) as [Hle|Hle]; [|exact Hle].
  now elim Hle.
Qed.

Lemma insertRide_perm (x : Ride.t) (l : list Ride.t) : Permutation (x :: l) (insertRide x l).
Proof.
  induction l as [|y l IH]; simpl; [reflexivity|].
  destruct (compareRides x y); try reflexivity.
  rewrite perm_swap. now apply perm_skip.
Qed.

Lemma sortRides_perm (l : list Ride.t) : Permutation l (sortRides l).
Proof.
  induction l as [|x l IH]; simpl; [reflexivity|].
  rewrite <- insertRide_perm. now apply perm_skip.
Qed.

Lemma insertRide_sorted (x : Ride.t) (l : list Ride.t) :
  StronglySorted ride_le l -> StronglySorted ride_le (insertRide x l).
Proof.
  induction 1 as [|y l Hl IH Hy]; simpl.
  - repeat constructor.
  - destruct (compareRides x y) eqn:E.
    + constructor; [now constructor|].
      assert (ride_le x y) as Hxy by (unfold ride_le; congruence).
      constructor; [exact Hxy|].
      eapply Forall_impl; [exact Hy|]. intros z Hz. eapply ride_le_trans; eassumption.
    + constructor; [now constructor|].
      assert (ride_le x y) as Hxy by (unfold ride_le; congruence).
      constructor; [exact Hxy|].
      eapply Forall_impl; [exact Hy|]. intros z Hz. eapply ride_le_trans; eassumption.
    + constructor; [exact IH|].
      apply compareRides_Gt in E.
      rewrite <- insertRide_perm. constructor; assumption.
Qed.

Lemma sortRides_sorted (l : list Ride.t) : StronglySorted ride_le (sortRides l).
Proof.
  induction l as [|x l IH]; simpl; [constructor|now apply insertRide_sorted].
Qed.

(** ** The distance resolver *)

Lemma getDistanceFromOSRM_hit (s e : coords) (thr : option Q) (w : world) (v : jsnum) :
  distanceCache w !! getDistanceCacheKey s e = Some v ->
  getDistanceFromOSRM s e thr w = (v, w).
Proof. intros H. unfold getDistanceFromOSRM. now rewrite H. Qed.

Lemma Qgtb_lt (x y : Q) : Qgtb x y = true <-> (y < x)%Q.
Proof.
  unfold Qgtb, Qltb. rewrite negb_true_iff. split.
  - intros H. apply Qnot_le_lt. intros Hle. apply Qle_bool_iff in Hle. congruence.
  - intros H. destruct (Qle_bool x y) eqn:E; [|reflexivity].
    apply Qle_bool_iff in E. exfalso. eapply Qlt_not_le; eassumption.
Qed.

Lemma Qltb_lt (x y : Q) : Qltb x y = true <-> (x < y)%Q.
Proof. apply (Qgtb_lt y x). Qed.

Lemma Qltb_ge (x y : Q) : Qltb x y = false <-> (y <= x)%Q.
Proof.
  unfold Qltb. rewrite negb_false_iff. apply Qle_bool_iff.
Qed.

(** Every path of the resolver leaves the pair in the cache, bound to the
    value it returned, and sends at most one query. *)
Lemma getDistanceFromOSRM_caches (s e : coords) (thr : option Q) (w : world) :
  let r := getDistanceFromOSRM s e thr w in
  distanceCache (snd r) !! getDistanceCacheKey s e = Some (fst r)
  /\ (requests (snd r) = requests w
      \/ requests (snd r) = (requests w ++ [getDistanceCacheKey s e])%list).
Proof.
  unfold getDistanceFromOSRM, fallback.
  destruct (distanceCache w !! getDistanceCacheKey s e) eqn:Hc; simpl.
  { auto. }
  destruct (Qgtb _ _); simpl.
  { rewrite lookup_insert_eq. auto. }
  destruct (axios_get _ s e) as [|[[[[[|[r0|] rs]|]]|]]]; simpl;
    rewrite lookup_insert_eq; auto.
Qed.

Lemma queriesFor_send (k k' : coords * coords) (w : world) :
  queriesFor k (send k' w) = (queriesFor k w + (if bool_decide (k' = k) then 1 else 0))%nat.
Proof.
  unfold queriesFor, send. simpl. rewrite List.filter_app, length_app. simpl.
  destruct (bool_decide (k' = k)); reflexivity.
Qed.

(** One resolution: a pair that is cached stays cached with its value and
    gets no query; a pair that is not gets at most one. *)
Lemma getDistanceFromOSRM_step (k : coords * coords) (s e : coords) (thr : option Q)
    (w : world) :
  let w' := snd (getDistanceFromOSRM s e thr w) in
  (forall v, distanceCache w !! k = Some v ->
             distanceCache w' !! k = Some v /\ queriesFor k w' = queriesFor k w)
  /\ (queriesFor k w' <= queriesFor k w + 1)%nat
  /\ (queriesFor k w' = queriesFor k w \/ is_Some (distanceCache w' !! k)).
Proof.
  simpl. unfold getDistanceFromOSRM, fallback.
  destruct (distanceCache w !! getDistanceCacheKey s e) as [c|] eqn:Hc; simpl.
  { split; [auto|]. split; [lia|now left]. }
  assert (forall v, distanceCache w !! k = Some v -> getDistanceCacheKey s e <> k) as Hne
    by (intros v Hv E; subst k; unfold getDistanceCacheKey in *; congruence).
  destruct (Qgtb _ _); simpl.
  { unfold queriesFor. simpl. split; [|split; [lia|now left]].
    intros v Hv. split; [|reflexivity]. rewrite lookup_insert_ne by eauto. exact Hv. }
  assert (forall x : jsnum,
            let w' := cache_set (getDistanceCacheKey s e) x (send (getDistanceCacheKey s e) w) in
            (forall v, distanceCache w !! k = Some v ->
                       distanceCache w' !! k = Some v /\ queriesFor k w' = queriesFor k w)
            /\ (queriesFor k w' <= queriesFor k w + 1)%nat
            /\ (queriesFor k w' = queriesFor k w \/ is_Some (distanceCache w' !! k))) as H.
  { intros x. cbv zeta.
    assert (queriesFor k (cache_set (getDistanceCacheKey s e) x
                            (send (getDistanceCacheKey s e) w))
            = (queriesFor k w + (if bool_decide (getDistanceCacheKey s e = k) then 1 else 0))%nat)
      as Hq by apply (queriesFor_send k (getDistanceCacheKey s e) w).
    split; [|split].
    - intros v Hv. rewrite Hq. unfold cache_set. simpl.
      rewrite lookup_insert_ne by eauto.
      rewrite bool_decide_eq_false_2 by eauto. split; [exact Hv|lia].
    - rewrite Hq. destruct (bool_decide _); lia.
    - rewrite Hq. destruct (decide (getDistanceCacheKey s e = k)) as [E|E].
      + right. rewrite <- E. unfold cache_set. simpl. rewrite lookup_insert_eq. eauto.
      + left. rewrite bool_decide_eq_false_2 by exact E. lia. }
  destruct (axios_get _ s e) as [|[[[[[|[r0|] rs]|]]|]]]; apply H.
Qed.

(** Over any sequence of resolutions, from any cache and whatever the
    service answers, at most one query is sent for a pair of points. *)
Lemma resolveAll_one_query (k : coords * coords)
    (queries : list (coords * coords * option Q)) (w : world) :
  (is_Some (distanceCache w !! k) -> queriesFor k (resolveAll queries w) = queriesFor k w)
  /\ (queriesFor k (resolveAll queries w) <= queriesFor k w + 1)%nat.
Proof.
  revert w. induction queries as [|[[s e] thr] qs IH]; intros w; simpl; [split; [auto|lia]|].
  destruct (getDistanceFromOSRM_step k s e thr w) as (Hkeep & Hone & Hor). simpl in *.
  destruct (IH (snd (getDistanceFromOSRM s e thr w))) as [IH1 IH2].
  split.
  - intros [v Hv]. destruct (Hkeep v Hv) as [Hv' Hq]. rewrite <- Hq. apply IH1. eauto.
  - destruct Hor as [Heq|Hc]; [rewrite <- Heq; exact IH2|].
    rewrite (IH1 Hc). exact Hone.
Qed.

(** C6. For a pair of points that is not in the cache and whose geometric
    distance exceeds the threshold (30 when none is given), the resolver
    returns exactly the geometric distance, sends no query and stores the
    geometric distance in the cache under the pair.  Resolving one pair
    twice, from any cache and whatever the service answers, sends at most one
    query, the second call returning the value of the first; and over any
    sequence of resolutions at most one query is sent for a pair. *)
Theorem threshold_skips_query_and_cache_saves_it
    (startCoords endCoords : coords) (threshold : option Q) (w : world) :
  (distanceCache w !! getDistanceCacheKey startCoords endCoords = None ->
   (default (30 : Q) threshold < haversineDistance startCoords endCoords)%Q ->
   let r := getDistanceFromOSRM startCoords endCoords threshold w in
   fst r = Some (haversineDistance startCoords endCoords)
   /\ requests (snd r) = requests w
   /\ distanceCache (snd r)
      = <[getDistanceCacheKey startCoords endCoords :=
            Some (haversineDistance startCoords endCoords)]> (distanceCache w))
  /\ (forall threshold' : option Q,
        let r1 := getDistanceFromOSRM startCoords endCoords threshold w in
        let r2 := getDistanceFromOSRM startCoords endCoords threshold' (snd r1) in
        fst r2 = fst r1
        /\ (length (requests (snd r2)) <= S (length (requests w)))%nat)
  /\ (forall queries : list (coords * coords * option Q),
        (queriesFor (getDistanceCacheKey startCoords endCoords) (resolveAll queries w)
         <= queriesFor (getDistanceCacheKey startCoords endCoords) w + 1)%nat).
Proof.
  split; [|split].
  - intros Hmiss Hfar. unfold getDistanceFromOSRM. rewrite Hmiss.
    apply Qgtb_lt in Hfar. rewrite Hfar. simpl. auto.
  - intros threshold'.
    destruct (getDistanceFromOSRM_caches startCoords endCoords threshold w) as [Hc Hr].
    simpl. rewrite (getDistanceFromOSRM_hit _ _ _ _ _ Hc). simpl.
    split; [reflexivity|].
    destruct Hr as [-> | ->]; [lia|]. rewrite length_app. simpl. lia.
  - intros queries. apply resolveAll_one_query.
Qed.

Lemma resolver_falls_back (s e : coords) (thr : option Q) (w : world) :
  distanceCache w !! getDistanceCacheKey s e = None ->
  (haversineDistance s e <= default (30 : Q) thr)%Q ->
  unusable (axios_get (length (requests w)) s e) = true ->
  getDistanceFromOSRM s e thr w
  = (Some (haversineDistance s e),
     cache_set (getDistanceCacheKey s e) (Some (haversineDistance s e))
               (send (getDistanceCacheKey s e) w)).
Proof.
  intros Hmiss Hnear Hbad. unfold getDistanceFromOSRM. rewrite Hmiss.
  assert (Qgtb (haversineDistance s e) (default (30 : Q) thr) = false) as ->.
  { apply Qltb_ge. exact Hnear. }
  destruct (axios_get _ s e) as [|[[[[[|[r0|] rs]|]]|]]]; simpl in *;
    try reflexivity; discriminate.
Qed.

(** ** The constraint filter *)

Lemma wf_clock_nonempty (s : string) : wf_clock s = true -> String.eqb s "" = false.
Proof. destruct s; [discriminate|reflexivity]. Qed.

Lemma isDriverOnShift_spec (driver : Driver.t) (ride : Ride.t) :
  wf_driver driver = true -> wf_ride ride = true ->
  isDriverOnShift driver (Ride.startTime ride) (Ride.endTime ride) = true
  <-> within_shift driver ride.
Proof.
  unfold wf_driver, wf_ride, isDriverOnShift, within_shift.
  rewrite !andb_true_iff. intros [Hs He] [Hrs Hre].
  destruct (Driver.shiftStart driver) as [s|]; [|split; [intros _ ? ?; discriminate|reflexivity]].
  destruct (Driver.shiftEnd driver) as [e|]; [|split; [intros _ ? ?; discriminate|reflexivity]].
  simpl in Hs, He.
  rewrite (wf_clock_nonempty _ Hs), (wf_clock_nonempty _ He). simpl.
  rewrite !isTimeInRange_wf by assumption.
  rewrite !andb_true_iff, !Z.leb_le. split.
  - intros H s' e' [= <-] [= <-]. lia.
  - intros H. specialize (H s e eq_refl eq_refl). lia.
Qed.






Lemma evaluate_cost (st : state) (ride : Ride.t) (driver : Driver.t)
    (cost : jsnum) (st' : state) :
  wf_ride ride = true ->
  evaluate st ride driver = (Some cost, st') ->
  exists availability,
    driverAvailability st !! Driver.driverId driver = Some availability
    /\ isTimeAfter (Availability.busyUntil availability) (Ride.startTime ride) = false
    /\ cost = costFormula driver ride (emptyLeg st availability ride)
                          (rideLeg st availability ride)
    /\ st' = snd (resolveLeg (Ride.startPoint_coords ride) (Ride.endPoint_coords ride)
                   (snd (resolveLeg (Availability.lastRideEndPoint_coords availability)
                                    (Ride.startPoint_coords ride) st))).
Proof.
  intros Hr. unfold wf_ride in Hr. apply andb_prop in Hr as [Hs He].
  unfold evaluate.
  destruct (Driver.numberOfSeats driver <? Ride.numberOfSeats ride); [discriminate|].
  destruct (driverAvailability st !! Driver.driverId driver) as [av|]; [|discriminate].
  destruct (isTimeAfter (Availability.busyUntil av) (Ride.startTime ride)) eqn:Hbusy;
    [discriminate|].
  destruct (negb _); [discriminate|].
  destruct (_ || _); [discriminate|].
  destruct (findAssignment _ _) as [a|]; [|discriminate].
  destruct (wouldExceedDailyHours a driver ride); [discriminate|].
  destruct (resolveLeg _ _ st) as [e st1] eqn:E1. simpl.
  match goal with |- context [if ?b then _ else _] => destruct b end; [discriminate|].
  destruct (resolveLeg _ _ st1) as [r st2] eqn:E2. simpl.
  rewrite (getTimeDifferenceInMinutes_wf _ _ Hs He).
  intros [= <- <-]. exists av.
  unfold costFormula, emptyLeg, rideLeg, rideDuration. rewrite E1. simpl. rewrite E2.
  split; [reflexivity|]. split; [exact Hbusy|]. split; reflexivity.
Qed.

Lemma resolveLeg_degenerate (p : coords) (st : state) :
  (haversineDistance p p == 0)%Q ->
  degenerate_ok (axios_get (length (requests (net st))) p p) = true ->
  cached_zero (net st) p = true ->
  exists q, fst (resolveLeg p p st) = Some q /\ (q == 0)%Q.
Proof.
  intros Hh Hs Hc. unfold resolveLeg.
  assert (Qle_bool (haversineDistance p p) 50 = true) as ->.
  { apply Qle_bool_iff. rewrite Hh. discriminate. }
  unfold getDistanceFromOSRM, fallback. unfold cached_zero in Hc.
  destruct (distanceCache (net st) !! getDistanceCacheKey p p) as [[q|]|]; simpl.
  - exists q. split; [reflexivity|now apply Qeq_bool_iff].
  - discriminate.
  - assert (Qgtb (haversineDistance p p) 30 = false) as ->.
    { apply Qltb_ge. rewrite Hh. discriminate. }
    destruct (axios_get _ p p) as [|[[[[[|[[[d|]]|] rs]|]]|]]]; simpl in *;
      try discriminate; try (eexists; split; [reflexivity|exact Hh]).
    eexists. split; [reflexivity|]. apply Qeq_bool_iff in Hs.
    rewrite (binary64_0 (d / 1000)); [reflexivity|]. rewrite Hs. reflexivity.
Qed.

(** C3, amended. The cost evaluated for a driver and a ride, with resolved empty-leg
    distance [e] and ride distance [r], is
    [(rideDurationMinutes / 60) * 30 + r * fuelCost + e * fuelCost], the
    duration being the end time minus the start time in minutes.  When the
    driver's last position is the ride's start point, and the resolver has
    nothing to report for a leg from a point to itself but a distance of
    zero, the empty-leg fuel term is zero. *)
Theorem assignment_cost_formula
    (st : state) (ride : Ride.t) (driver : Driver.t) (cost : jsnum) (st' : state) :
  wf_ride ride = true ->
  evaluate st ride driver = (Some cost, st') ->
  exists availability,
    driverAvailability st !! Driver.driverId driver = Some availability
    /\ cost = costFormula driver ride (emptyLeg st availability ride)
                          (rideLeg st availability ride)
    /\ (forall e r, emptyLeg st availability ride = Some e ->
                    rideLeg st availability ride = Some r ->
                    exists c, cost = Some c
                      /\ (c == inject_Z (minutesOf (Ride.endTime ride)
                                         - minutesOf (Ride.startTime ride)) / 60 * 30
                               + r * Driver.fuelCost driver
                               + e * Driver.fuelCost driver)%Q)
    /\ (Availability.lastRideEndPoint_coords availability = Ride.startPoint_coords ride ->
        (haversineDistance (Ride.startPoint_coords ride) (Ride.startPoint_coords ride) == 0)%Q ->
        degenerate_ok (axios_get (length (requests (net st)))
                         (Ride.startPoint_coords ride) (Ride.startPoint_coords ride)) = true ->
        cached_zero (net st) (Ride.startPoint_coords ride) = true ->
        exists z, num_mul (emptyLeg st availability ride) (Some (Driver.fuelCost driver))
                  = Some z /\ (z == 0)%Q).
Proof.
  intros Hr Hev.
  destruct (evaluate_cost _ _ _ _ _ Hr Hev) as (av & Hav & _ & Hcost & _).
  exists av. split; [exact Hav|]. split; [exact Hcost|]. split.
  - intros e r He Hrd. rewrite Hcost. unfold costFormula. rewrite He, Hrd. simpl.
    eexists. split; [reflexivity|]. unfold rideDuration. reflexivity.
  - intros Hpos Hh Hs Hc. unfold emptyLeg. rewrite Hpos.
    destruct (resolveLeg_degenerate _ st Hh Hs Hc) as (q & -> & Hq).
    simpl. eexists. split; [reflexivity|]. rewrite Hq. ring.
Qed.

(** ** The inner loop *)

Lemma same_books_refl (st : state) : same_books st st.
Proof. repeat split. Qed.

Lemma same_books_trans (a b c : state) : same_books a b -> same_books b c -> same_books a c.
Proof. unfold same_books. intros (-> & -> & ->) (-> & -> & ->). repeat split. Qed.

Lemma resolveLeg_books (p q : coords) (st : state) : same_books st (snd (resolveLeg p q st)).
Proof.
  unfold resolveLeg. destruct (Qle_bool _ _); [|repeat split].
  destruct (getDistanceFromOSRM _ _ _ _). repeat split.
Qed.

Lemma evaluate_books (st : state) (ride : Ride.t) (driver : Driver.t) :
  same_books st (snd (evaluate st ride driver)).
Proof.
  unfold evaluate.
  repeat match goal with
         | |- same_books _ (snd (if ?b then _ else _)) => destruct b
         | |- same_books _ (snd (match ?o with Some _ => _ | None => _ end)) => destruct o
         | |- same_books _ (snd (_, st)) => apply same_books_refl
         end.
  pose proof (resolveLeg_books (Availability.lastRideEndPoint_coords t)
                (Ride.startPoint_coords ride) st) as H1.
  destruct (resolveLeg _ _ st) as [e st1]. simpl in H1.
  match goal with |- context [if ?b then _ else _] => destruct b end; [exact H1|].
  pose proof (resolveLeg_books (Ride.startPoint_coords ride) (Ride.endPoint_coords ride) st1) as H2.
  destruct (resolveLeg _ _ st1) as [r st2]. simpl in *.
  eapply same_books_trans; eassumption.
Qed.

Lemma considerDriver_books (ride : Ride.t) (s : search) (st : state) (driver : Driver.t) :
  same_books st (snd (considerDriver ride (s, st) driver)).
Proof.
  unfold considerDriver. pose proof (evaluate_books st ride driver) as H.
  destruct (evaluate st ride driver) as [[[c|]|] st']; simpl in *; try exact H.
  destruct (improves c s); exact H.
Qed.

Lemma fold_considerDriver_books (ride : Ride.t) (drivers : list Driver.t)
    (s : search) (st : state) :
  same_books st (snd (fold_left (considerDriver ride) drivers (s, st))).
Proof.
  revert s st. induction drivers as [|d ds IH]; intros s st; cbn [fold_left].
  - apply same_books_refl.
  - pose proof (considerDriver_books ride s st d) as H.
    destruct (considerDriver ride (s, st) d) as [s' st']. simpl in H.
    eapply same_books_trans; [exact H|apply IH].
Qed.

Lemma chooseDriver_books (drivers : list Driver.t) (st : state) (ride : Ride.t) :
  same_books st (snd (chooseDriver drivers st ride)).
Proof. apply fold_considerDriver_books. Qed.

Lemma fold_considerDriver_pick (ride : Ride.t) (drivers : list Driver.t)
    (s : search) (st : state) :
  fst (fold_left (considerDriver ride) drivers (s, st))
  = fold_left pick (evaluations drivers st ride) s.
Proof.
  revert s st. induction drivers as [|d ds IH]; intros s st;
    cbn [fold_left evaluations]; [reflexivity|].
  unfold considerDriver at 2.
  destruct (evaluate st ride d) as [[[c|]|] st']; cbn [fold_left pick]; try apply IH.
  destruct (improves c s); apply IH.
Qed.

Lemma fold_pick_first_minimum (l : list (Driver.t * option jsnum)) (s0 : search) :
  first_minimum l s0 (fold_left pick l s0).
Proof.
  revert s0. induction l as [|x l IH]; intros s0; simpl.
  - destruct s0 as [[id c]|]; simpl.
    + split; [intros j d c' H; discriminate H|].
      split; [intros ? ? [= <- <-]; apply Qle_refl|now left].
    + split; [reflexivity|intros j d c' H; discriminate H].
  - specialize (IH (pick s0 x)).
    destruct (fold_left pick l (pick s0 x)) as [[id m]|]; simpl in *.
    + destruct IH as (Hall & Hprev & Hwho).
      assert (forall id0 c0, s0 = Some (id0, c0) -> (m <= c0)%Q) as Hs0.
      { intros id0 c0 ->. destruct x as [d [[c|]|]]; simpl in *; eauto.
        destruct (Qltb c c0) eqn:E; eauto.
        apply Qltb_lt in E. specialize (Hprev _ _ eq_refl). lra. }
      assert (forall d c, x = (d, Some (Some c)) -> (m <= c)%Q) as Hx.
      { intros d c ->. simpl in *. destruct (improves c s0) eqn:E; [eauto|].
        destruct s0 as [[id0 c0]|]; [|discriminate E]. simpl in E.
        apply Qltb_ge in E. specialize (Hprev _ _ eq_refl). lra. }
      split; [|split; [exact Hs0|]].
      { intros [|j] d c Hj; simpl in Hj; [injection Hj as ->; eauto|eauto]. }
      destruct Hwho as [Hwho|(k & d & Hk & Hid & Hbefore & Hprev')].
      * destruct x as [d [[c|]|]]; simpl in Hwho; auto.
        destruct (improves c s0) eqn:E; [|auto].
        injection Hwho as <- <-. right. exists 0%nat, d. simpl.
        split; [reflexivity|]. split; [reflexivity|].
        split; [intros; lia|].
        intros id0 c0 ->. simpl in E. now apply Qltb_lt.
      * right. exists (S k), d. simpl. split; [exact Hk|]. split; [exact Hid|]. split.
        -- intros [|j] d' c Hlt Hj; simpl in Hj; [|apply (Hbefore j d' c); [lia|exact Hj]].
           injection Hj as ->. simpl in Hprev'.
           destruct (improves c s0) eqn:E; [eauto|].
           destruct s0 as [[id0 c0]|]; [|discriminate E]. simpl in E.
           apply Qltb_ge in E. specialize (Hprev' _ _ eq_refl). lra.
        -- intros id0 c0 ->. destruct x as [d' [[c|]|]]; simpl in *; eauto.
           destruct (Qltb c c0) eqn:E; eauto.
           apply Qltb_lt in E. specialize (Hprev' _ _ eq_refl). lra.
    + destruct IH as [Hpick Hnone].
      assert (s0 = None) as ->.
      { destruct x as [d [[c|]|]]; simpl in Hpick; auto. destruct (improves c s0); [discriminate|auto]. }
      split; [reflexivity|].
      intros [|j] d c Hj; simpl in Hj; [|eauto].
      injection Hj as ->. simpl in Hpick. discriminate.
Qed.

Lemma chooseDriver_first_minimum (drivers : list Driver.t) (st : state) (ride : Ride.t) :
  first_minimum (evaluations drivers st ride) None (fst (chooseDriver drivers st ride)).
Proof.
  unfold chooseDriver. rewrite fold_considerDriver_pick. apply fold_pick_first_minimum.
Qed.

(** ** One ride *)

Lemma evaluations_lookup (drivers : list Driver.t) (st : state) (ride : Ride.t)
    (k : nat) (driver : Driver.t) (o : option jsnum) :
  evaluations drivers st ride !! k = Some (driver, o) ->
  In driver drivers
  /\ exists st_k, same_books st st_k /\ fst (evaluate st_k ride driver) = o.
Proof.
  revert st k. induction drivers as [|d ds IH]; intros st k; cbn [evaluations].
  - intros H. discriminate H.
  - pose proof (evaluate_books st ride d) as Hb.
    destruct (evaluate st ride d) as [c st'] eqn:E. simpl in Hb.
    destruct k as [|k]; simpl.
    + intros [= <- <-]. split; [now left|].
      exists st. split; [apply same_books_refl|now rewrite E].
    + intros H. destruct (IH _ _ H) as (Hin & st_k & Hbk & Hev).
      split; [now right|]. exists st_k. split; [|exact Hev].
      eapply same_books_trans; eassumption.
Qed.

(** The driver that the inner loop selects was evaluated, in a state with
    the same books. *)
Lemma chooseDriver_selected (drivers : list Driver.t) (st : state) (ride : Ride.t)
    (bestDriverId : string) (minCost : Q) :
  fst (chooseDriver drivers st ride) = Some (bestDriverId, minCost) ->
  exists driver st_k,
    In driver drivers /\ Driver.driverId driver = bestDriverId
    /\ same_books st st_k
    /\ fst (evaluate st_k ride driver) = Some (Some minCost).
Proof.
  intros H. pose proof (chooseDriver_first_minimum drivers st ride) as Hmin.
  rewrite H in Hmin. destruct Hmin as (_ & _ & [Habs|(k & d & Hk & Hid & _)]);
    [discriminate|].
  destruct (evaluations_lookup _ _ _ _ _ _ Hk) as (Hin & st_k & Hb & Hev).
  exists d, st_k. auto.
Qed.

Lemma evaluate_passes (st : state) (ride : Ride.t) (driver : Driver.t) (cost : jsnum) :
  fst (evaluate st ride driver) = Some cost ->
  exists availability driverAssignment,
    driverAvailability st !! Driver.driverId driver = Some availability
    /\ findAssignment (Driver.driverId driver) (assignments st) = Some driverAssignment
    /\ isTimeAfter (Availability.busyUntil availability) (Ride.startTime ride) = false
    /\ isDriverOnShift driver (Ride.startTime ride) (Ride.endTime ride) = true.
Proof.
  unfold evaluate.
  destruct (Driver.numberOfSeats driver <? Ride.numberOfSeats ride); [discriminate|].
  destruct (driverAvailability st !! Driver.driverId driver) as [av|]; [|discriminate].
  destruct (isTimeAfter (Availability.busyUntil av) (Ride.startTime ride)) eqn:Hbusy;
    [discriminate|].
  destruct (isDriverOnShift driver _ _) eqn:Hshift; [|discriminate]. simpl.
  destruct (_ || _); [discriminate|].
  destruct (findAssignment _ _) as [a|]; [|discriminate].
  intros _. exists av, a. auto.
Qed.

Lemma committed_selected (s : search) (bestDriverId : string) (minCost : Q) :
  committed s = Some (bestDriverId, minCost) ->
  s = Some (bestDriverId, minCost) /\ bestDriverId <> "".
Proof.
  destruct s as [[id c]|]; simpl; [|discriminate].
  destruct (String.eqb_spec id ""); [discriminate|]. intros [= <- <-]. auto.
Qed.

(** The two outcomes of an iteration of the outer loop. *)
Lemma processRide_cases (drivers : list Driver.t) (st : state) (ride : Ride.t) :
  let st1 := snd (chooseDriver drivers st ride) in
  match committed (fst (chooseDriver drivers st ride)) with
  | Some (bestDriverId, minCost) =>
      processRide drivers st ride = commit bestDriverId minCost ride st1
  | None => processRide drivers st ride = st1
  end.
Proof.
  unfold processRide. destruct (chooseDriver drivers st ride) as [s st1]. simpl.
  destruct (committed s) as [[id c]|]; reflexivity.
Qed.

Lemma processRide_dropped (drivers : list Driver.t) (st : state) (ride : Ride.t) :
  committed (fst (chooseDriver drivers st ride)) = None ->
  same_books st (processRide drivers st ride).
Proof.
  intros H. pose proof (processRide_cases drivers st ride) as Hc. rewrite H in Hc.
  simpl in Hc. rewrite Hc. apply chooseDriver_books.
Qed.

Lemma processRide_committed (drivers : list Driver.t) (st : state) (ride : Ride.t)
    (bestDriverId : string) (minCost : Q) :
  committed (fst (chooseDriver drivers st ride)) = Some (bestDriverId, minCost) ->
  assignments (processRide drivers st ride)
  = updateAssignment bestDriverId (recordRide ride) (assignments st)
  /\ driverAvailability (processRide drivers st ride)
     = <[bestDriverId := endState ride]> (driverAvailability st)
  /\ totalCost (processRide drivers st ride) = (totalCost st + minCost)%Q.
Proof.
  intros H. pose proof (processRide_cases drivers st ride) as Hc. rewrite H in Hc.
  simpl in Hc. rewrite Hc.
  destruct (chooseDriver_books drivers st ride) as (Ha & Hd & Ht).
  unfold commit. simpl. now rewrite Ha, Hd, Ht.
Qed.

(** A committed driver passed the checks of the filter in the state before
    the ride. *)
Lemma committed_passes (drivers : list Driver.t) (st : state) (ride : Ride.t)
    (bestDriverId : string) (minCost : Q) :
  committed (fst (chooseDriver drivers st ride)) = Some (bestDriverId, minCost) ->
  exists driver availability driverAssignment,
    In driver drivers /\ Driver.driverId driver = bestDriverId
    /\ driverAvailability st !! bestDriverId = Some availability
    /\ findAssignment bestDriverId (assignments st) = Some driverAssignment
    /\ isTimeAfter (Availability.busyUntil availability) (Ride.startTime ride) = false
    /\ isDriverOnShift driver (Ride.startTime ride) (Ride.endTime ride) = true.
Proof.
  intros H. apply committed_selected in H as [H _].
  destruct (chooseDriver_selected _ _ _ _ _ H) as (d & st_k & Hin & Hid & Hb & Hev).
  destruct (evaluate_passes _ _ _ _ Hev) as (av & a & Hav & Has & Hbusy & Hshift).
  destruct Hb as (Ha' & Hd' & _). rewrite Hd', Hid in Hav. rewrite Ha', Hid in Has.
  exists d, av, a. repeat split; assumption.
Qed.

(** ** The total cost *)

Lemma runRides_app (drivers : list Driver.t) (l1 l2 : list Ride.t) (st : state) :
  runRides drivers (l1 ++ l2) st = runRides drivers l2 (runRides drivers l1 st).
Proof. unfold runRides. apply fold_left_app. Qed.

Lemma runRides_totalCost (drivers : list Driver.t) (rides : list Ride.t) (st : state) :
  (totalCost (runRides drivers rides st)
   == totalCost st + Qsum (acceptedCosts drivers rides st))%Q.
Proof.
  revert st. induction rides as [|r rs IH]; intros st; cbn [runRides fold_left acceptedCosts].
  - unfold Qsum. simpl. ring.
  - fold (runRides drivers rs (processRide drivers st r)). rewrite IH.
    destruct (committed (fst (chooseDriver drivers st r))) as [[id c]|] eqn:E.
    + destruct (processRide_committed _ _ _ _ _ E) as (_ & _ & ->).
      unfold Qsum. simpl. ring.
    + destruct (processRide_dropped _ _ _ E) as (_ & _ & ->). reflexivity.
Qed.

Lemma round2_proper (x y : Q) : (x == y)%Q -> round2 x = round2 y.
Proof.
  intros H. unfold round2, Math_round. f_equal. f_equal.
  apply Qfloor_comp. now rewrite H.
Qed.

Lemma round2_nonneg (x : Q) : (0 <= x)%Q -> (0 <= round2 x)%Q.
Proof.
  intros H. unfold round2, Math_round.
  assert (0 <= Qfloor (x * 100 + (1 # 2)))%Z as Hf.
  { change 0%Z with (Qfloor 0). apply Qfloor_resp_le. lra. }
  apply Qle_shift_div_l; [reflexivity|].
  rewrite Qmult_0_l. change 0%Q with (inject_Z 0). now rewrite <- Zle_Qle.
Qed.

Lemma Qsum_nonneg (l : list Q) : Forall (fun c => (0 <= c)%Q) l -> (0 <= Qsum l)%Q.
Proof.
  induction 1 as [|c l Hc Hl IH]; unfold Qsum in *; simpl; [apply Qle_refl|lra].
Qed.

(** *** What the loops preserve *)

Section Preservation.

Variable P : state -> Prop.
Hypothesis P_resolveLeg : forall p q st, P st -> P (snd (resolveLeg p q st)).

Lemma evaluate_preserves (st : state) (ride : Ride.t) (driver : Driver.t) :
  P st -> P (snd (evaluate st ride driver)).
Proof.
  intros HP. unfold evaluate.
  repeat match goal with
         | |- P (snd (if ?b then _ else _)) => destruct b
         | |- P (snd (match ?o with Some _ => _ | None => _ end)) => destruct o
         | |- P (snd (_, st)) => exact HP
         end.
  pose proof (P_resolveLeg (Availability.lastRideEndPoint_coords t)
                (Ride.startPoint_coords ride) st HP) as H1.
  destruct (resolveLeg _ _ st) as [e st1]. simpl in H1.
  match goal with |- context [if ?b then _ else _] => destruct b end; [exact H1|].
  pose proof (P_resolveLeg (Ride.startPoint_coords ride) (Ride.endPoint_coords ride) st1 H1) as H2.
  destruct (resolveLeg _ _ st1) as [r st2]. exact H2.
Qed.

Lemma chooseDriver_preserves (drivers : list Driver.t) (st : state) (ride : Ride.t) :
  P st -> P (snd (chooseDriver drivers st ride)).
Proof.
  unfold chooseDriver. generalize (None : search) as s. revert st.
  induction drivers as [|d ds IH]; intros st s HP; cbn [fold_left]; [exact HP|].
  pose proof (evaluate_preserves st ride d HP) as H.
  unfold considerDriver at 2.
  destruct (evaluate st ride d) as [[[c|]|] st']; simpl in H; try (apply IH; exact H).
  destruct (improves c s); apply IH; exact H.
Qed.

Lemma evaluations_lookup_preserved (drivers : list Driver.t) (st : state) (ride : Ride.t)
    (k : nat) (driver : Driver.t) (o : option jsnum) :
  P st ->
  evaluations drivers st ride !! k = Some (driver, o) ->
  In driver drivers /\ exists st_k, P st_k /\ fst (evaluate st_k ride driver) = o.
Proof.
  revert st k. induction drivers as [|d ds IH]; intros st k HP; cbn [evaluations].
  - intros H. discriminate H.
  - pose proof (evaluate_preserves st ride d HP) as Hb.
    destruct (evaluate st ride d) as [c st'] eqn:E. simpl in Hb.
    destruct k as [|k]; simpl.
    + intros [= <- <-]. split; [now left|].
      exists st. split; [exact HP|now rewrite E].
    + intros H. destruct (IH _ _ Hb H) as (Hin & st_k & Hbk & Hev).
      split; [now right|]. exists st_k. auto.
Qed.

Lemma chooseDriver_selected_preserved (drivers : list Driver.t) (st : state)
    (ride : Ride.t) (bestDriverId : string) (minCost : Q) :
  P st ->
  fst (chooseDriver drivers st ride) = Some (bestDriverId, minCost) ->
  exists driver st_k,
    In driver drivers /\ Driver.driverId driver = bestDriverId
    /\ P st_k /\ fst (evaluate st_k ride driver) = Some (Some minCost).
Proof.
  intros HP H. pose proof (chooseDriver_first_minimum drivers st ride) as Hmin.
  rewrite H in Hmin. destruct Hmin as (_ & _ & [Habs|(k & d & Hk & Hid & _)]);
    [discriminate|].
  destruct (evaluations_lookup_preserved _ _ _ _ _ _ HP Hk) as (Hin & st_k & Hb & Hev).
  exists d, st_k. auto.
Qed.

Hypothesis P_commit : forall id c ride st, P st -> P (commit id c ride st).

Lemma processRide_preserves (drivers : list Driver.t) (st : state) (ride : Ride.t) :
  P st -> P (processRide drivers st ride).
Proof.
  intros HP. pose proof (processRide_cases drivers st ride) as Hc.
  pose proof (chooseDriver_preserves drivers st ride HP) as H1.
  destruct (committed _) as [[id c]|]; simpl in Hc; rewrite Hc; auto.
Qed.

Lemma runRides_preserves (drivers : list Driver.t) (rides : list Ride.t) (st : state) :
  P st -> P (runRides drivers rides st).
Proof.
  revert st. induction rides as [|r rs IH]; intros st HP; [exact HP|].
  apply IH. now apply processRide_preserves.
Qed.

End Preservation.

(** *** Distances and costs are not negative *)

Lemma cache_set_nonneg (k : coords * coords) (v : jsnum) (w : world) :
  nonneg_num v -> cache_nonneg w -> cache_nonneg (cache_set k v w).
Proof. intros Hv Hw. unfold cache_nonneg, cache_set. simpl. now apply map_Forall_insert_2. Qed.

Section Nonnegative.

Hypothesis geometry_nonneg : forall a b, (0 <= haversineDistance a b)%Q.
Hypothesis service_nonneg : forall n a b, reply_nonneg (axios_get n a b) = true.

Lemma getDistanceFromOSRM_nonneg (s e : coords) (thr : option Q) (w : world) :
  cache_nonneg w ->
  nonneg_num (fst (getDistanceFromOSRM s e thr w))
  /\ cache_nonneg (snd (getDistanceFromOSRM s e thr w)).
Proof.
  intros Hw. unfold getDistanceFromOSRM, fallback.
  destruct (distanceCache w !! getDistanceCacheKey s e) as [v|] eqn:Hc; simpl.
  { split; [|exact Hw]. exact (Hw _ _ Hc). }
  assert (cache_nonneg (send (getDistanceCacheKey s e) w)) as Hw1 by exact Hw.
  pose proof (geometry_nonneg s e) as Hh.
  destruct (Qgtb _ _); simpl.
  { split; [exact Hh|]. now apply cache_set_nonneg. }
  pose proof (service_nonneg (length (requests w)) s e) as Hs.
  destruct (axios_get _ s e) as [|[[[[[|[[[d|]]|] rs]|]]|]]]; simpl in *;
    try (split; [exact Hh|now apply cache_set_nonneg]).
  - apply Qle_bool_iff in Hs.
    assert (0 <= d / 1000)%Q as Hd.
    { apply Qle_shift_div_l; [reflexivity|]. now rewrite Qmult_0_l. }
    destruct (binary64_close _ Hd) as [Hd' _].
    split; [exact Hd'|now apply cache_set_nonneg].
  - split; [exact I|now apply cache_set_nonneg].
Qed.

Lemma resolveLeg_nonneg (p q : coords) (st : state) :
  cache_nonneg (net st) ->
  nonneg_num (fst (resolveLeg p q st)) /\ cache_nonneg (net (snd (resolveLeg p q st))).
Proof.
  intros Hw. unfold resolveLeg. destruct (Qle_bool _ _).
  - pose proof (getDistanceFromOSRM_nonneg p q None (net st) Hw) as H.
    destruct (getDistanceFromOSRM _ _ _ _). exact H.
  - split; [apply geometry_nonneg|exact Hw].
Qed.

Lemma evaluate_nonneg (st : state) (ride : Ride.t) (driver : Driver.t) (c : Q) :
  cache_nonneg (net st) ->
  proper_ride ride = true ->
  (0 <= Driver.fuelCost driver)%Q ->
  fst (evaluate st ride driver) = Some (Some c) ->
  (0 <= c)%Q.
Proof.
  intros Hw Hr Hf Hev. unfold proper_ride in Hr. apply andb_prop in Hr as [Hwf Hdur].
  apply Z.leb_le in Hdur.
  destruct (evaluate st ride driver) as [o st'] eqn:E. simpl in Hev. subst o.
  destruct (evaluate_cost _ _ _ _ _ Hwf E) as (av & _ & _ & Hc & _).
  unfold costFormula, emptyLeg, rideLeg in Hc.
  destruct (resolveLeg_nonneg (Availability.lastRideEndPoint_coords av)
              (Ride.startPoint_coords ride) st Hw) as [He Hw1].
  destruct (resolveLeg_nonneg (Ride.startPoint_coords ride) (Ride.endPoint_coords ride)
              _ Hw1) as [Hrd _].
  destruct (fst (resolveLeg _ _ st)) as [e|]; [|destruct (fst (resolveLeg _ _ _)); discriminate].
  destruct (fst (resolveLeg _ _ _)) as [r|]; [|discriminate].
  simpl in *. injection Hc as ->.
  assert (0 <= inject_Z (rideDuration ride))%Q as Hd.
  { change 0%Q with (inject_Z 0). rewrite <- Zle_Qle. unfold rideDuration. lia. }
  assert (0 <= inject_Z (rideDuration ride) / 60 * 30)%Q.
  { apply Qmult_le_0_compat; [|discriminate].
    apply Qle_shift_div_l; [reflexivity|]. now rewrite Qmult_0_l. }
  pose proof (Qmult_le_0_compat _ _ Hrd Hf). pose proof (Qmult_le_0_compat _ _ He Hf).
  lra.
Qed.

Lemma acceptedCosts_nonneg (drivers : list Driver.t) (rides : list Ride.t) (st : state) :
  cache_nonneg (net st) ->
  forallb proper_ride rides = true ->
  forallb (fun d => Qle_bool 0 (Driver.fuelCost d)) drivers = true ->
  Forall (fun c => (0 <= c)%Q) (acceptedCosts drivers rides st).
Proof.
  intros Hw Hrides Hdrivers. revert st Hw.
  induction rides as [|r rs IH]; intros st Hw; cbn [acceptedCosts]; [constructor|].
  simpl in Hrides. apply andb_prop in Hrides as [Hr Hrs].
  assert (cache_nonneg (net (processRide drivers st r))) as Hw'.
  { apply (processRide_preserves (fun s => cache_nonneg (net s))); [| |exact Hw].
    - intros p q s H. now apply resolveLeg_nonneg.
    - intros id c ride s H. exact H. }
  specialize (IH Hrs _ Hw').
  destruct (committed _) as [[id c]|] eqn:E; [|exact IH].
  constructor; [|exact IH].
  apply committed_selected in E as [E _].
  destruct (chooseDriver_selected_preserved (fun s => cache_nonneg (net s))
              (fun p q s H => proj2 (resolveLeg_nonneg p q s H)) _ _ _ _ _ Hw E)
    as (d & st_k & Hin & _ & Hwk & Hev).
  apply (evaluate_nonneg st_k r d c Hwk Hr); [|exact Hev].
  rewrite forallb_forall in Hdrivers. apply Qle_bool_iff. now apply Hdrivers.
Qed.

End Nonnegative.

Lemma forallb_sortRides (f : Ride.t -> bool) (l : list Ride.t) :
  forallb f l = true -> forallb f (sortRides l) = true.
Proof.
  rewrite !forallb_forall. intros H r Hr. apply H.
  eapply Permutation_in; [symmetry; apply sortRides_perm|exact Hr].
Qed.

(** C2, amended. For every ride and every state of the engine, the driver
    committed is the first driver, in the order of the driver list, whose
    evaluated cost is the minimum of the costs evaluated for the ride, and
    the commit adds exactly that cost; the returned [totalCost] is the sum of
    the costs so added, rounded to two decimals once; and it is at least 0
    when no ride ends before it starts, no fuel cost is negative, and the
    geometry, the service and the cache hold no negative distance. *)
Theorem minimum_cost_driver_and_total
    (driversData : list Driver.t) (ridesData : list Ride.t) (w : world) :
  (forall st ride bestDriverId minCost,
     committed (fst (chooseDriver driversData st ride)) = Some (bestDriverId, minCost) ->
     (exists k driver,
        evaluations driversData st ride !! k = Some (driver, Some (Some minCost))
        /\ Driver.driverId driver = bestDriverId
        /\ forall j driver' c,
             evaluations driversData st ride !! j = Some (driver', Some (Some c)) ->
             (minCost <= c)%Q /\ ((j < k)%nat -> (minCost < c)%Q))
     /\ totalCost (processRide driversData st ride) = (totalCost st + minCost)%Q
     /\ driverAvailability (processRide driversData st ride)
        = <[bestDriverId := endState ride]> (driverAvailability st))
  /\ (forall st ride,
        committed (fst (chooseDriver driversData st ride)) = None ->
        totalCost (processRide driversData st ride) = totalCost st)
  /\ Result.totalCost (returned (assignDriversToRides driversData ridesData w))
     = round2 (Qsum (acceptedCosts driversData (sortRides ridesData)
                                   (initialState driversData w)))
  /\ ((forall a b, (0 <= haversineDistance a b)%Q) ->
      (forall n a b, reply_nonneg (axios_get n a b) = true) ->
      cache_nonneg w ->
      forallb proper_ride ridesData = true ->
      forallb (fun d => Qle_bool 0 (Driver.fuelCost d)) driversData = true ->
      (0 <= Result.totalCost (returned (assignDriversToRides driversData ridesData w)))%Q).
Proof.
  assert (Result.totalCost (returned (assignDriversToRides driversData ridesData w))
          = round2 (Qsum (acceptedCosts driversData (sortRides ridesData)
                                        (initialState driversData w)))) as Htotal.
  { unfold assignDriversToRides. simpl. apply round2_proper.
    rewrite runRides_totalCost. simpl. ring. }
  split; [|split; [|split; [exact Htotal|]]].
  - intros st ride id c Hc.
    destruct (processRide_committed _ _ _ _ _ Hc) as (_ & Hd & Ht).
    split; [|split; [exact Ht|exact Hd]].
    apply committed_selected in Hc as [Hs _].
    pose proof (chooseDriver_first_minimum driversData st ride) as Hmin.
    rewrite Hs in Hmin. destruct Hmin as (Hall & _ & [Habs|(k & d & Hk & Hid & Hbefore & _)]);
      [discriminate|].
    exists k, d. split; [exact Hk|]. split; [exact Hid|].
    intros j d' c' Hj. split; [eapply Hall; exact Hj|]. intros Hlt. eapply Hbefore; eassumption.
  - intros st ride Hc. now destruct (processRide_dropped _ _ _ Hc) as (_ & _ & ->).
  - intros Hgeo Hsvc Hw Hrides Hdrivers. rewrite Htotal.
    apply round2_nonneg, Qsum_nonneg.
    apply acceptedCosts_nonneg; auto. now apply forallb_sortRides.
Qed.

(** ** The schedule of a driver *)





Lemma StronglySorted_lookup {A} (R : A -> A -> Prop) (l : list A) (i j : nat) (x y : A) :
  StronglySorted R l -> (i < j)%nat -> l !! i = Some x -> l !! j = Some y -> R x y.
Proof.
  intros H. revert i j. induction H as [|z l Hl IH Hz]; intros i j Hij Hi Hj; [discriminate|].
  destruct j as [|j]; [lia|]. simpl in Hj.
  destruct i as [|i]; simpl in Hi.
  - injection Hi as ->. rewrite List.Forall_forall in Hz. apply Hz.
    apply list_elem_of_In. eapply list_elem_of_lookup_2. exact Hj.
  - apply (IH i j); [lia|exact Hi|exact Hj].
Qed.


Lemma ride_of_id (all : list Ride.t) (r1 r2 : Ride.t) :
  NoDup (map Ride._id all) -> In r1 all -> In r2 all ->
  Ride._id r1 = Ride._id r2 -> r1 = r2.
Proof.
  induction all as [|r all IH]; simpl; intros Hnd H1 H2 Hid; [destruct H1|].
  apply NoDup_cons in Hnd as [Hnot Hnd].
  destruct H1 as [->|H1], H2 as [->|H2]; auto.
  - exfalso. apply Hnot. rewrite Hid. apply list_elem_of_In, in_map, H2.
  - exfalso. apply Hnot. rewrite <- Hid. apply list_elem_of_In, in_map, H1.
Qed.

Lemma str_le_minutes (a b : string) :
  wf_clock a = true -> wf_clock b = true -> str_le a b -> minutesOf a <= minutesOf b.
Proof.
  intros Ha Hb. unfold str_le. rewrite (localeCompare_wf _ _ Ha Hb).
  intros H. destruct (Z.compare_spec (minutesOf a) (minutesOf b)); try lia. congruence.
Qed.


Lemma proper_ride_wf (l : list Ride.t) :
  forallb proper_ride l = true -> forallb wf_ride l = true.
Proof.
  rewrite !forallb_forall. intros H r Hr. specialize (H r Hr).
  unfold proper_ride in H. now apply andb_prop in H as [H _].
Qed.


Section Schedule.

Variable drivers : list Driver.t.

(** The sorted rides of a run. *)
Variable all : list Ride.t.
Hypothesis all_nodup : NoDup (map Ride._id all).
Hypothesis all_sorted : StronglySorted ride_le all.
Hypothesis all_wf : forallb wf_ride all = true.






End Schedule.


Lemma filteredAssignments_ids (l : list Assignment.t) :
  concat (map snd (filteredAssignments l)) = allRideIds l.
Proof.
  unfold filteredAssignments, allRideIds. induction l as [|a l IH]; simpl; [reflexivity|].
  destruct (Assignment.rideIds a) as [|x ids] eqn:E; simpl.
  - exact IH.
  - rewrite E. simpl. now rewrite IH.
Qed.

Lemma filteredAssignments_In (l : list Assignment.t) (driverId : string) (ids : list string) :
  In (driverId, ids) (filteredAssignments l) ->
  exists i a, l !! i = Some a /\ Assignment.driverId a = driverId
              /\ Assignment.rideIds a = ids /\ ids <> [].
Proof.
  unfold filteredAssignments. intros H.
  apply in_map_iff in H as (a & [= <- <-] & Hin).
  apply filter_In in Hin as [Hin Hne].
  apply list_elem_of_In, list_elem_of_lookup in Hin as [i Hi].
  exists i, a. repeat split; auto.
  intros E. rewrite E in Hne. discriminate.
Qed.


(** ** Availability over a run *)

Lemma or_string_wf (o : option string) :
  wf_optional_clock o = true -> wf_clock (or_string o "00:00") = true.
Proof.
  destruct o as [s|]; simpl; [|reflexivity].
  intros H. now rewrite (wf_clock_nonempty _ H).
Qed.

Lemma initialState_clocks_wf (drivers : list Driver.t) (w : world) :
  forallb wf_driver drivers = true -> clocks_wf (initialState drivers w).
Proof.
  unfold clocks_wf, initialState. simpl.
  assert (forall m : gmap string Availability.t,
            map_Forall (fun _ a => wf_clock (Availability.busyUntil a) = true) m ->
            forallb wf_driver drivers = true ->
            map_Forall (fun _ a => wf_clock (Availability.busyUntil a) = true)
              (fold_left (fun m d => <[Driver.driverId d := initialAvailability d]> m)
                         drivers m)) as H.
  { induction drivers as [|d ds IH]; intros m Hm Hwf; simpl; [exact Hm|].
    simpl in Hwf. apply andb_prop in Hwf as [Hd Hds].
    apply IH; [|exact Hds]. apply map_Forall_insert_2; [|exact Hm].
    simpl. apply or_string_wf. unfold wf_driver in Hd. now apply andb_prop in Hd as [Hd _]. }
  intros Hwf. apply H; [apply map_Forall_empty|exact Hwf].
Qed.

Lemma processRide_availability (drivers : list Driver.t) (st : state) (ride : Ride.t)
    (id : string) :
  driverAvailability (processRide drivers st ride) !! id
  = match committed (fst (chooseDriver drivers st ride)) with
    | Some (bestDriverId, _) =>
        if String.eqb bestDriverId id then Some (endState ride)
        else driverAvailability st !! id
    | None => driverAvailability st !! id
    end.
Proof.
  destruct (committed _) as [[best c]|] eqn:Hc.
  - destruct (processRide_committed _ _ _ _ _ Hc) as (_ & -> & _).
    destruct (String.eqb_spec best id) as [->|Hne].
    + apply lookup_insert_eq.
    + now apply lookup_insert_ne.
  - now destruct (processRide_dropped _ _ _ Hc) as (_ & -> & _).
Qed.

Lemma processRide_clocks_wf (drivers : list Driver.t) (st : state) (ride : Ride.t) :
  wf_ride ride = true -> clocks_wf st -> clocks_wf (processRide drivers st ride).
Proof.
  intros Hr Hst id av. rewrite processRide_availability.
  destruct (committed _) as [[best c]|]; [|apply Hst].
  destruct (String.eqb best id); [|apply Hst].
  intros [= <-]. simpl. unfold wf_ride in Hr. now apply andb_prop in Hr as [_ Hr].
Qed.

Lemma processRide_busyUntil (drivers : list Driver.t) (st : state) (ride : Ride.t)
    (id : string) (av : Availability.t) :
  proper_ride ride = true -> clocks_wf st ->
  driverAvailability st !! id = Some av ->
  exists av',
    driverAvailability (processRide drivers st ride) !! id = Some av'
    /\ minutesOf (Availability.busyUntil av) <= minutesOf (Availability.busyUntil av').
Proof.
  intros Hr Hst Hav. rewrite processRide_availability.
  destruct (committed _) as [[best c]|] eqn:Hc; [|exists av; split; [exact Hav|lia]].
  destruct (String.eqb_spec best id) as [->|Hne]; [|exists av; split; [exact Hav|lia]].
  exists (endState ride). split; [reflexivity|]. simpl.
  destruct (committed_passes _ _ _ _ _ Hc) as (d & av0 & a0 & _ & _ & Hav0 & _ & Hbusy & _).
  rewrite Hav in Hav0. injection Hav0 as <-.
  unfold proper_ride, wf_ride in Hr. apply andb_prop in Hr as [Hwf Hdur].
  apply andb_prop in Hwf as [Hs He]. apply Z.leb_le in Hdur.
  rewrite (isTimeAfter_wf _ _ (Hst _ _ Hav) Hs), Z.gtb_ltb in Hbusy.
  apply Z.ltb_ge in Hbusy. lia.
Qed.

Lemma runRides_busyUntil (drivers : list Driver.t) (rides : list Ride.t) (st : state)
    (id : string) (av : Availability.t) :
  forallb proper_ride rides = true -> clocks_wf st ->
  driverAvailability st !! id = Some av ->
  exists av',
    driverAvailability (runRides drivers rides st) !! id = Some av'
    /\ minutesOf (Availability.busyUntil av) <= minutesOf (Availability.busyUntil av').
Proof.
  revert st av. induction rides as [|r rs IH]; intros st av Hrs Hst Hav.
  - exists av. split; [exact Hav|lia].
  - simpl in Hrs. apply andb_prop in Hrs as [Hr Hrs].
    destruct (processRide_busyUntil drivers st r id av Hr Hst Hav) as (av1 & Hav1 & Hle1).
    assert (clocks_wf (processRide drivers st r)) as Hst1.
    { apply processRide_clocks_wf; [|exact Hst].
      unfold proper_ride in Hr. now apply andb_prop in Hr as [Hr _]. }
    destruct (IH _ _ Hrs Hst1 Hav1) as (av2 & Hav2 & Hle2).
    exists av2. split; [exact Hav2|lia].
Qed.

Lemma runRides_clocks_wf (drivers : list Driver.t) (rides : list Ride.t) (st : state) :
  forallb wf_ride rides = true -> clocks_wf st -> clocks_wf (runRides drivers rides st).
Proof.
  revert st. induction rides as [|r rs IH]; intros st Hrs Hst; [exact Hst|].
  simpl in Hrs. apply andb_prop in Hrs as [Hr Hrs].
  apply IH; [exact Hrs|]. now apply processRide_clocks_wf.
Qed.

(** C5, amended. When no ride ends before it starts (and clock times are
    [HH:MM]), the [busyUntil] of every driver never moves earlier along the
    processing order: split the sorted rides anywhere, the value after the
    first part is not after the value at the end; and every commit sets the
    [busyUntil] of the committed driver to the end time of the ride. *)
Theorem busyUntil_is_monotone
    (driversData : list Driver.t) (ridesData : list Ride.t) (w : world)
    (earlier later : list Ride.t) :
  forallb wf_driver driversData = true ->
  forallb proper_ride ridesData = true ->
  sortRides ridesData = (earlier ++ later)%list ->
  let st1 := runRides driversData earlier (initialState driversData w) in
  let st2 := runRides driversData later st1 in
  (forall id av1,
     driverAvailability st1 !! id = Some av1 ->
     exists av2,
       driverAvailability st2 !! id = Some av2
       /\ minutesOf (Availability.busyUntil av1) <= minutesOf (Availability.busyUntil av2)
       /\ isTimeAfter (Availability.busyUntil av1) (Availability.busyUntil av2) = false)
  /\ (forall st ride bestDriverId minCost,
        committed (fst (chooseDriver driversData st ride)) = Some (bestDriverId, minCost) ->
        exists av,
          driverAvailability (processRide driversData st ride) !! bestDriverId = Some av
          /\ Availability.busyUntil av = Ride.endTime ride).
Proof.
  intros Hd Hr Hsplit. simpl.
  assert (forallb proper_ride (earlier ++ later) = true) as Hall.
  { rewrite <- Hsplit. now apply forallb_sortRides. }
  rewrite forallb_app in Hall. apply andb_prop in Hall as [He Hl].
  pose proof (runRides_clocks_wf driversData earlier _ (proper_ride_wf _ He)
                (initialState_clocks_wf driversData w Hd)) as Hst1.
  split.
  - intros id av1 Hav1.
    destruct (runRides_busyUntil driversData later _ id av1 Hl Hst1 Hav1) as (av2 & Hav2 & Hle).
    exists av2. split; [exact Hav2|]. split; [exact Hle|].
    pose proof (runRides_clocks_wf driversData later _ (proper_ride_wf _ Hl) Hst1) as Hst2.
    rewrite (isTimeAfter_wf _ _ (Hst1 _ _ Hav1) (Hst2 _ _ Hav2)), Z.gtb_ltb.
    apply Z.ltb_ge. exact Hle.
  - intros st ride id c Hc. rewrite processRide_availability, Hc, String.eqb_refl.
    eexists. split; reflexivity.
Qed.

Lemma evaluate_gate (st : state) (ride : Ride.t) (driver : Driver.t)
    (availability : Availability.t) :
  driverAvailability st !! Driver.driverId driver = Some availability ->
  isTimeAfter (Availability.busyUntil availability) (Ride.startTime ride) = true ->
  evaluate st ride driver = (None, st).
Proof.
  intros Hav Hbusy. unfold evaluate. rewrite Hav, Hbusy.
  now destruct (Driver.numberOfSeats driver <? Ride.numberOfSeats ride).
Qed.

Lemma never_committed_availability (drivers : list Driver.t) (id : string)
    (rides : list Ride.t) (st : state) :
  never_committed drivers id rides st = true ->
  driverAvailability (runRides drivers rides st) !! id = driverAvailability st !! id.
Proof.
  revert st. induction rides as [|r rs IH]; intros st; cbn [never_committed runRides fold_left];
    [reflexivity|].
  intros H. apply andb_prop in H as [Hr Hrs].
  fold (runRides drivers rs (processRide drivers st r)). rewrite (IH _ Hrs).
  rewrite processRide_availability.
  destruct (committed _) as [[best c]|]; [|reflexivity].
  apply negb_true_iff in Hr. now rewrite Hr.
Qed.

Lemma resolveLeg_redate (x : option string) (p q : coords) (st : state) :
  resolveLeg p q (redate x st)
  = (fst (resolveLeg p q st), redate x (snd (resolveLeg p q st))).
Proof.
  unfold resolveLeg. simpl. destruct (Qle_bool _ _); [|reflexivity].
  now destruct (getDistanceFromOSRM p q None (net st)).
Qed.

Lemma evaluate_redate (x : option string) (st : state) (ride : Ride.t) (driver : Driver.t) :
  evaluate (redate x st) ride driver
  = (fst (evaluate st ride driver), redate x (snd (evaluate st ride driver))).
Proof.
  unfold evaluate.
  destruct (Driver.numberOfSeats driver <? Ride.numberOfSeats ride); [reflexivity|].
  cbn [driverAvailability redate]. rewrite lookup_fmap.
  destruct (driverAvailability st !! Driver.driverId driver) as [av|]; [|reflexivity].
  cbn [fmap option_fmap option_map Availability.busyUntil Availability.lastRideEndPoint_coords].
  destruct (isTimeAfter (Availability.busyUntil av) (Ride.startTime ride)); [reflexivity|].
  destruct (negb _); [reflexivity|].
  destruct (_ || _); [reflexivity|].
  cbn [assignments].
  destruct (findAssignment _ _) as [a|]; [|reflexivity].
  destruct (wouldExceedDailyHours a driver ride); [reflexivity|].
  rewrite resolveLeg_redate.
  destruct (resolveLeg _ _ st) as [e st1]. cbn [fst snd].
  match goal with |- context [if ?b then _ else _] => destruct b end; [reflexivity|].
  rewrite resolveLeg_redate.
  now destruct (resolveLeg _ _ st1) as [r st2].
Qed.

(** C9. The availability of a driver is written by commits only: a commit
    stores the end time, end point and date of the ride; an iteration that
    commits nothing to the driver leaves the entry as it was, whatever the
    date of the ride; a driver whose [busyUntil] is after the start time of a
    ride is not evaluated for it, whatever its date, so that after a commit
    of a ride ending at [t], and as long as nothing else is committed to the
    driver, no ride that starts before [t] is evaluated for the driver; and
    overwriting every [lastActiveDate] changes no evaluation. *)
Theorem availability_is_never_reset (drivers : list Driver.t) :
  (forall st ride bestDriverId minCost,
     committed (fst (chooseDriver drivers st ride)) = Some (bestDriverId, minCost) ->
     driverAvailability (processRide drivers st ride) !! bestDriverId
     = Some {| Availability.lastRideEndTime := Ride.endTime ride;
               Availability.lastRideEndPoint := Ride.endPoint ride;
               Availability.lastRideEndPoint_coords := Ride.endPoint_coords ride;
               Availability.busyUntil := Ride.endTime ride;
               Availability.lastActiveDate := Some (Ride.date ride) |})
  /\ (forall st ride id,
        never_committed drivers id [ride] st = true ->
        driverAvailability (processRide drivers st ride) !! id
        = driverAvailability st !! id)
  /\ (forall st ride driver availability,
        driverAvailability st !! Driver.driverId driver = Some availability ->
        isTimeAfter (Availability.busyUntil availability) (Ride.startTime ride) = true ->
        ~ evaluated st ride driver)
  /\ (forall st ride1 minCost rides ride2 driver,
        committed (fst (chooseDriver drivers st ride1))
        = Some (Driver.driverId driver, minCost) ->
        never_committed drivers (Driver.driverId driver) rides
                        (processRide drivers st ride1) = true ->
        isTimeAfter (Ride.endTime ride1) (Ride.startTime ride2) = true ->
        ~ evaluated (runRides drivers rides (processRide drivers st ride1)) ride2 driver)
  /\ (forall x st ride driver,
        fst (evaluate (redate x st) ride driver) = fst (evaluate st ride driver)).
Proof.
  split; [|split; [|split; [|split]]].
  - intros st ride id c Hc. now rewrite processRide_availability, Hc, String.eqb_refl.
  - intros st ride id H.
    exact (never_committed_availability drivers id [ride] st H).
  - intros st ride driver av Hav Hbusy [c Hc].
    rewrite (evaluate_gate _ _ _ _ Hav Hbusy) in Hc. discriminate.
  - intros st ride1 c rides ride2 driver Hc Hnever Hafter [c' Hc'].
    assert (driverAvailability (runRides drivers rides (processRide drivers st ride1))
              !! Driver.driverId driver = Some (endState ride1)) as Hav.
    { rewrite (never_committed_availability _ _ _ _ Hnever).
      now rewrite processRide_availability, Hc, String.eqb_refl. }
    rewrite (evaluate_gate _ _ _ _ Hav Hafter) in Hc'. discriminate.
  - intros x st ride driver. now rewrite evaluate_redate.
Qed.

(** ** Rides that no driver is on shift for *)

Lemma evaluate_off_shift (st : state) (ride : Ride.t) (driver : Driver.t) :
  isDriverOnShift driver (Ride.startTime ride) (Ride.endTime ride) = false ->
  evaluate st ride driver = (None, st).
Proof.
  intros H. unfold evaluate. rewrite H. simpl.
  destruct (Driver.numberOfSeats driver <? Ride.numberOfSeats ride); [reflexivity|].
  destruct (driverAvailability st !! Driver.driverId driver) as [av|]; [|reflexivity].
  now destruct (isTimeAfter _ _).
Qed.

Lemma chooseDriver_off_shift (drivers : list Driver.t) (st : state) (ride : Ride.t) :
  off_shift_for_all drivers ride = true ->
  chooseDriver drivers st ride = (None, st).
Proof.
  unfold off_shift_for_all, chooseDriver. generalize (None : search) as s.
  induction drivers as [|d ds IH]; intros s H; cbn [fold_left]; [reflexivity|].
  simpl in H. apply andb_prop in H as [Hd Hds]. apply negb_true_iff in Hd.
  unfold considerDriver at 2. rewrite (evaluate_off_shift _ _ _ Hd). now apply IH.
Qed.

Lemma allRideIds_update (id : string) (ride : Ride.t) (l : list Assignment.t) (x : string) :
  In x (allRideIds (updateAssignment id (recordRide ride) l)) ->
  In x (allRideIds l) \/ x = Ride._id ride.
Proof.
  unfold allRideIds. induction l as [|a l IH]; simpl; [tauto|].
  destruct (String.eqb (Assignment.driverId a) id); simpl.
  - rewrite <- app_assoc. intros H. apply in_app_or in H as [H|[H|H]].
    + left. apply in_or_app. now left.
    + now right.
    + left. apply in_or_app. now right.
  - intros H. apply in_app_or in H as [H|H].
    + left. apply in_or_app. now left.
    + destruct (IH H) as [H'|H']; [left; apply in_or_app; now right|now right].
Qed.

(** An identity in the lists of the final state was there at the start or
    is that of a ride the inner loop committed in some state. *)
Lemma runRides_ids_committed (drivers : list Driver.t) (rides : list Ride.t)
    (st : state) (x : string) :
  In x (allRideIds (assignments (runRides drivers rides st))) ->
  In x (allRideIds (assignments st))
  \/ exists r st', In r rides /\ Ride._id r = x
                   /\ committed (fst (chooseDriver drivers st' r)) <> None.
Proof.
  revert st. induction rides as [|r rs IH]; intros st; cbn [runRides fold_left]; [auto|].
  intros H. destruct (IH _ H) as [Hin|(r' & st' & Hr' & Hid & Hc)].
  - destruct (committed (fst (chooseDriver drivers st r))) as [[id c]|] eqn:Hc.
    + destruct (processRide_committed _ _ _ _ _ Hc) as (Ha & _). rewrite Ha in Hin.
      apply allRideIds_update in Hin as [Hin | ->]; [now left|].
      right. exists r, st. split; [now left|]. split; [reflexivity|]. congruence.
    + destruct (processRide_dropped _ _ _ Hc) as (Ha & _). rewrite Ha in Hin. now left.
  - right. exists r', st'. split; [now right|]. auto.
Qed.

Lemma late_end_is_off_shift (drivers : list Driver.t) (ride : Ride.t) :
  wf_ride ride = true ->
  forallb (shift_ends_before ride) drivers = true ->
  off_shift_for_all drivers ride = true.
Proof.
  intros Hr. unfold off_shift_for_all. rewrite !forallb_forall.
  intros H d Hd. specialize (H d Hd). unfold shift_ends_before in H.
  destruct (Driver.shiftStart d) as [s|] eqn:Es; [|discriminate].
  destruct (Driver.shiftEnd d) as [e|] eqn:Ee; [|discriminate].
  apply andb_prop in H as [H Hlate]. apply andb_prop in H as [Hs He].
  apply Z.ltb_lt in Hlate.
  apply negb_true_iff, not_true_iff_false. intros Hon.
  assert (wf_driver d = true) as Hd'.
  { unfold wf_driver. rewrite Es, Ee. simpl. now rewrite Hs, He. }
  apply (isDriverOnShift_spec _ _ Hd' Hr) in Hon.
  destruct (Hon s e Es Ee) as [_ [_ H2]]. lia.
Qed.

(** C8, amended. A ride for which no driver is on shift is dropped: its
    iteration leaves the state, [totalCost] included, as it was, and with
    distinct ride identities its identity is in no list of the output.  This
    is the case of a ride whose end time lies after the end of the shift of
    every driver, such as an end written past midnight when every driver has
    a shift; a ride that crosses midnight or ends before it starts gets no
    other treatment. *)
Theorem off_shift_ride_is_dropped
    (driversData : list Driver.t) (ridesData : list Ride.t) (w : world) (ride : Ride.t) :
  (wf_ride ride = true ->
   forallb (shift_ends_before ride) driversData = true ->
   off_shift_for_all driversData ride = true)
  /\ (off_shift_for_all driversData ride = true ->
      (forall st, processRide driversData st ride = st)
      /\ (NoDup (map Ride._id ridesData) -> In ride ridesData ->
          forall driverId rideIds,
            In (driverId, rideIds)
               (Result.assignments
                  (returned (assignDriversToRides driversData ridesData w))) ->
            ~ In (Ride._id ride) rideIds)).
Proof.
  split; [apply late_end_is_off_shift|].
  intros Hoff. split.
  - intros st. unfold processRide. now rewrite (chooseDriver_off_shift _ _ _ Hoff).
  - intros Hnd Hride driverId ids Hout Hin.
    unfold assignDriversToRides in Hout. simpl in Hout.
    assert (In (Ride._id ride)
              (allRideIds (assignments (runRides driversData (sortRides ridesData)
                                                 (initialState driversData w))))) as H.
    { rewrite <- filteredAssignments_ids. apply in_concat. exists ids.
      split; [|exact Hin]. apply in_map_iff. now exists (driverId, ids). }
    apply runRides_ids_committed in H as [H|(r & st' & Hr & Hid & Hc)].
    + simpl in H. clear -H. induction driversData as [|d ds IH]; simpl in H; auto.
    + assert (In r ridesData) as Hr'.
      { eapply Permutation_in; [symmetry; apply sortRides_perm|exact Hr]. }
      assert (r = ride) as -> by (apply (ride_of_id ridesData); auto).
      apply Hc. now rewrite (chooseDriver_off_shift _ _ _ Hoff).
Qed.

(** C10. The call leaves the caller's array of rides sorted: it holds the
    same ride records, and for rides whose dates are [YYYY-MM-DD] and whose
    start times are [HH:MM] it is in ascending order of the date, read as
    the number [YYYYMMDD], and within a date of the start time, read in
    minutes; the array of drivers is as it was. *)
Theorem rides_are_sorted_in_place
    (driversData : list Driver.t) (ridesData : list Ride.t) (w : world) :
  forallb wf_sort_key ridesData = true ->
  let after := ridesData_after (assignDriversToRides driversData ridesData w) in
  Permutation ridesData after
  /\ (forall i j r1 r2,
        (i < j)%nat -> after !! i = Some r1 -> after !! j = Some r2 ->
        dateNumber (Ride.date r1) <= dateNumber (Ride.date r2)
        /\ (dateNumber (Ride.date r1) = dateNumber (Ride.date r2) ->
            minutesOf (Ride.startTime r1) <= minutesOf (Ride.startTime r2)))
  /\ driversData_after (assignDriversToRides driversData ridesData w) = driversData.
Proof.
  intros Hkeys. simpl. split; [apply sortRides_perm|]. split; [|reflexivity].
  intros i j r1 r2 Hij Hi Hj.
  pose proof (StronglySorted_lookup _ _ _ _ _ _ (sortRides_sorted ridesData) Hij Hi Hj) as Hle.
  assert (forall r k, sortRides ridesData !! k = Some r -> wf_sort_key r = true) as Hk.
  { intros r k Hr. rewrite forallb_forall in Hkeys. apply Hkeys.
    eapply Permutation_in; [symmetry; apply sortRides_perm|].
    apply list_elem_of_In. eapply list_elem_of_lookup_2, Hr. }
  pose proof (Hk r1 i Hi) as K1. pose proof (Hk r2 j Hj) as K2.
  unfold wf_sort_key in K1, K2.
  apply andb_prop in K1 as [D1 T1]. apply andb_prop in K2 as [D2 T2].
  split; [apply str_le_dateNumber; [exact D1|exact D2|now apply ride_le_date]|].
  intros Hd. apply (dateNumber_inj _ _ D1 D2) in Hd.
  apply compareRides_le in Hle as [[Hne _]|[_ Hle]]; [contradiction|].
  now apply str_le_minutes.
Qed.

(** ** The lookups of the inner loop never fail *)

Lemma findAssignment_update (id id' : string) (f : Assignment.t -> Assignment.t)
    (l : list Assignment.t) :
  (forall a, Assignment.driverId (f a) = Assignment.driverId a) ->
  is_Some (findAssignment id' l) ->
  is_Some (findAssignment id' (updateAssignment id f l)).
Proof.
  intros Hf. unfold findAssignment. induction l as [|a l IH]; simpl; [auto|].
  destruct (String.eqb (Assignment.driverId a) id) eqn:E; simpl.
  - rewrite Hf. destruct (String.eqb (Assignment.driverId a) id'); eauto.
  - destruct (String.eqb (Assignment.driverId a) id'); eauto.
Qed.

Lemma initialState_indexed (drivers : list Driver.t) (w : world) (driver : Driver.t) :
  In driver drivers -> indexed (initialState drivers w) driver.
Proof.
  intros Hin. split; simpl.
  - assert (forall (m : gmap string Availability.t),
              is_Some (m !! Driver.driverId driver) \/ In driver drivers ->
              is_Some (fold_left
                         (fun m d => <[Driver.driverId d := initialAvailability d]> m)
                         drivers m !! Driver.driverId driver)) as H.
    { clear Hin. induction drivers as [|d ds IH]; intros m Hm; simpl.
      - destruct Hm as [Hm|[]]. exact Hm.
      - apply IH. destruct Hm as [Hm|[->|Hm]]; [left|left|now right].
        + rewrite lookup_insert. case_decide; eauto.
        + rewrite lookup_insert_eq. eauto. }
    apply H. now right.
  - unfold findAssignment. induction drivers as [|d ds IH]; [destruct Hin|]. simpl.
    destruct (String.eqb_spec (Driver.driverId d) (Driver.driverId driver)); [eauto|].
    destruct Hin as [->|Hin]; [congruence|now apply IH].
Qed.

(** In every state of a run, and for every driver of the list, the
    availability entry and the assignment entry exist: the branches of
    [evaluate] for a failed lookup are never taken. *)
Lemma lookups_always_succeed (drivers : list Driver.t) (rides : list Ride.t) (w : world)
    (driver : Driver.t) :
  In driver drivers ->
  indexed (runRides drivers rides (initialState drivers w)) driver.
Proof.
  intros Hin.
  apply (runRides_preserves (fun st => indexed st driver)).
  - intros p q st [H1 H2]. destruct (resolveLeg_books p q st) as (Ha & Hd & _).
    unfold indexed. now rewrite Ha, Hd.
  - intros id c ride st [H1 H2]. split; simpl.
    + rewrite lookup_insert. case_decide; eauto.
    + apply findAssignment_update; [reflexivity|exact H2].
  - now apply initialState_indexed.
Qed.

(** ** Printing and reading clock times *)

Lemma parseTime_clockOf (t : Z) :
  0 <= t -> parseTime (clockOf t) = (Some (t / 60), Some (Z.rem t 60)).
Proof.
  intros Ht. unfold clockOf.
  assert (0 <= t / 60) as Hq by (apply Z.div_pos; lia).
  assert (0 <= Z.rem t 60) as Hr by (apply Z.rem_nonneg; lia).
  destruct (String_of_nonneg _ Hq) as (Nq & Dq & Eq).
  destruct (String_of_nonneg _ Hr) as (Nr & Dr & Er).
  destruct (padStart2_digits _ Dq Eq) as (Nq' & Dq').
  destruct (padStart2_digits _ Dr Er) as (Nr' & Dr').
  unfold parseTime. rewrite (split_clock _ _ Dq' Dr'). cbn [map nth].
  now rewrite Nq', Nr', Nq, Nr.
Qed.

Lemma minutesOf_clockOf (t : Z) : 0 <= t -> minutesOf (clockOf t) = t.
Proof.
  intros Ht. rewrite (minutesOf_parse _ _ _ (parseTime_clockOf t Ht)).
  rewrite (Z.rem_mod_nonneg t 60) by lia.
  pose proof (Z.div_mod t 60 ltac:(lia)). lia.
Qed.

Lemma wf_clock_clockOf_table :
  forallb (fun n => wf_clock (clockOf (Z.of_nat n))) (seq 0 (Z.to_nat 6000)) = true.
Proof. vm_compute. reflexivity. Qed.

Lemma wf_clock_clockOf (t : Z) : 0 <= t < 6000 -> wf_clock (clockOf t) = true.
Proof.
  intros Ht. pose proof wf_clock_clockOf_table as H.
  rewrite forallb_forall in H. specialize (H (Z.to_nat t)).
  rewrite Z2Nat.id in H by lia. apply H. apply in_seq. lia.
Qed.

Lemma addMinutesToTime_clockOf (timeStr : string) (n : Z) :
  wf_clock timeStr = true ->
  addMinutesToTime timeStr (Some n) = clockOf (minutesOf timeStr + n).
Proof.
  intros Hwf. destruct (wf_clock_parse _ Hwf) as (h & m & E & _ & _).
  rewrite (minutesOf_parse _ _ _ E). unfold addMinutesToTime. rewrite E. reflexivity.
Qed.

Lemma minutesOf_bound (s : string) : wf_clock s = true -> 0 <= minutesOf s < 6000.
Proof.
  intros H. destruct (wf_clock_parse s H) as (h & m & E & ? & ?).
  rewrite (minutesOf_parse _ _ _ E). lia.
Qed.

Lemma minutesOf_inj (a b : string) :
  wf_clock a = true -> wf_clock b = true -> minutesOf a = minutesOf b -> a = b.
Proof.
  intros Ha Hb E. apply String.compare_eq_iff.
  change (localeCompare a b = Eq). rewrite (localeCompare_wf _ _ Ha Hb).
  now apply Z.compare_eq_iff.
Qed.

Lemma addMinutesToTime_minutes (timeStr : string) (n : Z) :
  wf_clock timeStr = true ->
  0 <= minutesOf timeStr + n < 6000 ->
  wf_clock (addMinutesToTime timeStr (Some n)) = true
  /\ minutesOf (addMinutesToTime timeStr (Some n)) = minutesOf timeStr + n.
Proof.
  intros Hwf Ht. rewrite (addMinutesToTime_clockOf _ _ Hwf).
  split; [now apply wf_clock_clockOf|apply minutesOf_clockOf; lia].
Qed.

(** X1. [addMinutesToTime] on an [HH:MM] time and a number of minutes whose
    total is not negative and below 100 hours prints an [HH:MM] time whose
    minutes since midnight are the sum: nothing wraps at 24:00, and
    [getTimeDifferenceInMinutes] from the given time to the printed one gives
    the minutes back. *)
Theorem addMinutesToTime_round_trip (timeStr : string) (n : Z) :
  wf_clock timeStr = true ->
  0 <= minutesOf timeStr + n < 6000 ->
  wf_clock (addMinutesToTime timeStr (Some n)) = true
  /\ timeToMinutes (addMinutesToTime timeStr (Some n)) = Some (minutesOf timeStr + n)
  /\ getTimeDifferenceInMinutes timeStr (addMinutesToTime timeStr (Some n)) = Some n.
Proof.
  intros Hwf Ht. destruct (addMinutesToTime_minutes _ _ Hwf Ht) as [Hc Hm].
  split; [exact Hc|].
  rewrite (timeToMinutes_wf _ Hc), (getTimeDifferenceInMinutes_wf _ _ Hwf Hc), Hm.
  split; f_equal; lia.
Qed.

Lemma Qfloor_between (x : Q) (a b : Z) :
  (inject_Z a <= x)%Q -> (x <= inject_Z b)%Q -> a <= Qfloor x <= b.
Proof.
  intros Ha Hb. split.
  - rewrite <- (Qfloor_Z a). now apply Qfloor_resp_le.
  - rewrite <- (Qfloor_Z b). now apply Qfloor_resp_le.
Qed.

Lemma Qfloor_unique (x : Q) (z : Z) :
  (inject_Z z <= x)%Q -> (x < inject_Z (z + 1))%Q -> Qfloor x = z.
Proof.
  intros Hl Hu.
  assert (z <= Qfloor x).
  { rewrite <- (Qfloor_Z z). now apply Qfloor_resp_le. }
  assert (Qfloor x < z + 1).
  { rewrite Zlt_Qlt. eapply Qle_lt_trans; [apply Qfloor_le|exact Hu]. }
  lia.
Qed.

Lemma Qfloor_plus_Z (x : Q) (n : Z) : Qfloor (x + inject_Z n) = Qfloor x + n.
Proof.
  apply Qfloor_unique.
  - rewrite inject_Z_plus. apply Qplus_le_l, Qfloor_le.
  - replace (Qfloor x + n + 1) with ((Qfloor x + 1) + n) by lia.
    rewrite inject_Z_plus. apply Qplus_lt_l, Qlt_floor.
Qed.

Lemma getRandomTime_clockOf (random : Q) (startTime endTime : string) :
  wf_clock startTime = true -> wf_clock endTime = true ->
  getRandomTime random startTime endTime
  = clockOf (Qfloor (random * inject_Z (minutesOf endTime - minutesOf startTime)
                     + inject_Z (minutesOf startTime))%Q).
Proof.
  intros Hs He.
  destruct (wf_clock_parse _ Hs) as (hs & ms & Es & _ & _).
  destruct (wf_clock_parse _ He) as (he & me & Ee & _ & _).
  rewrite (minutesOf_parse _ _ _ Es), (minutesOf_parse _ _ _ Ee).
  unfold getRandomTime. rewrite Es, Ee. reflexivity.
Qed.

Lemma scaled_between (random : Q) (a b : Z) :
  a <= b -> (0 <= random)%Q -> (random <= 1)%Q ->
  (inject_Z a <= random * inject_Z (b - a) + inject_Z a)%Q
  /\ (random * inject_Z (b - a) + inject_Z a <= inject_Z b)%Q.
Proof.
  intros Hab H0 H1.
  assert (0 <= inject_Z (b - a))%Q as Hd.
  { change 0%Q with (inject_Z 0). rewrite <- Zle_Qle. lia. }
  assert (inject_Z b == inject_Z (b - a) + inject_Z a)%Q as Eb.
  { rewrite <- inject_Z_plus. apply inject_Z_injective. lia. }
  split.
  - assert (0 <= random * inject_Z (b - a))%Q by now apply Qmult_le_0_compat.
    lra.
  - rewrite Eb. apply Qplus_le_l.
    rewrite <- (Qmult_1_l (inject_Z (b - a))) at 2.
    now apply Qmult_le_compat_r.
Qed.

Lemma getRandomTime_minutes (random : Q) (startTime endTime : string) :
  wf_clock startTime = true ->
  wf_clock endTime = true ->
  minutesOf startTime <= minutesOf endTime ->
  (0 <= random)%Q -> (random <= 1)%Q ->
  wf_clock (getRandomTime random startTime endTime) = true
  /\ minutesOf startTime <= minutesOf (getRandomTime random startTime endTime)
     <= minutesOf endTime.
Proof.
  intros Hs He Hle H0 H1. rewrite (getRandomTime_clockOf _ _ _ Hs He).
  destruct (scaled_between random _ _ Hle H0 H1) as [Ha Hb].
  pose proof (Qfloor_between _ _ _ Ha Hb) as Hf.
  pose proof (minutesOf_bound _ Hs). pose proof (minutesOf_bound _ He).
  set (t := Qfloor _) in *.
  rewrite minutesOf_clockOf by lia.
  split; [apply wf_clock_clockOf; lia|lia].
Qed.

(** X2. [getRandomTime] between two [HH:MM] times, the first not after the
    second, returns an [HH:MM] time that is not before the first and not
    after the second, whatever value in [0, 1] the random source gives. *)
Theorem getRandomTime_within_bounds (random : Q) (startTime endTime : string) :
  wf_clock startTime = true ->
  wf_clock endTime = true ->
  minutesOf startTime <= minutesOf endTime ->
  (0 <= random)%Q -> (random <= 1)%Q ->
  wf_clock (getRandomTime random startTime endTime) = true
  /\ minutesOf startTime <= minutesOf (getRandomTime random startTime endTime)
     <= minutesOf endTime
  /\ isTimeInRange (getRandomTime random startTime endTime) startTime endTime = true.
Proof.
  intros Hs He Hle H0 H1.
  destruct (getRandomTime_minutes _ _ _ Hs He Hle H0 H1) as [Hc Hm].
  split; [exact Hc|]. split; [exact Hm|].
  rewrite (isTimeInRange_wf _ _ _ Hc Hs He).
  apply andb_true_intro. split; apply Z.leb_le; lia.
Qed.

(** X3. The clock times that [generateRidesData] gives a ride: the start is
    an [HH:MM] time from 06:00 to 21:00, the end is an [HH:MM] time 15 to 120
    minutes later and not after 23:00, so that a generated ride never ends
    before it starts and never runs past midnight. *)
Theorem generated_ride_is_proper (random1 random2 : Q) (ride : Ride.t) :
  (0 <= random1)%Q -> (random1 <= 1)%Q ->
  (0 <= random2)%Q -> (random2 <= 1)%Q ->
  (Ride.startTime ride, Ride.endTime ride) = rideTimes random1 random2 ->
  proper_ride ride = true
  /\ 360 <= minutesOf (Ride.startTime ride) <= 1260
  /\ 15 <= minutesOf (Ride.endTime ride) - minutesOf (Ride.startTime ride) <= 120
  /\ minutesOf (Ride.endTime ride) <= 1380
  /\ getTimeDifferenceInMinutes (Ride.startTime ride) (Ride.endTime ride)
     = int_add (Math_floor (num_mul (Some random2) (Some (105 : Q)))) (Some 15).
Proof.
  intros H0 H1 K0 K1 E. unfold rideTimes in E. injection E as Es Ee.
  assert (wf_clock "06:00" = true) as W6 by reflexivity.
  assert (wf_clock "21:00" = true) as W21 by reflexivity.
  destruct (getRandomTime_minutes random1 "06:00" "21:00" W6 W21
              ltac:(vm_compute; discriminate) H0 H1) as (Hwf & Hr).
  change (minutesOf "06:00") with 360 in Hr. change (minutesOf "21:00") with 1260 in Hr.
  rewrite <- Es in Hwf, Hr.
  assert (0 <= Qfloor (random2 * 105) <= 105) as Hd.
  { apply Qfloor_between.
    - change (inject_Z 0) with 0%Q. apply Qmult_le_0_compat; [exact K0|discriminate].
    - change (inject_Z 105) with (105 : Q). 
      rewrite <- (Qmult_1_l 105) at 2. apply Qmult_le_compat_r; [exact K1|discriminate]. }
  set (d := Qfloor (random2 * 105)) in *.
  assert (Ride.endTime ride = addMinutesToTime (Ride.startTime ride) (Some (d + 15))) as Ee'.
  { rewrite Ee, <- Es. reflexivity. }
  destruct (addMinutesToTime_minutes (Ride.startTime ride) (d + 15) Hwf ltac:(lia))
    as (Hwe & Em).
  rewrite <- Ee' in Hwe, Em.
  split.
  { unfold proper_ride, wf_ride. rewrite Hwf, Hwe. simpl. apply Z.leb_le. lia. }
  split; [lia|]. split; [lia|]. split; [lia|].
  rewrite (getTimeDifferenceInMinutes_wf _ _ Hwf Hwe), Em.
  change (int_add (Math_floor (num_mul (Some random2) (Some (105 : Q)))) (Some 15))
    with (Some (d + 15)).
  f_equal. lia.
Qed.

(** X4. On [HH:MM] times the three ways in which the code compares clock
    times agree: [isTimeAfter] on hours and minutes, the minutes of
    [timeToMinutes], the sign of [getTimeDifferenceInMinutes] and the string
    order of [localeCompare] that sorts the rides; two times of which neither
    is after the other are the same string. *)
Theorem time_comparisons_agree (time1 time2 : string) :
  wf_clock time1 = true ->
  wf_clock time2 = true ->
  (isTimeAfter time1 time2 = true <-> localeCompare time1 time2 = Gt)
  /\ (isTimeAfter time1 time2 = true
      <-> int_gt (timeToMinutes time1) (timeToMinutes time2) = true)
  /\ (isTimeAfter time1 time2 = true
      <-> int_lt (getTimeDifferenceInMinutes time1 time2) (Some 0) = true)
  /\ (isTimeAfter time1 time2 = true -> isTimeAfter time2 time1 = false)
  /\ (isTimeAfter time1 time2 = false /\ isTimeAfter time2 time1 = false
      <-> time1 = time2)
  /\ (isTimeInRange time1 time2 time2 = true <-> time1 = time2).
Proof.
  intros H1 H2.
  rewrite (isTimeAfter_wf _ _ H1 H2), (isTimeAfter_wf _ _ H2 H1).
  rewrite (localeCompare_wf _ _ H1 H2), !timeToMinutes_wf by assumption.
  rewrite (getTimeDifferenceInMinutes_wf _ _ H1 H2).
  rewrite (isTimeInRange_wf _ _ _ H1 H2 H2).
  unfold int_gt, int_lt, js_cmp.
  pose proof (minutesOf_inj _ _ H1 H2) as Hinj.
  rewrite !Z.gtb_ltb, andb_true_iff, !Z.ltb_lt, !Z.ltb_ge, !Z.leb_le, Z.compare_gt_iff.
  repeat split; intros; try lia.
  - apply Hinj. lia.
  - subst. lia.
  - subst. lia.
  - apply Hinj. lia.
  - subst. lia.
  - subst. lia.
Qed.

(** ** Rides and drivers that are never evaluated *)

Lemma evaluate_excluded (st : state) (ride : Ride.t) (driver : Driver.t) :
  statically_excluded ride driver = true -> evaluate st ride driver = (None, st).
Proof.
  unfold statically_excluded, evaluate. intros H.
  destruct (Driver.numberOfSeats driver <? Ride.numberOfSeats ride); [reflexivity|].
  destruct (driverAvailability st !! Driver.driverId driver) as [av|]; [|reflexivity].
  destruct (isTimeAfter _ _); [reflexivity|].
  destruct (isDriverOnShift driver _ _); [|reflexivity]. simpl in H. rewrite H. reflexivity.
Qed.

Lemma chooseDriver_none (drivers : list Driver.t) (st : state) (ride : Ride.t) :
  (forall driver st', In driver drivers -> evaluate st' ride driver = (None, st')) ->
  chooseDriver drivers st ride = (None, st).
Proof.
  unfold chooseDriver. generalize (None : search) as s.
  induction drivers as [|d ds IH]; intros s H; cbn [fold_left]; [reflexivity|].
  unfold considerDriver at 2. rewrite (H d st (or_introl eq_refl)).
  apply IH. intros driver st' Hin. apply H. now right.
Qed.

Lemma updateAssignment_lookup (id : string) (f : Assignment.t -> Assignment.t)
    (l : list Assignment.t) (i : nat) (a' : Assignment.t) :
  updateAssignment id f l !! i = Some a' ->
  l !! i = Some a'
  \/ exists a, l !! i = Some a /\ Assignment.driverId a = id /\ a' = f a.
Proof.
  revert i. induction l as [|a l IH]; intros i; simpl; [discriminate|].
  destruct (String.eqb_spec (Assignment.driverId a) id) as [E|E].
  - destruct i as [|i]; simpl; [|now left].
    intros [= <-]. right. now exists a.
  - destruct i as [|i]; simpl; [now left|]. apply IH.
Qed.

(** The entries of a driver identity that the inner loop never selects
    stay empty over a run. *)
Lemma runRides_never_selected (drivers : list Driver.t) (rides : list Ride.t)
    (st : state) (id : string) :
  (forall st' ride c, In ride rides ->
     committed (fst (chooseDriver drivers st' ride)) <> Some (id, c)) ->
  (forall i a, assignments st !! i = Some a -> Assignment.driverId a = id ->
               Assignment.rideIds a = []) ->
  forall i a, assignments (runRides drivers rides st) !! i = Some a ->
              Assignment.driverId a = id -> Assignment.rideIds a = [].
Proof.
  revert st. induction rides as [|r rs IH]; intros st Hsel Hst; cbn [runRides fold_left];
    [exact Hst|].
  apply IH; [intros st' ride c Hin; apply Hsel; now right|].
  intros i a Hi Ha.
  destruct (committed (fst (chooseDriver drivers st r))) as [[best c]|] eqn:Hc.
  - destruct (processRide_committed _ _ _ _ _ Hc) as (Hasg & _). rewrite Hasg in Hi.
    apply updateAssignment_lookup in Hi as [Hi|(a0 & Hi & Hid & ->)].
    + now apply (Hst i).
    + simpl in Ha. exfalso. apply (Hsel st r c (or_introl eq_refl)).
      rewrite Hc. congruence.
  - destruct (processRide_dropped _ _ _ Hc) as (Hasg & _). rewrite Hasg in Hi.
    now apply (Hst i).
Qed.

Lemma initialState_empty (drivers : list Driver.t) (w : world) (i : nat) (a : Assignment.t) :
  assignments (initialState drivers w) !! i = Some a -> Assignment.rideIds a = [].
Proof.
  simpl. rewrite list_lookup_fmap. destruct (drivers !! i); simpl; [|discriminate].
  now intros [= <-].
Qed.

(** A driver identity all of whose drivers are skipped for every ride is
    not in the output. *)
Lemma never_evaluated_not_in_output (driversData : list Driver.t)
    (ridesData : list Ride.t) (w : world) (id : string) :
  (forall driver st ride, In driver driversData -> Driver.driverId driver = id ->
     fst (evaluate st ride driver) = None) ->
  forall rideIds,
    ~ In (id, rideIds)
         (Result.assignments (returned (assignDriversToRides driversData ridesData w))).
Proof.
  intros Hskip ids Hin. unfold assignDriversToRides in Hin. simpl in Hin.
  apply filteredAssignments_In in Hin as (i & a & Hi & Hid & Hids & Hne).
  apply Hne. rewrite <- Hids.
  eapply runRides_never_selected; [| |exact Hi|exact Hid].
  - intros st' ride c _ Hc. apply committed_selected in Hc as [Hc _].
    apply chooseDriver_selected in Hc as (driver & st_k & Hd & Hdid & _ & He).
    rewrite (Hskip driver st_k ride Hd Hdid) in He. discriminate.
  - intros j a' Hj _. eapply initialState_empty, Hj.
Qed.

Lemma ride_not_committed_not_in_output (driversData : list Driver.t)
    (ridesData : list Ride.t) (w : world) (ride : Ride.t) :
  (forall st, committed (fst (chooseDriver driversData st ride)) = None) ->
  NoDup (map Ride._id ridesData) -> In ride ridesData ->
  forall driverId rideIds,
    In (driverId, rideIds)
       (Result.assignments (returned (assignDriversToRides driversData ridesData w))) ->
    ~ In (Ride._id ride) rideIds.
Proof.
  intros Hnone Hnd Hride driverId ids Hout Hin.
  unfold assignDriversToRides in Hout. simpl in Hout.
  assert (In (Ride._id ride)
            (allRideIds (assignments (runRides driversData (sortRides ridesData)
                                               (initialState driversData w))))) as H.
  { rewrite <- filteredAssignments_ids. apply in_concat. exists ids.
    split; [|exact Hin]. apply in_map_iff. now exists (driverId, ids). }
  apply runRides_ids_committed in H as [H|(r & st' & Hr & Hid & Hc)].
  - simpl in H. clear -H. induction driversData as [|d ds IH]; simpl in H; auto.
  - assert (In r ridesData) as Hr'.
    { eapply Permutation_in; [symmetry; apply sortRides_perm|exact Hr]. }
    assert (r = ride) as -> by (apply (ride_of_id ridesData); auto).
    apply Hc, Hnone.
Qed.

Lemma isTimeInRange_empty_window (time shiftStart shiftEnd : string) :
  wf_clock shiftStart = true -> wf_clock shiftEnd = true ->
  minutesOf shiftEnd < minutesOf shiftStart ->
  isTimeInRange time shiftStart shiftEnd = false.
Proof.
  intros Hs He Hlt. unfold isTimeInRange.
  rewrite (timeToMinutes_wf _ Hs), (timeToMinutes_wf _ He).
  destruct (timeToMinutes time) as [t|]; [|reflexivity].
  unfold int_ge, int_le, js_cmp. rewrite Z.geb_leb.
  apply andb_false_iff.
  destruct (Z.leb_spec (minutesOf shiftStart) t); [right|now left].
  apply Z.leb_gt. lia.
Qed.

(** X5. A driver whose shift ends, on the clock, before it starts (a shift
    over midnight such as 22:00 to 06:00) is on shift for no ride, whatever
    the ride's times are; when every driver of an identity has such a
    shift, the identity is not in the output. *)
Theorem overnight_shift_driver_gets_no_ride
    (driversData : list Driver.t) (ridesData : list Ride.t) (w : world) (driverId : string) :
  (forall driver startTime endTime,
     overnight_shift driver = true ->
     isDriverOnShift driver startTime endTime = false)
  /\ ((forall driver, In driver driversData -> Driver.driverId driver = driverId ->
         overnight_shift driver = true) ->
      forall rideIds,
        ~ In (driverId, rideIds)
             (Result.assignments
                (returned (assignDriversToRides driversData ridesData w)))).
Proof.
  assert (forall driver startTime endTime,
            overnight_shift driver = true ->
            isDriverOnShift driver startTime endTime = false) as Hoff.
  { intros driver startTime endTime H. unfold overnight_shift in H.
    unfold isDriverOnShift.
    destruct (Driver.shiftStart driver) as [s|]; [|discriminate].
    destruct (Driver.shiftEnd driver) as [e|]; [|discriminate].
    apply andb_prop in H as [H Hlt]. apply andb_prop in H as [Hs He].
    apply Z.ltb_lt in Hlt.
    rewrite (wf_clock_nonempty _ Hs), (wf_clock_nonempty _ He). simpl.
    now rewrite (isTimeInRange_empty_window _ _ _ Hs He Hlt). }
  split; [exact Hoff|].
  intros Hall. apply never_evaluated_not_in_output.
  intros driver st ride Hin Hid.
  now rewrite (evaluate_off_shift _ _ _ (Hoff driver _ _ (Hall driver Hin Hid))).
Qed.

Lemma includes_blank (s : string) : includes s "" = true.
Proof. destruct s; reflexivity. Qed.

(** X6. An empty string in a driver's blocked list blocks every address,
    since every string includes the empty string: the driver is skipped for
    every ride, and when every driver of an identity has such a list the
    identity is not in the output. *)
Theorem blank_blocked_address_blocks_every_ride
    (driversData : list Driver.t) (ridesData : list Ride.t) (w : world) (driverId : string) :
  (forall driver address,
     blocks_blank driver = true -> isAddressBlocked driver address = true)
  /\ ((forall driver, In driver driversData -> Driver.driverId driver = driverId ->
         blocks_blank driver = true) ->
      forall rideIds,
        ~ In (driverId, rideIds)
             (Result.assignments
                (returned (assignDriversToRides driversData ridesData w)))).
Proof.
  assert (forall driver address,
            blocks_blank driver = true -> isAddressBlocked driver address = true) as Hb.
  { intros driver address H. unfold blocks_blank in H. unfold isAddressBlocked.
    destruct (Driver.blockedAddresses driver) as [blocked|]; [|discriminate].
    destruct blocked as [|b0 bs]; [discriminate|].
    apply existsb_exists in H as (b & Hin & Hb). apply String.eqb_eq in Hb. subst b.
    apply existsb_exists. exists "". split; [exact Hin|]. apply includes_blank. }
  split; [exact Hb|].
  intros Hall. apply never_evaluated_not_in_output.
  intros driver st ride Hin Hid. rewrite evaluate_excluded; [reflexivity|].
  unfold statically_excluded.
  rewrite (Hb driver (Ride.startPoint ride) (Hall driver Hin Hid)).
  now rewrite !orb_true_r.
Qed.

(** X7. A ride that every driver fails on a check of the two records alone
    (too few seats, not on shift, a blocked start or end address) is dropped
    before any distance is resolved: its iteration leaves the whole state,
    the cache and the query log included, as it was, and with distinct ride
    identities the ride is in no list of the output.  A ride that asks for
    more seats than any driver has is such a ride. *)
Theorem statically_excluded_ride_is_dropped
    (driversData : list Driver.t) (ridesData : list Ride.t) (w : world) (ride : Ride.t) :
  (too_large_for_all driversData ride = true ->
   forallb (statically_excluded ride) driversData = true)
  /\ (forallb (statically_excluded ride) driversData = true ->
      (forall st, processRide driversData st ride = st)
      /\ (NoDup (map Ride._id ridesData) -> In ride ridesData ->
          forall driverId rideIds,
            In (driverId, rideIds)
               (Result.assignments
                  (returned (assignDriversToRides driversData ridesData w))) ->
            ~ In (Ride._id ride) rideIds)).
Proof.
  split.
  { unfold too_large_for_all. rewrite !forallb_forall. intros H d Hd.
    unfold statically_excluded. now rewrite (H d Hd). }
  intros Hex.
  assert (forall st, chooseDriver driversData st ride = (None, st)) as Hnone.
  { intros st. apply chooseDriver_none. intros driver st' Hin.
    apply evaluate_excluded. rewrite forallb_forall in Hex. now apply Hex. }
  split.
  - intros st. unfold processRide. now rewrite Hnone.
  - intros Hnd Hride. apply ride_not_committed_not_in_output; [|exact Hnd|exact Hride].
    intros st. now rewrite Hnone.
Qed.

(** ** The cache and the queries over a run *)

(** The three ways in which a resolution with the default threshold
    changes the world: not at all on a hit, a new cache entry for a long
    leg, a query and a new cache entry for a short one. *)
Lemma getDistanceFromOSRM_shape (s e : coords) (w : world) :
  let k := getDistanceCacheKey s e in
  let w' := snd (getDistanceFromOSRM s e None w) in
  (is_Some (distanceCache w !! k) /\ w' = w)
  \/ (distanceCache w !! k = None /\ exists x, w' = cache_set k x w)
  \/ (distanceCache w !! k = None /\ short_leg k
      /\ exists x, w' = cache_set k x (send k w)).
Proof.
  cbv zeta. unfold getDistanceFromOSRM, fallback.
  destruct (distanceCache w !! getDistanceCacheKey s e) as [c|] eqn:Hc; simpl.
  { left. eauto. }
  right. destruct (Qgtb _ _) eqn:Hfar; simpl.
  { left. eauto. }
  right. split; [reflexivity|]. split.
  { unfold short_leg. simpl. now apply Qltb_ge. }
  destruct (axios_get _ s e) as [|[[[[[|[r0|] rs]|]]|]]]; simpl; eauto.
Qed.

Lemma grown_refl (w : world) : grown w w.
Proof.
  split; [reflexivity|]. exists []. split; [now rewrite app_nil_r|].
  split; [constructor|constructor].
Qed.

Lemma grown_cache_set (w0 w : world) (k : coords * coords) (x : jsnum) :
  distanceCache w !! k = None -> grown w0 w -> grown w0 (cache_set k x w).
Proof.
  intros Hk [Hsub (new & Hreq & Hnd & Hall)]. split.
  - simpl. etrans; [exact Hsub|]. now apply insert_subseteq.
  - exists new. split; [exact Hreq|]. split; [exact Hnd|].
    eapply List.Forall_impl; [|exact Hall]. intros k' (Hs & H0 & H1).
    split; [exact Hs|]. split; [exact H0|].
    simpl. rewrite lookup_insert. case_decide; eauto.
Qed.

Lemma grown_send (w0 w : world) (k : coords * coords) (x : jsnum) :
  distanceCache w !! k = None -> short_leg k -> grown w0 w ->
  grown w0 (cache_set k x (send k w)).
Proof.
  intros Hk Hshort [Hsub (new & Hreq & Hnd & Hall)]. split.
  - simpl. etrans; [exact Hsub|]. now apply insert_subseteq.
  - exists (new ++ [k])%list. split; [simpl; now rewrite Hreq, app_assoc|]. split.
    + apply NoDup_app. split; [exact Hnd|]. split; [|apply NoDup_singleton].
      intros k' Hin Hk'. apply list_elem_of_singleton in Hk'. subst k'.
      rewrite List.Forall_forall in Hall.
      apply list_elem_of_In in Hin. destruct (Hall k Hin) as (_ & _ & [v Hv]). congruence.
    + apply Forall_app. split.
      * eapply List.Forall_impl; [|exact Hall]. intros k' (Hs & H0 & H1).
        split; [exact Hs|]. split; [exact H0|].
        simpl. rewrite lookup_insert. case_decide; eauto.
      * constructor; [|constructor]. split; [exact Hshort|]. split.
        -- eapply lookup_weaken_None; eassumption.
        -- simpl. rewrite lookup_insert_eq. eauto.
Qed.

Lemma resolveLeg_grown (w0 : world) (p q : coords) (st : state) :
  grown w0 (net st) -> grown w0 (net (snd (resolveLeg p q st))).
Proof.
  intros H. unfold resolveLeg. destruct (Qle_bool _ _); [|exact H].
  pose proof (getDistanceFromOSRM_shape p q (net st)) as Hs. cbv zeta in Hs.
  destruct (getDistanceFromOSRM p q None (net st)) as [d w']. simpl in *.
  destruct Hs as [[_ ->]|[(Hk & x & ->)|(Hk & Hshort & x & ->)]].
  - exact H.
  - now apply grown_cache_set.
  - now apply grown_send.
Qed.

Lemma runRides_grown (drivers : list Driver.t) (rides : list Ride.t) (st : state) :
  grown (net st) (net (runRides drivers rides st)).
Proof.
  apply (runRides_preserves (fun st' => grown (net st) (net st'))).
  - intros p q st'. apply resolveLeg_grown.
  - intros id c ride st' H. exact H.
  - apply grown_refl.
Qed.

(** X8. When the pair is not cached, the geometric distance is within the
    threshold and the query fails or brings no usable route (a rejected
    promise, a reply without data, without routes, with an empty route array
    or a null first route), the resolver returns the geometric distance,
    caches it and has sent exactly that one query; the cached value then
    answers every later resolution of the pair, whatever the service would
    reply by then. *)
Theorem unusable_reply_falls_back_and_sticks
    (startCoords endCoords : coords) (threshold : option Q) (w : world) :
  distanceCache w !! getDistanceCacheKey startCoords endCoords = None ->
  (haversineDistance startCoords endCoords <= default (30 : Q) threshold)%Q ->
  unusable (axios_get (length (requests w)) startCoords endCoords) = true ->
  let r := getDistanceFromOSRM startCoords endCoords threshold w in
  fst r = Some (haversineDistance startCoords endCoords)
  /\ distanceCache (snd r)
     = <[getDistanceCacheKey startCoords endCoords :=
           Some (haversineDistance startCoords endCoords)]> (distanceCache w)
  /\ requests (snd r) = (requests w ++ [getDistanceCacheKey startCoords endCoords])%list
  /\ (forall threshold',
        getDistanceFromOSRM startCoords endCoords threshold' (snd r)
        = (Some (haversineDistance startCoords endCoords), snd r)).
Proof.
  intros Hmiss Hnear Hbad. cbv zeta.
  rewrite (resolver_falls_back _ _ _ _ Hmiss Hnear Hbad). simpl.
  split; [reflexivity|]. split; [reflexivity|]. split; [reflexivity|].
  intros threshold'. apply getDistanceFromOSRM_hit. simpl. apply lookup_insert_eq.
Qed.

(** X9. The queries that a call of the engine sends are all for pairs of
    points at most 30 km apart that the cache had no distance for; no pair
    is queried twice in the call, and every queried pair is cached when the
    call returns. *)
Theorem engine_queries_short_legs_once
    (driversData : list Driver.t) (ridesData : list Ride.t) (w : world) :
  exists new,
    requests (world_after (assignDriversToRides driversData ridesData w))
    = (requests w ++ new)%list
    /\ NoDup new
    /\ (forall startCoords endCoords, In (startCoords, endCoords) new ->
          (haversineDistance startCoords endCoords <= 30)%Q
          /\ distanceCache w !! getDistanceCacheKey startCoords endCoords = None
          /\ is_Some (distanceCache
                        (world_after (assignDriversToRides driversData ridesData w))
                      !! getDistanceCacheKey startCoords endCoords)).
Proof.
  destruct (runRides_grown driversData (sortRides ridesData) (initialState driversData w))
    as [_ (new & Hreq & Hnd & Hall)].
  exists new. split; [exact Hreq|]. split; [exact Hnd|].
  intros s e Hin. rewrite List.Forall_forall in Hall. apply (Hall (s, e) Hin).
Qed.

(** X10. A call of the engine removes and overwrites nothing in the
    distance cache: every pair that was cached before the call is cached
    with the same value after it, and the resolver answers it from the cache
    without a query. *)
Theorem engine_keeps_cached_distances
    (driversData : list Driver.t) (ridesData : list Ride.t) (w : world) :
  distanceCache w ⊆ distanceCache (world_after (assignDriversToRides driversData ridesData w))
  /\ (forall startCoords endCoords v threshold,
        distanceCache w !! getDistanceCacheKey startCoords endCoords = Some v ->
        getDistanceFromOSRM startCoords endCoords threshold
          (world_after (assignDriversToRides driversData ridesData w))
        = (v, world_after (assignDriversToRides driversData ridesData w))).
Proof.
  destruct (runRides_grown driversData (sortRides ridesData) (initialState driversData w))
    as [Hsub _].
  split; [exact Hsub|].
  intros s e v thr Hv. apply getDistanceFromOSRM_hit.
  eapply lookup_weaken; [exact Hv|exact Hsub].
Qed.

(** ** The lookups of a run *)

(** X12. In every state that the outer loop reaches, and in every state of
    the inner loop on the way, the availability entry and the assignment
    entry of every driver of the list exist, and so does the assignment
    entry of the driver that the inner loop selects: no lookup of the engine
    comes back empty. *)
Theorem lookups_never_come_back_empty
    (drivers : list Driver.t) (rides : list Ride.t) (w : world)
    (driver : Driver.t) (st : state) :
  In driver drivers ->
  same_books (runRides drivers rides (initialState drivers w)) st ->
  is_Some (driverAvailability st !! Driver.driverId driver)
  /\ is_Some (findAssignment (Driver.driverId driver) (assignments st))
  /\ (forall ride bestDriverId minCost,
        committed (fst (chooseDriver drivers st ride)) = Some (bestDriverId, minCost) ->
        is_Some (findAssignment bestDriverId
                   (assignments (snd (chooseDriver drivers st ride))))
        /\ is_Some (find (fun d => String.eqb (Driver.driverId d) bestDriverId) drivers)).
Proof.
  intros Hin (Ha & Hd & _).
  assert (forall d, In d drivers ->
            is_Some (driverAvailability st !! Driver.driverId d)
            /\ is_Some (findAssignment (Driver.driverId d) (assignments st))) as Hall.
  { intros d Hd'. rewrite Ha, Hd. apply (lookups_always_succeed drivers rides w d Hd'). }
  destruct (Hall driver Hin) as [H1 H2]. split; [exact H1|]. split; [exact H2|].
  intros ride best c Hc. apply committed_selected in Hc as [Hc _].
  apply chooseDriver_selected in Hc as (d & st_k & Hd' & Hid & _ & _).
  destruct (chooseDriver_books drivers st ride) as (Ha' & _). rewrite Ha', <- Hid.
  split; [apply (Hall d Hd')|].
  destruct (find _ drivers) as [d'|] eqn:Hf; [eauto|].
  exfalso. eapply find_none in Hf; [|exact Hd']. simpl in Hf.
  now rewrite String.eqb_refl in Hf.
Qed.

(** ** The shape of the output *)

Lemma updateAssignment_ids (id : string) (f : Assignment.t -> Assignment.t)
    (l : list Assignment.t) :
  (forall a, Assignment.driverId (f a) = Assignment.driverId a) ->
  map Assignment.driverId (updateAssignment id f l) = map Assignment.driverId l.
Proof.
  intros Hf. induction l as [|a l IH]; simpl; [reflexivity|].
  destruct (String.eqb (Assignment.driverId a) id); simpl; [now rewrite Hf|now rewrite IH].
Qed.

Lemma runRides_ids (drivers : list Driver.t) (rides : list Ride.t) (w : world) :
  map Assignment.driverId (assignments (runRides drivers rides (initialState drivers w)))
  = map Driver.driverId drivers.
Proof.
  apply (runRides_preserves
           (fun st => map Assignment.driverId (assignments st) = map Driver.driverId drivers)).
  - intros p q st H. destruct (resolveLeg_books p q st) as (Ha & _). now rewrite Ha.
  - intros id c ride st H. simpl. now rewrite updateAssignment_ids.
  - simpl. rewrite map_map. reflexivity.
Qed.

Lemma busy_entries_first_tail (a : Assignment.t) (l : list Assignment.t) :
  busy_entries_first (a :: l) -> busy_entries_first l.
Proof.
  intros H i a' Hi Hne j a'' Hj Hj'.
  apply (H (S i) a' Hi Hne (S j) a''); [lia|exact Hj'].
Qed.

Lemma updateAssignment_busy_first (id : string) (f : Assignment.t -> Assignment.t)
    (l : list Assignment.t) :
  (forall a, Assignment.driverId (f a) = Assignment.driverId a) ->
  busy_entries_first l -> busy_entries_first (updateAssignment id f l).
Proof.
  intros Hf. induction l as [|a l IH]; intros H; simpl; [exact H|].
  destruct (String.eqb_spec (Assignment.driverId a) id) as [E|E].
  - intros [|i] a' Hi Hne [|j] a'' Hj Hj'; try lia; simpl in *.
    + injection Hj' as <-. rewrite Hf. apply (H (S i) a' Hi Hne 0%nat a); [lia|reflexivity].
    + apply (H (S i) a' Hi Hne (S j) a''); [lia|exact Hj'].
  - specialize (IH (busy_entries_first_tail _ _ H)).
    intros [|i] a' Hi Hne [|j] a'' Hj Hj'; try lia; simpl in *.
    + injection Hj' as <-.
      apply updateAssignment_lookup in Hi as [Hi|(a0 & Hi & Hid & ->)].
      * apply (H (S i) a' Hi Hne 0%nat a); [lia|reflexivity].
      * rewrite Hf. congruence.
    + apply (IH i a' Hi Hne j a''); [lia|exact Hj'].
Qed.

Lemma runRides_busy_first (drivers : list Driver.t) (rides : list Ride.t) (w : world) :
  busy_entries_first (assignments (runRides drivers rides (initialState drivers w))).
Proof.
  apply (runRides_preserves (fun st => busy_entries_first (assignments st))).
  - intros p q st H. destruct (resolveLeg_books p q st) as (Ha & _). now rewrite Ha.
  - intros id c ride st H. simpl. now apply updateAssignment_busy_first.
  - intros i a Hi Hne. exfalso. apply Hne. eapply initialState_empty, Hi.
Qed.

Lemma filteredAssignments_cons (a : Assignment.t) (l : list Assignment.t) :
  filteredAssignments (a :: l)
  = match Assignment.rideIds a with
    | [] => filteredAssignments l
    | _ :: _ => (Assignment.driverId a, Assignment.rideIds a) :: filteredAssignments l
    end.
Proof.
  unfold filteredAssignments. cbn [List.filter].
  destruct (Assignment.rideIds a) as [|x xs] eqn:E; [reflexivity|].
  change (0 <? Z.of_nat (length (x :: xs))) with true. cbn [map]. now rewrite E.
Qed.

Lemma filteredAssignments_nodup (l : list Assignment.t) :
  busy_entries_first l -> NoDup (map fst (filteredAssignments l)).
Proof.
  induction l as [|a l IH]; intros H; [constructor|].
  specialize (IH (busy_entries_first_tail _ _ H)).
  rewrite filteredAssignments_cons. destruct (Assignment.rideIds a) eqn:Ea; [exact IH|].
  simpl. constructor; [|exact IH].
  intros Hin. apply list_elem_of_In, in_map_iff in Hin as ([id ids] & Hid & Hin).
  simpl in Hid. subst id.
  apply filteredAssignments_In in Hin as (i & a' & Hi & Hid & Hids & Hne).
  apply (H (S i) a' Hi ltac:(congruence) 0%nat a); [lia|reflexivity|congruence].
Qed.

Lemma filteredAssignments_sublist (l : list Assignment.t) :
  map fst (filteredAssignments l) `sublist_of` map Assignment.driverId l.
Proof.
  induction l as [|a l IH]; [constructor|].
  rewrite filteredAssignments_cons. destruct (Assignment.rideIds a); simpl.
  - now apply sublist_cons.
  - now apply sublist_skip.
Qed.

(** X13. The returned assignments list the drivers in the order of the
    driver list, leaving out those that got no ride: the identities are a
    subsequence of the identities of the driver list, no identity occurs
    twice (the rides of drivers that share an identity are all in the one
    entry), and no entry has an empty list of rides. *)
Theorem output_follows_driver_order
    (driversData : list Driver.t) (ridesData : list Ride.t) (w : world) :
  let out := Result.assignments (returned (assignDriversToRides driversData ridesData w)) in
  map fst out `sublist_of` map Driver.driverId driversData
  /\ NoDup (map fst out)
  /\ Forall (fun entry => snd entry <> []) out.
Proof.
  cbv zeta. unfold assignDriversToRides. simpl.
  split; [|split].
  - rewrite <- (runRides_ids driversData (sortRides ridesData) w).
    apply filteredAssignments_sublist.
  - apply filteredAssignments_nodup, runRides_busy_first.
  - apply List.Forall_forall. intros [id ids] Hin.
    apply filteredAssignments_In in Hin as (_ & _ & _ & _ & _ & Hne). exact Hne.
Qed.

(** ** Empty input *)

Lemma filteredAssignments_initial (drivers : list Driver.t) :
  filteredAssignments (map initialAssignment drivers) = [].
Proof.
  induction drivers as [|d ds IH]; [reflexivity|].
  cbn [map]. now rewrite filteredAssignments_cons.
Qed.

Lemma runRides_no_drivers (rides : list Ride.t) (st : state) : runRides [] rides st = st.
Proof.
  revert st. induction rides as [|r rs IH]; intros st; [reflexivity|].
  cbn [runRides fold_left]. apply IH.
Qed.

(** X14. With no driver or with no ride the engine assigns nothing: the
    returned list is empty, the total cost is 0, no query is sent and the
    cache is left as it was. *)
Theorem empty_input_gives_empty_result
    (driversData : list Driver.t) (ridesData : list Ride.t) (w : world) :
  (Result.assignments (returned (assignDriversToRides [] ridesData w)) = []
   /\ (Result.totalCost (returned (assignDriversToRides [] ridesData w)) == 0)%Q
   /\ world_after (assignDriversToRides [] ridesData w) = w)
  /\ (Result.assignments (returned (assignDriversToRides driversData [] w)) = []
      /\ (Result.totalCost (returned (assignDriversToRides driversData [] w)) == 0)%Q
      /\ world_after (assignDriversToRides driversData [] w) = w).
Proof.
  split.
  - unfold assignDriversToRides. rewrite runRides_no_drivers. simpl.
    repeat split; reflexivity.
  - unfold assignDriversToRides. simpl.
    rewrite filteredAssignments_initial. repeat split; reflexivity.
Qed.

(** ** Sorting rides that are sorted *)

Lemma insertRide_least (x : Ride.t) (l : list Ride.t) :
  Forall (ride_le x) l -> insertRide x l = x :: l.
Proof.
  intros H. destruct l as [|y l]; [reflexivity|]. simpl.
  apply Forall_cons in H as [Hxy _]. unfold ride_le in Hxy.
  destruct (compareRides x y); [reflexivity|reflexivity|congruence].
Qed.

(** X15. Sorting leaves a list of rides that is already in the order of the
    comparator exactly as it is (rides with equal date and start time keep
    their places), so that sorting twice is sorting once: the engine does
    not reorder the array that [generateRidesData], which ends with the same
    sort, has produced. *)
Theorem sorted_rides_stay_in_place (rides : list Ride.t) :
  (StronglySorted ride_le rides -> sortRides rides = rides)
  /\ sortRides (sortRides rides) = sortRides rides.
Proof.
  assert (forall l, StronglySorted ride_le l -> sortRides l = l) as H.
  { intros l Hs. induction Hs as [|x l Hs IH Hx]; [reflexivity|].
    simpl. rewrite IH. now apply insertRide_least. }
  split; [apply H|apply H, sortRides_sorted].
Qed.

(** ** The rounding of the total *)

Lemma round2_close (x : Q) : (x - (1 # 200) < round2 x)%Q /\ (round2 x <= x + (1 # 200))%Q.
Proof.
  unfold round2, Math_round.
  pose proof (Qfloor_le (x * 100 + (1 # 2))) as Hl.
  pose proof (Qlt_floor (x * 100 + (1 # 2))) as Hu.
  rewrite inject_Z_plus in Hu. change (inject_Z 1) with 1%Q in Hu.
  set (n := inject_Z (Qfloor (x * 100 + (1 # 2)))) in *.
  split.
  - apply Qlt_shift_div_l; [reflexivity|]. lra.
  - apply Qle_shift_div_r; [reflexivity|]. lra.
Qed.

(** X16. The returned total cost is a whole number of hundredths and lies
    within half a hundredth of the exact sum of the costs of the committed
    assignments: above the sum less 0.005, and at most the sum plus 0.005. *)
Theorem totalCost_is_rounded_to_cents
    (driversData : list Driver.t) (ridesData : list Ride.t) (w : world) :
  let total := Qsum (acceptedCosts driversData (sortRides ridesData)
                                   (initialState driversData w)) in
  let reported :=
    Result.totalCost (returned (assignDriversToRides driversData ridesData w)) in
  (total - (1 # 200) < reported)%Q
  /\ (reported <= total + (1 # 200))%Q
  /\ exists cents : Z, reported = (inject_Z cents / 100)%Q.
Proof.
  cbv zeta. unfold assignDriversToRides. simpl.
  pose proof (runRides_totalCost driversData (sortRides ridesData)
                (initialState driversData w)) as Ht.
  simpl in Ht. rewrite Qplus_0_l in Ht.
  rewrite (round2_proper _ _ Ht).
  destruct (round2_close (Qsum (acceptedCosts driversData (sortRides ridesData)
                                  (initialState driversData w)))) as [Hl Hu].
  split; [exact Hl|]. split; [exact Hu|]. eexists. reflexivity.
Qed.

(** ** What the committed rides of a driver satisfy *)

Lemma evaluate_checked (st : state) (ride : Ride.t) (driver : Driver.t) (cost : jsnum) :
  fst (evaluate st ride driver) = Some cost ->
  statically_excluded ride driver = false
  /\ exists driverAssignment,
       findAssignment (Driver.driverId driver) (assignments st) = Some driverAssignment
       /\ wouldExceedDailyHours driverAssignment driver ride = false.
Proof.
  unfold evaluate, statically_excluded.
  destruct (Driver.numberOfSeats driver <? Ride.numberOfSeats ride); [discriminate|].
  destruct (driverAvailability st !! Driver.driverId driver) as [av|]; [|discriminate].
  destruct (isTimeAfter (Availability.busyUntil av) (Ride.startTime ride)); [discriminate|].
  destruct (isDriverOnShift driver _ _); [|discriminate]. simpl.
  destruct (isAddressBlocked driver (Ride.startPoint ride)); [discriminate|].
  destruct (isAddressBlocked driver (Ride.endPoint ride)); [discriminate|]. simpl.
  destruct (findAssignment _ _) as [a|]; [|discriminate].
  destruct (wouldExceedDailyHours a driver ride) eqn:Hcap; [discriminate|].
  intros _. split; [reflexivity|]. now exists a.
Qed.

Lemma driver_of_id (drivers : list Driver.t) (d1 d2 : Driver.t) :
  NoDup (map Driver.driverId drivers) -> In d1 drivers -> In d2 drivers ->
  Driver.driverId d1 = Driver.driverId d2 -> d1 = d2.
Proof.
  induction drivers as [|d ds IH]; simpl; [tauto|].
  rewrite NoDup_cons. intros [Hd Hnd] [->|H1] [->|H2] E; auto.
  - exfalso. apply Hd. rewrite E. apply list_elem_of_In, in_map. exact H2.
  - exfalso. apply Hd. rewrite <- E. apply list_elem_of_In, in_map. exact H1.
Qed.

Lemma runRides_ids_from (drivers : list Driver.t) (rides : list Ride.t) (st : state) :
  map Assignment.driverId (assignments (runRides drivers rides st))
  = map Assignment.driverId (assignments st).
Proof.
  apply (runRides_preserves
           (fun st' => map Assignment.driverId (assignments st')
                       = map Assignment.driverId (assignments st))).
  - intros p q st' H. destruct (resolveLeg_books p q st') as (Ha & _). now rewrite Ha.
  - intros id c ride st' H. simpl. now rewrite updateAssignment_ids.
  - reflexivity.
Qed.

Lemma lookup_driverId (l l' : list Assignment.t) (i : nat) (a a' : Assignment.t) :
  map Assignment.driverId l' = map Assignment.driverId l ->
  l !! i = Some a -> l' !! i = Some a' ->
  Assignment.driverId a' = Assignment.driverId a.
Proof.
  intros E Hi Hi'.
  assert (map Assignment.driverId l' !! i = Some (Assignment.driverId a')) as H'
    by (rewrite list_lookup_fmap, Hi'; reflexivity).
  assert (map Assignment.driverId l !! i = Some (Assignment.driverId a)) as H
    by (rewrite list_lookup_fmap, Hi; reflexivity).
  congruence.
Qed.

(** A ride in an entry of the final state was in the entry at the start,
    or the inner loop selected the driver of the entry for it. *)
Lemma runRides_entry_committed (drivers : list Driver.t) (rides : list Ride.t)
    (st : state) (i : nat) (a : Assignment.t) (x : string) :
  assignments (runRides drivers rides st) !! i = Some a ->
  In x (Assignment.rideIds a) ->
  (exists a0, assignments st !! i = Some a0 /\ In x (Assignment.rideIds a0))
  \/ exists r st' c,
       In r rides /\ Ride._id r = x
       /\ committed (fst (chooseDriver drivers st' r)) = Some (Assignment.driverId a, c).
Proof.
  revert st. induction rides as [|r rs IH]; intros st; cbn [runRides fold_left].
  { intros Hi Hx. left. eauto. }
  intros Hi Hx. destruct (IH _ Hi Hx) as [(a1 & Hi1 & Hx1)|(r' & st' & c & Hr' & Hid & Hc)].
  - pose proof (lookup_driverId _ _ _ _ _
                  (runRides_ids_from drivers rs (processRide drivers st r)) Hi1 Hi) as Hsame.
    destruct (committed (fst (chooseDriver drivers st r))) as [[best c]|] eqn:Hc.
    + destruct (processRide_committed _ _ _ _ _ Hc) as (Hasg & _). rewrite Hasg in Hi1.
      apply updateAssignment_lookup in Hi1 as [Hi1|(a0 & Hi0 & Hbest & ->)].
      * left. eauto.
      * simpl in Hx1, Hsame. apply in_app_or in Hx1 as [Hx1|[<-|[]]].
        -- left. eauto.
        -- right. exists r, st, c. split; [now left|]. split; [reflexivity|].
           rewrite Hc. congruence.
    + destruct (processRide_dropped _ _ _ Hc) as (Hasg & _). rewrite Hasg in Hi1.
      left. eauto.
  - right. exists r', st', c. split; [now right|]. auto.
Qed.

(** X17. With distinct driver identities and distinct ride identities,
    every ride in a driver's returned list passed the driver's static
    checks: the driver has at least the seats the ride asks for, is on shift
    for the ride's start and end, and blocks neither its start address nor
    its end address. *)
Theorem assigned_rides_pass_static_checks
    (driversData : list Driver.t) (ridesData : list Ride.t) (w : world)
    (driver : Driver.t) (ride : Ride.t) (rideIds : list string) :
  NoDup (map Driver.driverId driversData) ->
  NoDup (map Ride._id ridesData) ->
  In driver driversData ->
  In ride ridesData ->
  In (Driver.driverId driver, rideIds)
     (Result.assignments (returned (assignDriversToRides driversData ridesData w))) ->
  In (Ride._id ride) rideIds ->
  Ride.numberOfSeats ride <= Driver.numberOfSeats driver
  /\ isDriverOnShift driver (Ride.startTime ride) (Ride.endTime ride) = true
  /\ isAddressBlocked driver (Ride.startPoint ride) = false
  /\ isAddressBlocked driver (Ride.endPoint ride) = false.
Proof.
  intros Hnd Hnr Hd Hr Hout Hx. unfold assignDriversToRides in Hout. simpl in Hout.
  apply filteredAssignments_In in Hout as (i & a & Hi & Hid & Hids & _). subst rideIds.
  apply (runRides_entry_committed _ _ _ _ _ _ Hi) in Hx
    as [(a0 & Hi0 & Hx0)|(r & st' & c & Hr' & Hrid & Hc)].
  { apply initialState_empty in Hi0. rewrite Hi0 in Hx0. destruct Hx0. }
  assert (In r ridesData) as Hr''.
  { eapply Permutation_in; [symmetry; apply sortRides_perm|exact Hr']. }
  assert (r = ride) as -> by (apply (ride_of_id ridesData); auto).
  apply committed_selected in Hc as [Hc _].
  apply chooseDriver_selected in Hc as (d & st_k & Hd' & Hdid & _ & He).
  assert (d = driver) as -> by (apply (driver_of_id driversData); auto; congruence).
  apply evaluate_checked in He as [Hstatic _].
  unfold statically_excluded in Hstatic.
  apply orb_false_elim in Hstatic as [Hstatic Hend].
  apply orb_false_elim in Hstatic as [Hstatic Hstart].
  apply orb_false_elim in Hstatic as [Hseats Hshift].
  apply Z.ltb_ge in Hseats. apply negb_false_iff in Hshift. auto.
Qed.

(** ** The daily cap *)








(** ** When a ride is dropped *)

(** X18. When no driver has the empty string as identity, a ride is dropped
    by the inner loop exactly when no driver's evaluation gives a cost that
    is a number: a ride for which some driver passes every check with a
    numeric cost is always committed. *)
Theorem ride_is_dropped_only_without_candidate
    (drivers : list Driver.t) (st : state) (ride : Ride.t) :
  forallb (fun d => negb (String.eqb (Driver.driverId d) "")) drivers = true ->
  committed (fst (chooseDriver drivers st ride)) = None
  <-> (forall k driver c,
         evaluations drivers st ride !! k = Some (driver, Some (Some c)) -> False).
Proof.
  intros Hids. pose proof (chooseDriver_first_minimum drivers st ride) as Hmin.
  destruct (fst (chooseDriver drivers st ride)) as [[id c]|] eqn:Hs; simpl in *.
  - destruct Hmin as (_ & _ & [Habs|(k & driver & Hk & Hid & _)]); [discriminate|].
    destruct (evaluations_lookup _ _ _ _ _ _ Hk) as [Hin _].
    rewrite forallb_forall in Hids. specialize (Hids driver Hin).
    rewrite Hid in Hids. apply negb_true_iff in Hids. rewrite Hids.
    split; [discriminate|]. intros Hnone. exfalso. eapply Hnone, Hk.
  - destruct Hmin as [_ Hnone]. split; [intros _; exact Hnone|reflexivity].
Qed.

(** ** The order in which the rides are given *)

Lemma ride_le_antisym (a b : Ride.t) :
  ride_le a b -> ride_le b a ->
  Ride.date a = Ride.date b /\ Ride.startTime a = Ride.startTime b.
Proof.
  intros Hab Hba.
  apply compareRides_le in Hab as [[Hne Hab]|[Heq Hab]];
    apply compareRides_le in Hba as [[Hne' Hba]|[Heq' Hba]].
  - exfalso. apply Hne. now apply str_le_antisym.
  - congruence.
  - congruence.
  - split; [exact Heq|]. now apply str_le_antisym.
Qed.

Lemma sorted_perm_eq (l1 l2 : list Ride.t) :
  (forall a b, In a l1 -> In b l1 -> ride_le a b -> ride_le b a -> a = b) ->
  StronglySorted ride_le l1 -> StronglySorted ride_le l2 ->
  Permutation l1 l2 -> l1 = l2.
Proof.
  intros Hanti Hs1. revert l2 Hanti.
  induction Hs1 as [|x l1 Hs1 IH Hx]; intros l2 Hanti Hs2 Hp.
  { symmetry. now apply Permutation_nil. }
  destruct Hs2 as [|y l2 Hs2 Hy].
  { symmetry in Hp. apply Permutation_nil in Hp. discriminate. }
  assert (x = y) as <-.
  { assert (In x (y :: l2)) as Hxin by (eapply Permutation_in; [exact Hp|now left]).
    assert (In y (x :: l1)) as Hyin
      by (eapply Permutation_in; [symmetry; exact Hp|now left]).
    destruct Hxin as [->|Hxin]; [reflexivity|].
    destruct Hyin as [->|Hyin]; [reflexivity|].
    rewrite List.Forall_forall in Hx, Hy.
    apply Hanti; [now left|now right|now apply Hx|now apply Hy]. }
  f_equal. apply IH; [|exact Hs2|eapply Permutation_cons_inv; exact Hp].
  intros a b Ha Hb. apply Hanti; now right.
Qed.

(** X19. When no two rides of the input have the same date and start time,
    the outcome of the engine does not depend on the order in which the
    rides are given: two arrays that hold the same rides are sorted into the
    same array and give the same assignments, total cost and cache. *)
Theorem result_does_not_depend_on_ride_order
    (driversData : list Driver.t) (ridesData ridesData' : list Ride.t) (w : world) :
  (forall a b, In a ridesData -> In b ridesData ->
     Ride.date a = Ride.date b -> Ride.startTime a = Ride.startTime b -> a = b) ->
  Permutation ridesData ridesData' ->
  assignDriversToRides driversData ridesData' w
  = assignDriversToRides driversData ridesData w.
Proof.
  intros Hkeys Hp.
  assert (sortRides ridesData = sortRides ridesData') as E.
  { apply sorted_perm_eq; [|apply sortRides_sorted|apply sortRides_sorted|].
    - intros a b Ha Hb Hab Hba.
      destruct (ride_le_antisym _ _ Hab Hba) as [Hd Ht].
      apply Hkeys; [| |exact Hd|exact Ht];
        (eapply Permutation_in; [symmetry; apply sortRides_perm|assumption]).
    - etransitivity; [symmetry; apply sortRides_perm|].
      etransitivity; [exact Hp|apply sortRides_perm]. }
  unfold assignDriversToRides. now rewrite E.
Qed.

(** ** The drivers of the generator *)

Lemma Qfloor_scaled (random : Q) (n : Z) :
  0 <= n -> (0 <= random)%Q -> (random <= 1)%Q ->
  0 <= Qfloor (random * inject_Z n) <= n.
Proof.
  intros Hn H0 H1.
  assert (0 <= inject_Z n)%Q as Hn' by (change 0%Q with (inject_Z 0); now rewrite <- Zle_Qle).
  apply Qfloor_between.
  - change (inject_Z 0) with 0%Q. now apply Qmult_le_0_compat.
  - rewrite <- (Qmult_1_l (inject_Z n)) at 2. now apply Qmult_le_compat_r.
Qed.

(** X20. Every driver record of [generateDriversData], whatever values in
    [0, 1] the random source gives: its shift is one of three [HH:MM]
    windows, at least six hours long and not over midnight; it has 4 to 9
    seats; its fuel cost is between 0.5 and 0.8, so not negative; its
    [maxDailyWorkHours] is a whole number from 6 to 11, so never the 0 that
    the engine reads as no cap. *)
Theorem generated_driver_is_well_formed (i : Z) (city : string) (coords : coords)
    (randomShift1 randomShift2 randomSeats randomFuel randomHours : Q)
    (blockedAddresses : list string) :
  (0 <= randomSeats)%Q -> (randomSeats <= 1)%Q ->
  (0 <= randomFuel)%Q -> (randomFuel <= 1)%Q ->
  (0 <= randomHours)%Q -> (randomHours <= 1)%Q ->
  let driver := generatedDriver i city coords randomShift1 randomShift2
                  randomSeats randomFuel randomHours blockedAddresses in
  wf_driver driver = true
  /\ overnight_shift driver = false
  /\ (exists shiftStart shiftEnd,
        Driver.shiftStart driver = Some shiftStart
        /\ Driver.shiftEnd driver = Some shiftEnd
        /\ 360 <= minutesOf shiftEnd - minutesOf shiftStart)
  /\ 4 <= Driver.numberOfSeats driver <= 9
  /\ (0.5 <= Driver.fuelCost driver)%Q /\ (Driver.fuelCost driver <= 0.8)%Q
  /\ (exists hours : Z,
        Driver.maxDailyWorkHours driver = Some (inject_Z hours)
        /\ 6 <= hours <= 11
        /\ cap_when_truthy driver = Some (inject_Z hours)).
Proof.
  intros S0 S1 F0 F1 H0 H1. cbv zeta. unfold generatedDriver.
  pose proof (Qfloor_scaled randomSeats 5 ltac:(lia) S0 S1) as Hseats.
  pose proof (Qfloor_scaled randomHours 5 ltac:(lia) H0 H1) as Hhours.
  change (inject_Z 5) with 5%Q in Hseats, Hhours.
  assert (50 <= Math_round ((randomFuel * 0.3 + 0.5) * 100) <= 80) as Hfuel.
  { unfold Math_round.
    assert (0 <= randomFuel * 0.3)%Q by (apply Qmult_le_0_compat; [exact F0|discriminate]).
    assert (randomFuel * 0.3 <= 1 * 0.3)%Q
      by (apply Qmult_le_compat_r; [exact F1|discriminate]).
    split.
    - rewrite <- (Qfloor_Z 50). apply Qfloor_resp_le.
      change (inject_Z 50) with 50%Q. lra.
    - assert (Qfloor ((randomFuel * 0.3 + 0.5) * 100 + (1 # 2)) < 81); [|lia].
      rewrite Zlt_Qlt. eapply Qle_lt_trans; [apply Qfloor_le|].
      change (inject_Z 81) with 81%Q. lra. }
  set (cents := Math_round _) in *. set (seats := Qfloor (randomSeats * 5)) in *.
  set (hours := Qfloor (randomHours * 5)) in *.
  assert (0.5 <= inject_Z cents / 100 /\ inject_Z cents / 100 <= 0.8)%Q as [Hf0 Hf1].
  { assert (inject_Z 50 <= inject_Z cents)%Q as A by (rewrite <- Zle_Qle; lia).
    assert (inject_Z cents <= inject_Z 80)%Q as B by (rewrite <- Zle_Qle; lia).
    change (inject_Z 50) with 50%Q in A. change (inject_Z 80) with 80%Q in B.
    split.
    - apply Qle_shift_div_l; [reflexivity|]. lra.
    - apply Qle_shift_div_r; [reflexivity|]. lra. }
  assert (cap_when_truthy
            {| Driver.driverId := "driver" +:+ String_of (Some (i + 1));
               Driver.city := city; Driver.city_coords := coords;
               Driver.numberOfSeats := seats + 4;
               Driver.fuelCost := (inject_Z cents / 100)%Q;
               Driver.shiftStart := None; Driver.shiftEnd := None;
               Driver.maxDailyWorkHours := Some (inject_Z (hours + 6));
               Driver.blockedAddresses := Some blockedAddresses |}
          = Some (inject_Z (hours + 6))) as Hcap.
  { unfold cap_when_truthy, truthy_number. simpl.
    destruct (Qeq_bool (inject_Z (hours + 6)) 0) eqn:Hz; [|reflexivity].
    apply Qeq_bool_iff in Hz. unfold Qeq in Hz. simpl in Hz. lia. }
  unfold cap_when_truthy in *. simpl in Hcap.
  destruct (drawShiftType randomShift1 randomShift2); simpl;
    (split; [reflexivity|]; split; [reflexivity|];
     split; [eexists _, _; split; [reflexivity|]; split; [reflexivity|];
             vm_compute; discriminate|];
     split; [lia|]; split; [exact Hf0|]; split; [exact Hf1|];
     exists (hours + 6); split; [reflexivity|]; split; [lia|exact Hcap]).
Qed.
End Engine.

(** ** The sample inputs *)

Lemma grid_distance_nonneg (a b : coords) : (0 <= grid_distance a b)%Q.
Proof.
  unfold grid_distance.
  pose proof (Qabs_nonneg (this (fst b) - this (fst a))).
  pose proof (Qabs_nonneg (this (snd b) - this (snd a))).
  apply Qmult_le_0_compat; [discriminate|lra].
Qed.

Lemma service_up_nonneg (n : nat) (a b : coords) : reply_nonneg (service_up n a b) = true.
Proof.
  simpl. apply Qle_bool_iff. apply Qmult_le_0_compat; [discriminate|apply grid_distance_nonneg].
Qed.

Lemma cold_nonneg : cache_nonneg cold.
Proof. apply map_Forall_empty. Qed.

Example parse_0930 : parseTime "09:30" = (Some 9, Some 30).
Proof. reflexivity. Qed.

Example add_0930_45 : addMinutesToTime "09:30" (Some 45) = "10:15".
Proof. reflexivity. Qed.

Example add_2330_45 : addMinutesToTime "23:30" (Some 45) = "24:15".
Proof. reflexivity. Qed.

Example add_nan : addMinutesToTime "09:30" None = "NaN:NaN".
Proof. reflexivity. Qed.

Example after_nan : isTimeAfter "NaN:NaN" "09:30" = false.
Proof. reflexivity. Qed.

Example includes_lowercase :
  includes (toLowerCase "Tel Aviv, Israel") (toLowerCase "AVIV") = true.
Proof. reflexivity. Qed.

(** The scenario of the specification: one driver at the start point, one
    ride of thirty minutes; with the service down the cost is
    [(30 / 60) * 30 + 22.2 * 0.6 + 0]. *)
Example scenario_one_ride :
  returned (assignDriversToRides grid_distance service_down [driver1] [ride1] cold)
  = {| Result.assignments := [("driver1", ["ride1"])];
       Result.totalCost := round2 28.32 |}.
Proof. vm_compute. reflexivity. Qed.

(** ** C6 *)

Lemma threshold_skips_query_and_cache_saves_it_witness :
  fst (getDistanceFromOSRM grid_distance service_up depot suburb None cold)
  = Some (grid_distance depot suburb)
  /\ requests (snd (getDistanceFromOSRM grid_distance service_up depot suburb None cold)) = []
  /\ (30 < grid_distance depot suburb)%Q.
Proof.
  assert (distanceCache cold !! getDistanceCacheKey depot suburb = None) as Hmiss
    by reflexivity.
  assert (default (30 : Q) None < grid_distance depot suburb)%Q as Hfar by reflexivity.
  destruct (proj1 (threshold_skips_query_and_cache_saves_it
                     grid_distance service_up depot suburb None cold) Hmiss Hfar)
    as (Hvalue & Hquiet & _).
  split; [exact Hvalue|]. split; [exact Hquiet|exact Hfar].
Defined.

(** ** C7 *)

(** C7, at a reply the code does not recover from. The two points are 22.2 km
    apart, so the service is queried; it answers with a route object that
    has no numeric distance; the resolver returns [NaN] and caches [NaN],
    where the fallback would be the geometric 22.2. *)
Theorem garbled_route_yields_NaN :
  (grid_distance depot nearby == 22.2)%Q
  /\ unusable (service_garbled 0 depot nearby) = false
  /\ fst (getDistanceFromOSRM grid_distance service_garbled depot nearby None cold) = None
  /\ distanceCache
       (snd (getDistanceFromOSRM grid_distance service_garbled depot nearby None cold))
     !! getDistanceCacheKey depot nearby = Some None
  /\ fst (evaluate grid_distance service_garbled (initialState [driver1] cold) ride1 driver1)
     = Some None.
Proof. repeat split; vm_compute; reflexivity. Qed.

(** ** C1 *)



(** The travel minutes are not always the ceiling of the distance: the
    quotient of 31 by 60, rounded to binary64 and multiplied by 60, is
    [31 + 2^-48], of which the ceiling is 32. *)
Example travel_minutes_of_31_km :
  travelMinutes (Some 31%Q) = Some 32
  /\ Qceiling 31 = 31
  /\ (binary64 (binary64 (31 / 60) * 60) == 31 + (1 # 281474976710656))%Q
  /\ travelMinutes (Some 30%Q) = Some 30.
Proof. repeat split; vm_compute; reflexivity. Qed.

(** With a routed empty leg of 31 km, [driver1], free from 08:00, is
    skipped for a ride that starts at 08:31, although 08:00 plus
    [ceil(31)] minutes is not after 08:31; the driver is evaluated for the
    same ride with the service down, the geometric leg being 22.2 km. *)
Example routed_leg_of_31_km_takes_32_minutes :
  (exists e, emptyLeg grid_distance service_31km (initialState [driver1] cold)
               (initialAvailability driver1) ride_0831 = Some e
             /\ (e == 31)%Q)
  /\ minutesOf "08:00" + Qceiling 31 <= minutesOf (Ride.startTime ride_0831)
  /\ isTimeAfter (addMinutesToTime "08:00" (travelMinutes (Some 31%Q)))
                 (Ride.startTime ride_0831) = true
  /\ fst (evaluate grid_distance service_31km (initialState [driver1] cold)
            ride_0831 driver1) = None
  /\ is_Some (fst (evaluate grid_distance service_down (initialState [driver1] cold)
                     ride_0831 driver1)).
Proof.
  split; [eexists; split; vm_compute; reflexivity|].
  split; [vm_compute; discriminate|]. split; [vm_compute; reflexivity|].
  split; [vm_compute; reflexivity|]. vm_compute. eexists. reflexivity.
Qed.

(** ** C2 *)

(** C2 as stated fails for a ride that ends before it starts: it is
    committed, its driver-time cost is negative, and so is the total. *)
Lemma inverted_ride_makes_total_negative :
  returned (assignDriversToRides grid_distance service_down [driver2] [ride_inverted] cold)
  = {| Result.assignments := [("driver2", ["ride3"])];
       Result.totalCost := round2 (-37.8) |}
  /\ (round2 (-37.8) < 0)%Q.
Proof. split; vm_compute; reflexivity. Qed.

Lemma minimum_cost_driver_and_total_witness :
  (0 <= Result.totalCost
          (returned (assignDriversToRides grid_distance service_up [driver1; driver2]
                       [ride2; ride1; ride_next_day] cold)))%Q
  /\ Result.totalCost
       (returned (assignDriversToRides grid_distance service_up [driver1; driver2]
                    [ride2; ride1; ride_next_day] cold))
     = round2 (Qsum (acceptedCosts grid_distance service_up [driver1; driver2]
                       (sortRides [ride2; ride1; ride_next_day])
                       (initialState [driver1; driver2] cold))).
Proof.
  destruct (minimum_cost_driver_and_total grid_distance service_up [driver1; driver2]
              [ride2; ride1; ride_next_day] cold) as (_ & _ & Htotal & Hnonneg).
  split; [|exact Htotal].
  apply Hnonneg.
  - exact grid_distance_nonneg.
  - exact service_up_nonneg.
  - exact cold_nonneg.
  - reflexivity.
  - reflexivity.
Defined.

(** ** C3 *)

(** C3 as stated fails in its last part when the service reports a route
    for a leg from a point to itself: the driver is at the start point of the
    ride, the resolver returns the five kilometres of the service, and the
    empty-leg fuel term is [5 * 0.6]. *)
Lemma looping_service_charges_empty_leg :
  Availability.lastRideEndPoint_coords (initialAvailability driver1)
  = Ride.startPoint_coords ride1
  /\ driverAvailability (initialState [driver1] cold) !! "driver1"
     = Some (initialAvailability driver1)
  /\ exists e c,
       emptyLeg grid_distance service_loop (initialState [driver1] cold)
                (initialAvailability driver1) ride1 = Some e
       /\ (e * Driver.fuelCost driver1 == 3)%Q
       /\ fst (evaluate grid_distance service_loop (initialState [driver1] cold) ride1 driver1)
          = Some (Some c)
       /\ (c == 30 / 60 * 30 + 5 * 0.6 + 3)%Q.
Proof.
  split; [reflexivity|]. split; [vm_compute; reflexivity|].
  eexists _, _. split; [vm_compute; reflexivity|]. split; [vm_compute; reflexivity|].
  split; vm_compute; reflexivity.
Qed.

Lemma assignment_cost_formula_witness :
  exists c z,
    fst (evaluate grid_distance service_up (initialState [driver1] cold) ride1 driver1)
    = Some (Some c)
    /\ (c == 30 / 60 * 30 + binary64 33.3 * 0.6 + 0 * 0.6)%Q
    /\ num_mul (emptyLeg grid_distance service_up (initialState [driver1] cold)
                         (initialAvailability driver1) ride1)
               (Some (Driver.fuelCost driver1)) = Some z
    /\ (z == 0)%Q.
Proof.
  set (st := initialState [driver1] cold).
  set (E := evaluate grid_distance service_up st ride1 driver1).
  assert (E = (Some (default None (fst E)), snd E)) as Hev by (vm_compute; reflexivity).
  destruct (assignment_cost_formula grid_distance service_up st ride1 driver1
              (default None (fst E)) (snd E) eq_refl Hev)
    as (av & Hav & _ & Hnum & Hzero).
  assert (av = initialAvailability driver1) as ->.
  { assert (driverAvailability st !! Driver.driverId driver1
            = Some (initialAvailability driver1)) as H by (vm_compute; reflexivity).
    rewrite H in Hav. now injection Hav. }
  destruct (Hzero eq_refl eq_refl eq_refl eq_refl) as (z & Hz & Hz0).
  destruct (Hnum (binary64 (1500 * grid_distance depot depot / 1000))%Q
                 (binary64 (1500 * grid_distance depot nearby / 1000))%Q)
    as (c & Hc & Hc').
  - vm_compute. reflexivity.
  - vm_compute. reflexivity.
  - exists c, z. split; [now rewrite <- Hc|]. split; [|split; [exact Hz|exact Hz0]].
    rewrite Hc'. vm_compute. reflexivity.
Defined.

(** ** C4 *)



(** ** C5 *)

(** C5 as stated fails when a ride ends before it starts: after [ride1] the
    driver is busy until 09:30; the inverted ride starts at 10:00, is
    committed, and moves [busyUntil] back to 08:00. *)
Lemma inverted_ride_moves_busyUntil_back :
  let st1 := processRide grid_distance service_down [driver2]
               (initialState [driver2] cold) ride1 in
  let st2 := processRide grid_distance service_down [driver2] st1 ride_inverted in
  Availability.busyUntil <$> driverAvailability st1 !! "driver2" = Some "09:30"
  /\ Availability.busyUntil <$> driverAvailability st2 !! "driver2" = Some "08:00"
  /\ isTimeAfter "09:30" "08:00" = true
  /\ Assignment.rideIds <$> assignments st2 = [["ride1"; "ride3"]].
Proof. repeat split; vm_compute; reflexivity. Qed.

Lemma busyUntil_is_monotone_witness :
  exists av1 av2,
    driverAvailability
      (runRides grid_distance service_up [driver1] [ride1] (initialState [driver1] cold))
      !! "driver1" = Some av1
    /\ driverAvailability
         (runRides grid_distance service_up [driver1] [ride2; ride_next_day]
            (runRides grid_distance service_up [driver1] [ride1]
               (initialState [driver1] cold)))
         !! "driver1" = Some av2
    /\ minutesOf (Availability.busyUntil av1) <= minutesOf (Availability.busyUntil av2).
Proof.
  destruct (busyUntil_is_monotone grid_distance service_up [driver1]
              [ride2; ride1; ride_next_day] cold [ride1] [ride2; ride_next_day]
              eq_refl eq_refl eq_refl) as [Hmono _].
  assert (driverAvailability
            (runRides grid_distance service_up [driver1] [ride1]
               (initialState [driver1] cold)) !! "driver1" = Some (endState ride1)) as H1
    by (vm_compute; reflexivity).
  destruct (Hmono "driver1" (endState ride1) H1) as (av2 & H2 & Hle & _).
  exists (endState ride1), av2. split; [exact H1|]. split; [exact H2|exact Hle].
Defined.

(** ** C8 *)

(** C8 as stated fails for a ride that crosses midnight and a driver
    without a shift: the ride, from 23:30 to 00:15, is committed, and its
    negative driver-time cost makes the total negative. *)
Lemma night_ride_is_assigned :
  returned (assignDriversToRides grid_distance service_down [driver2] [ride_night] cold)
  = {| Result.assignments := [("driver2", ["ride4"])];
       Result.totalCost := round2 (-686.4) |}
  /\ isTimeAfter (Ride.startTime ride_night) (Ride.endTime ride_night) = true.
Proof. split; vm_compute; reflexivity. Qed.

Lemma off_shift_ride_is_dropped_witness :
  forallb (shift_ends_before ride_late) [driver1] = true
  /\ off_shift_for_all [driver1] ride_late = true
  /\ processRide grid_distance service_up [driver1] (initialState [driver1] cold) ride_late
     = initialState [driver1] cold
  /\ Result.assignments
       (returned (assignDriversToRides grid_distance service_up [driver1]
                    [ride_late; ride1] cold))
     = [("driver1", ["ride1"])].
Proof.
  destruct (off_shift_ride_is_dropped grid_distance service_up [driver1]
              [ride_late; ride1] cold ride_late) as [Hlate Hdrop].
  pose proof (Hlate eq_refl eq_refl) as Hoff.
  destruct (Hdrop Hoff) as [Hstep _].
  split; [reflexivity|]. split; [exact Hoff|].
  split; [apply Hstep|vm_compute; reflexivity].
Defined.

(** ** C9 *)

Lemma availability_is_never_reset_witness :
  Ride.date ride1 = "2023-06-01" /\ Ride.date ride_next_day = "2023-06-02"
  /\ isTimeAfter (Ride.endTime ride1) (Ride.startTime ride_next_day) = true
  /\ ~ evaluated grid_distance service_up
         (runRides grid_distance service_up [driver1] [ride_late]
            (processRide grid_distance service_up [driver1]
               (initialState [driver1] cold) ride1))
         ride_next_day driver1.
Proof.
  destruct (availability_is_never_reset grid_distance service_up [driver1])
    as (_ & _ & _ & Hgate & _).
  split; [reflexivity|]. split; [reflexivity|]. split; [reflexivity|].
  eapply (Hgate (initialState [driver1] cold) ride1 _ [ride_late]).
  - vm_compute. reflexivity.
  - vm_compute. reflexivity.
  - reflexivity.
Defined.

(** ** C10 *)

Lemma rides_are_sorted_in_place_witness :
  forallb wf_sort_key [ride2; ride_next_day; ride1] = true
  /\ ridesData_after (assignDriversToRides grid_distance service_up [driver1]
                        [ride2; ride_next_day; ride1] cold)
     = [ride1; ride2; ride_next_day]
  /\ dateNumber (Ride.date ride2) <= dateNumber (Ride.date ride_next_day)
  /\ minutesOf (Ride.startTime ride1) <= minutesOf (Ride.startTime ride2).
Proof.
  destruct (rides_are_sorted_in_place grid_distance service_up [driver1]
              [ride2; ride_next_day; ride1] cold eq_refl) as (_ & Horder & _).
  split; [reflexivity|]. split; [vm_compute; reflexivity|]. split.
  - apply (Horder 1%nat 2%nat ride2 ride_next_day); [lia|reflexivity|reflexivity].
  - apply (Horder 0%nat 1%nat ride1 ride2); [lia|reflexivity|reflexivity|reflexivity].
Defined.

(** The order of the sort is that of the strings: start times that are not
    padded to two digits are not sorted by the hour. *)
Example unpadded_times_are_sorted_as_text :
  map Ride._id (sortRides [ride_9; ride_10]) = ["ride13"; "ride12"]
  /\ timeToMinutes "9:00" = Some 540
  /\ timeToMinutes "10:00" = Some 600.
Proof. repeat split; vm_compute; reflexivity. Qed.


(** ** Instances of the further properties *)

Lemma addMinutesToTime_round_trip_witness :
  addMinutesToTime "23:30" (Some 45) = "24:15"
  /\ wf_clock (addMinutesToTime "23:30" (Some 45)) = true
  /\ timeToMinutes (addMinutesToTime "23:30" (Some 45)) = Some (minutesOf "23:30" + 45)
  /\ getTimeDifferenceInMinutes "23:30" (addMinutesToTime "23:30" (Some 45)) = Some 45.
Proof.
  split; [reflexivity|].
  apply (addMinutesToTime_round_trip "23:30" 45); [reflexivity|].
  vm_compute. split; [discriminate|reflexivity].
Defined.

Lemma getRandomTime_within_bounds_witness :
  getRandomTime (1 # 2) "06:00" "21:00" = "13:30"
  /\ wf_clock (getRandomTime (1 # 2) "06:00" "21:00") = true
  /\ minutesOf "06:00" <= minutesOf (getRandomTime (1 # 2) "06:00" "21:00")
     <= minutesOf "21:00"
  /\ isTimeInRange (getRandomTime (1 # 2) "06:00" "21:00") "06:00" "21:00" = true.
Proof.
  split; [vm_compute; reflexivity|].
  apply (getRandomTime_within_bounds (1 # 2) "06:00" "21:00");
    [reflexivity|reflexivity|vm_compute; discriminate
    |vm_compute; discriminate|vm_compute; discriminate].
Defined.

Lemma generated_ride_is_proper_witness :
  rideTimes (1 # 2) (1 # 2) = ("13:30", "14:37")
  /\ proper_ride ride_generated = true
  /\ 360 <= minutesOf (Ride.startTime ride_generated) <= 1260
  /\ 15 <= minutesOf (Ride.endTime ride_generated)
           - minutesOf (Ride.startTime ride_generated) <= 120
  /\ minutesOf (Ride.endTime ride_generated) <= 1380
  /\ getTimeDifferenceInMinutes (Ride.startTime ride_generated)
       (Ride.endTime ride_generated)
     = int_add (Math_floor (num_mul (Some (1 # 2)) (Some (105 : Q)))) (Some 15).
Proof.
  split; [vm_compute; reflexivity|].
  apply (generated_ride_is_proper (1 # 2) (1 # 2) ride_generated);
    [vm_compute; discriminate|vm_compute; discriminate
    |vm_compute; discriminate|vm_compute; discriminate
    |vm_compute; reflexivity].
Defined.

Lemma time_comparisons_agree_witness :
  isTimeAfter "10:15" "09:30" = true
  /\ localeCompare "10:15" "09:30" = Gt
  /\ int_lt (getTimeDifferenceInMinutes "10:15" "09:30") (Some 0) = true
  /\ isTimeAfter "09:30" "10:15" = false.
Proof.
  destruct (time_comparisons_agree "10:15" "09:30" eq_refl eq_refl)
    as (Hsort & _ & Hdiff & Hasym & _).
  split; [reflexivity|]. split; [now apply Hsort|].
  split; [now apply Hdiff|now apply Hasym].
Defined.

Lemma overnight_shift_driver_gets_no_ride_witness :
  overnight_shift driver_night = true
  /\ isDriverOnShift driver_night "23:00" "23:30" = false
  /\ Result.assignments
       (returned (assignDriversToRides grid_distance service_down
                    [driver_night; driver2] [ride_evening] cold))
     = [("driver2", ["ride9"])]
  /\ ~ In ("driver4", ["ride9"])
          (Result.assignments
             (returned (assignDriversToRides grid_distance service_down
                          [driver_night; driver2] [ride_evening] cold))).
Proof.
  destruct (overnight_shift_driver_gets_no_ride grid_distance service_down
              [driver_night; driver2] [ride_evening] cold "driver4") as [Hoff Hout].
  split; [reflexivity|]. split; [now apply Hoff|]. split; [vm_compute; reflexivity|].
  apply Hout. intros driver [<-|[<-|[]]] E; [reflexivity|discriminate E].
Defined.

Lemma blank_blocked_address_blocks_every_ride_witness :
  blocks_blank driver_blank = true
  /\ isAddressBlocked driver_blank "Ramat Gan, Israel" = true
  /\ Result.assignments
       (returned (assignDriversToRides grid_distance service_down
                    [driver_blank; driver2] [ride1] cold))
     = [("driver2", ["ride1"])]
  /\ ~ In ("driver5", ["ride1"])
          (Result.assignments
             (returned (assignDriversToRides grid_distance service_down
                          [driver_blank; driver2] [ride1] cold))).
Proof.
  destruct (blank_blocked_address_blocks_every_ride grid_distance service_down
              [driver_blank; driver2] [ride1] cold "driver5") as [Hblocked Hout].
  split; [reflexivity|]. split; [now apply Hblocked|]. split; [vm_compute; reflexivity|].
  apply Hout. intros driver [<-|[<-|[]]] E; [reflexivity|discriminate E].
Defined.

Lemma statically_excluded_ride_is_dropped_witness :
  too_large_for_all [driver1; driver2] ride_group = true
  /\ processRide grid_distance service_up [driver1; driver2]
       (initialState [driver1; driver2] cold) ride_group
     = initialState [driver1; driver2] cold
  /\ Result.assignments
       (returned (assignDriversToRides grid_distance service_down
                    [driver1; driver2] [ride_group; ride1] cold))
     = [("driver2", ["ride1"])].
Proof.
  destruct (statically_excluded_ride_is_dropped grid_distance service_up
              [driver1; driver2] [ride_group; ride1] cold ride_group) as [Hlarge Hdrop].
  destruct (Hdrop (Hlarge eq_refl)) as [Hstep _].
  split; [reflexivity|]. split; [apply Hstep|vm_compute; reflexivity].
Defined.

Lemma unusable_reply_falls_back_and_sticks_witness :
  unusable (service_flaky 0 depot nearby) = true
  /\ fst (getDistanceFromOSRM grid_distance service_flaky depot nearby None cold)
     = Some (grid_distance depot nearby)
  /\ requests (snd (getDistanceFromOSRM grid_distance service_flaky depot nearby None cold))
     = [getDistanceCacheKey depot nearby]
  /\ fst (getDistanceFromOSRM grid_distance service_flaky depot nearby None
            (snd (getDistanceFromOSRM grid_distance service_flaky depot nearby None cold)))
     = Some (grid_distance depot nearby).
Proof.
  assert (distanceCache cold !! getDistanceCacheKey depot nearby = None) as Hmiss
    by reflexivity.
  assert (grid_distance depot nearby <= default (30 : Q) None)%Q as Hnear
    by (vm_compute; discriminate).
  destruct (unusable_reply_falls_back_and_sticks grid_distance service_flaky
              depot nearby None cold Hmiss Hnear eq_refl) as (Hv & _ & Hq & Hstick).
  split; [reflexivity|]. split; [exact Hv|]. split; [exact Hq|].
  now rewrite (Hstick None).
Defined.

Lemma engine_keeps_cached_distances_witness :
  distanceCache warm !! getDistanceCacheKey depot nearby = Some (Some 25%Q)
  /\ fst (getDistanceFromOSRM grid_distance service_up depot nearby None
            (world_after (assignDriversToRides grid_distance service_up
                            [driver2] [ride1] warm)))
     = Some 25%Q.
Proof.
  destruct (engine_keeps_cached_distances grid_distance service_up [driver2] [ride1] warm)
    as [_ Hhit].
  split; [reflexivity|].
  now rewrite (Hhit depot nearby (Some 25%Q) None eq_refl).
Defined.


Lemma lookups_never_come_back_empty_witness :
  is_Some (driverAvailability
             (runRides grid_distance service_up [driver1; driver2] [ride1; ride2]
                (initialState [driver1; driver2] cold))
           !! Driver.driverId driver2)
  /\ is_Some (findAssignment (Driver.driverId driver2)
                (assignments
                   (runRides grid_distance service_up [driver1; driver2] [ride1; ride2]
                      (initialState [driver1; driver2] cold)))).
Proof.
  destruct (lookups_never_come_back_empty grid_distance service_up
              [driver1; driver2] [ride1; ride2] cold driver2
              (runRides grid_distance service_up [driver1; driver2] [ride1; ride2]
                 (initialState [driver1; driver2] cold))
              (or_intror (or_introl eq_refl))
              (conj eq_refl (conj eq_refl eq_refl))) as (H1 & H2 & _).
  split; [exact H1|exact H2].
Defined.

Lemma sorted_rides_stay_in_place_witness :
  StronglySorted ride_le [ride1; ride2; ride_next_day]
  /\ sortRides [ride1; ride2; ride_next_day] = [ride1; ride2; ride_next_day].
Proof.
  assert (StronglySorted ride_le [ride1; ride2; ride_next_day]) as Hs.
  { repeat constructor; vm_compute; discriminate. }
  split; [exact Hs|]. now apply (proj1 (sorted_rides_stay_in_place _)).
Defined.

Lemma assigned_rides_pass_static_checks_witness :
  Result.assignments
    (returned (assignDriversToRides grid_distance service_down
                 [driver1; driver2] [ride1; ride2] cold))
  = [("driver2", ["ride1"; "ride2"])]
  /\ Ride.numberOfSeats ride2 <= Driver.numberOfSeats driver2
  /\ isDriverOnShift driver2 (Ride.startTime ride2) (Ride.endTime ride2) = true
  /\ isAddressBlocked driver2 (Ride.startPoint ride2) = false
  /\ isAddressBlocked driver2 (Ride.endPoint ride2) = false.
Proof.
  split; [vm_compute; reflexivity|].
  apply (assigned_rides_pass_static_checks grid_distance service_down
           [driver1; driver2] [ride1; ride2] cold driver2 ride2 ["ride1"; "ride2"]).
  - apply (bool_decide_unpack _). vm_compute. reflexivity.
  - apply (bool_decide_unpack _). vm_compute. reflexivity.
  - right. left. reflexivity.
  - right. left. reflexivity.
  - vm_compute. left. reflexivity.
  - right. left. reflexivity.
Defined.

Lemma ride_is_dropped_only_without_candidate_witness :
  evaluations grid_distance service_up [driver1] (initialState [driver1] cold) ride_late
  = [(driver1, None)]
  /\ committed (fst (chooseDriver grid_distance service_up [driver1]
                       (initialState [driver1] cold) ride_late)) = None.
Proof.
  assert (evaluations grid_distance service_up [driver1] (initialState [driver1] cold)
            ride_late = [(driver1, None)]) as He by (vm_compute; reflexivity).
  split; [exact He|].
  apply (ride_is_dropped_only_without_candidate grid_distance service_up [driver1]
           (initialState [driver1] cold) ride_late eq_refl).
  intros k driver c. rewrite He. destruct k as [|k]; discriminate.
Defined.

Lemma result_does_not_depend_on_ride_order_witness :
  assignDriversToRides grid_distance service_down [driver2] [ride2; ride1] cold
  = assignDriversToRides grid_distance service_down [driver2] [ride1; ride2] cold
  /\ Result.assignments
       (returned (assignDriversToRides grid_distance service_down [driver2]
                    [ride2; ride1] cold))
     = [("driver2", ["ride1"; "ride2"])].
Proof.
  split; [|vm_compute; reflexivity].
  apply (result_does_not_depend_on_ride_order grid_distance service_down [driver2]
           [ride1; ride2] [ride2; ride1] cold).
  - intros a b [<-|[<-|[]]] [<-|[<-|[]]] Hd Ht; try reflexivity; discriminate Ht.
  - apply perm_swap.
Defined.

Lemma generated_driver_is_well_formed_witness :
  let driver := generatedDriver 0 "Tel Aviv, Israel" depot
                  (1 # 2) (1 # 2) (1 # 2) (1 # 2) (1 # 2) ["Haifa, Israel"] in
  Driver.driverId driver = "driver1"
  /\ Driver.shiftStart driver = Some "16:00"
  /\ Driver.shiftEnd driver = Some "22:00"
  /\ Driver.numberOfSeats driver = 6
  /\ wf_driver driver = true
  /\ overnight_shift driver = false
  /\ 4 <= Driver.numberOfSeats driver <= 9
  /\ (0.5 <= Driver.fuelCost driver)%Q
  /\ (Driver.fuelCost driver <= 0.8)%Q.
Proof.
  cbv zeta.
  destruct (generated_driver_is_well_formed 0 "Tel Aviv, Israel" depot
              (1 # 2) (1 # 2) (1 # 2) (1 # 2) (1 # 2) ["Haifa, Israel"])
    as (Hwf & Hday & _ & Hseats & Hlow & Hhigh & _);
    try (vm_compute; discriminate).
  split; [vm_compute; reflexivity|]. split; [vm_compute; reflexivity|].
  split; [vm_compute; reflexivity|]. split; [vm_compute; reflexivity|].
  split; [exact Hwf|]. split; [exact Hday|]. split; [exact Hseats|].
  split; [exact Hlow|exact Hhigh].
Defined.
